(** * goconsole: the operator engine of the interpreter (interp/operator.go)

    A shallow embedding of the binary operators of the interpreter and the
    properties of its design document that concern them.

    Conventions of the embedding.
    - The Go packages the engine talks to keep their names: [types]
      (go/types), [exact] (go/exact), [reflect] and [token] are modules.
    - [int], [uint] and [uintptr] are 64 bits wide (the amd64 and arm64
      targets); see [intSize].
    - A [reflect.Value] either carries its datum itself (the result of
      [reflect.ValueOf]) or designates a storage slot of the [heap] (the
      result of [reflect.New(t).Elem()]); the setters write to the heap.
    - A call that ends in [log.Fatal], in [panic] or in a run-time panic of
      the host returns [Err] with the [fault] that says which.
    - Array, struct, interface and unsafe-pointer values are not modelled:
      the value universe is the one of the design's data model plus the
      channel, function, map, pointer and slice kinds. *)

From Stdlib Require Import ZArith String List Lia QArith.
From Stdlib Require Import SpecFloat.
From stdpp Require Import base list.

Local Open Scope string_scope.
Local Open Scope Z_scope.

(** ** Fixed-width integers *)

(** Width of [int], [uint] and [uintptr]. *)
Definition intSize : Z := 64.

(** Conversion to an unsigned integer type of [w] bits. *)
Definition wrapU (w z : Z) : Z := z mod 2 ^ w.

(** Conversion to a signed integer type of [w] bits (two's complement). *)
Definition wrapS (w z : Z) : Z := (z + 2 ^ (w - 1)) mod 2 ^ w - 2 ^ (w - 1).

Definition inS (w z : Z) : Prop := - 2 ^ (w - 1) <= z < 2 ^ (w - 1).
Definition inU (w z : Z) : Prop := 0 <= z < 2 ^ w.

(** ** Floating point: IEEE 754 binary32 and binary64 *)

Definition float := spec_float.

Definition add32 := SFadd 24 128.
Definition sub32 := SFsub 24 128.
Definition mul32 := SFmul 24 128.
Definition div32 := SFdiv 24 128.
Definition add64 := SFadd 53 1024.
Definition sub64 := SFsub 53 1024.
Definition mul64 := SFmul 53 1024.
Definition div64 := SFdiv 53 1024.

(** The conversion [float32(x)] of a [float64]. *)
Definition float32 (x : float) : float :=
  match x with
  | S754_finite s m e => binary_normalize 24 128 (cond_Zopp s (Zpos m)) e s
  | _ => x
  end.

(** The conversion [float64(x)]: every binary32 number is a binary64 one. *)
Definition float64 (x : float) : float := x.

Definition isNaN (x : float) : bool :=
  match x with S754_nan => true | _ => false end.

Definition complex : Type := float * float.

Definition complex64 (c : complex) : complex := (float32 (fst c), float32 (snd c)).
Definition complex128 (c : complex) : complex := c.

(** ** go/types *)

Module types.

Inductive BasicKind :=
| Invalid
| Bool | Int | Int8 | Int16 | Int32 | Int64
| Uint | Uint8 | Uint16 | Uint32 | Uint64 | Uintptr
| Float32 | Float64 | Complex64 | Complex128
| String | UnsafePointer
| UntypedBool | UntypedInt | UntypedRune | UntypedFloat | UntypedComplex
| UntypedString | UntypedNil.

(** The aliases of go/types. *)
Definition Byte := Uint8.
Definition Rune := Int32.

Definition BasicKind_eqb (a b : BasicKind) : bool :=
  match a, b with
  | Invalid, Invalid | Bool, Bool | Int, Int | Int8, Int8 | Int16, Int16
  | Int32, Int32 | Int64, Int64 | Uint, Uint | Uint8, Uint8
  | Uint16, Uint16 | Uint32, Uint32 | Uint64, Uint64 | Uintptr, Uintptr
  | Float32, Float32 | Float64, Float64 | Complex64, Complex64
  | Complex128, Complex128 | String, String | UnsafePointer, UnsafePointer
  | UntypedBool, UntypedBool | UntypedInt, UntypedInt
  | UntypedRune, UntypedRune | UntypedFloat, UntypedFloat
  | UntypedComplex, UntypedComplex | UntypedString, UntypedString
  | UntypedNil, UntypedNil => true
  | _, _ => false
  end.

(** [Basic.Info() & IsUntyped != 0] *)
Definition isUntyped (k : BasicKind) : bool :=
  match k with
  | UntypedBool | UntypedInt | UntypedRune | UntypedFloat | UntypedComplex
  | UntypedString | UntypedNil => true
  | _ => false
  end.

(** A [types.Type]. A named type is identified by the name of its
    declaration; a function type by its printed form. *)
Inductive type :=
| Basic (k : BasicKind)
| Named (obj : string) (underlying : type)
| Pointer (elem : type)
| Slice (elem : type)
| Map (key elem : type)
| Chan (elem : type)
| Signature (printed : string).

(** [Typ[k]], the predeclared basic types. *)
Definition Typ (k : BasicKind) : type := Basic k.

Fixpoint Underlying (t : type) : type :=
  match t with
  | Named _ u => Underlying u
  | _ => t
  end.

(** The type assertion of [t] to a pointer to [types.Named]. *)
Definition isNamed (t : type) : bool :=
  match t with Named _ _ => true | _ => false end.

(** [types.Identical]: basic types by kind, named types by declaration,
    the others by structure. *)
Fixpoint Identical (x y : type) : bool :=
  match x, y with
  | Basic a, Basic b => BasicKind_eqb a b
  | Named a _, Named b _ => String.eqb a b
  | Pointer a, Pointer b => Identical a b
  | Slice a, Slice b => Identical a b
  | Map ka a, Map kb b => Identical ka kb && Identical a b
  | Chan a, Chan b => Identical a b
  | Signature a, Signature b => String.eqb a b
  | _, _ => false
  end.

End types.

(** ** go/exact: the values of constants *)

Module exact.

Inductive Value :=
| Unknown
| BoolV (b : bool)
| StringV (s : string)
| IntV (z : Z)
| FloatV (q : Q)
| ComplexV (re im : Q).

End exact.

(** ** reflect *)

Module reflect.

Inductive Kind :=
| Bool | Int | Int8 | Int16 | Int32 | Int64
| Uint | Uint8 | Uint16 | Uint32 | Uint64 | Uintptr
| Float32 | Float64 | Complex64 | Complex128
| Chan | Func | Map | Ptr | Slice | String.

Definition Kind_eqb (a b : Kind) : bool :=
  match a, b with
  | Bool, Bool | Int, Int | Int8, Int8 | Int16, Int16 | Int32, Int32
  | Int64, Int64 | Uint, Uint | Uint8, Uint8 | Uint16, Uint16
  | Uint32, Uint32 | Uint64, Uint64 | Uintptr, Uintptr
  | Float32, Float32 | Float64, Float64 | Complex64, Complex64
  | Complex128, Complex128 | Chan, Chan | Func, Func | Map, Map
  | Ptr, Ptr | Slice, Slice | String, String => true
  | _, _ => false
  end.

(** Bit width of the integer kinds (0 for the others). *)
Definition bits (k : Kind) : Z :=
  match k with
  | Int | Uint | Uintptr => intSize
  | Int8 | Uint8 => 8
  | Int16 | Uint16 => 16
  | Int32 | Uint32 => 32
  | Int64 | Uint64 => 64
  | _ => 0
  end.

Definition isSigned (k : Kind) : bool :=
  match k with Int | Int8 | Int16 | Int32 | Int64 => true | _ => false end.

Definition isUnsigned (k : Kind) : bool :=
  match k with
  | Uint | Uint8 | Uint16 | Uint32 | Uint64 | Uintptr => true
  | _ => false
  end.

(** The kinds [IsNil] accepts. *)
Definition isReference (k : Kind) : bool :=
  match k with Chan | Func | Map | Ptr | Slice => true | _ => false end.

(** The kinds whose values [==] compares. *)
Definition isComparable (k : Kind) : bool :=
  match k with Func | Map | Slice => false | _ => true end.

(** A [reflect.Type]: its printed form and its kind. *)
Record rtype := { String_ : string; Kind_ : Kind }.

Definition rtype_eqb (a b : rtype) : bool :=
  String.eqb (String_ a) (String_ b) && Kind_eqb (Kind_ a) (Kind_ b).

(** What a storage slot holds. *)
Inductive data :=
| DBool (b : bool)
| DInt (z : Z)
| DFloat (f : float)
| DComplex (c : complex)
| DString (s : string)
| DRef (p : option Z).

(** Where a [Value] keeps its datum: in itself (not addressable), or in
    the slot [a] of the heap (addressable and settable). *)
Inductive place :=
| Imm (d : data)
| Addr (a : nat).

Record Value := { typ : rtype; ptr : place }.

Definition kind (v : Value) : Kind := Kind_ (typ v).

(** The zero value of a kind. *)
Definition zero (k : Kind) : data :=
  match k with
  | Bool => DBool false
  | Int | Int8 | Int16 | Int32 | Int64
  | Uint | Uint8 | Uint16 | Uint32 | Uint64 | Uintptr => DInt 0
  | Float32 | Float64 => DFloat (S754_zero false)
  | Complex64 | Complex128 => DComplex (S754_zero false, S754_zero false)
  | Chan | Func | Map | Ptr | Slice => DRef None
  | String => DString ""
  end.

(** The types of the predeclared basic types. *)
Definition boolType : rtype := {| String_ := "bool"; Kind_ := Bool |}.
Definition intType : rtype := {| String_ := "int"; Kind_ := Int |}.
Definition int32Type : rtype := {| String_ := "int32"; Kind_ := Int32 |}.
Definition uint64Type : rtype := {| String_ := "uint64"; Kind_ := Uint64 |}.
Definition float64Type : rtype := {| String_ := "float64"; Kind_ := Float64 |}.
Definition complex128Type : rtype :=
  {| String_ := "complex128"; Kind_ := Complex128 |}.
Definition stringType : rtype := {| String_ := "string"; Kind_ := String |}.

(** [reflect.ValueOf(x)] for [x] of the basic type [t]. *)
Definition ValueOf (t : rtype) (d : data) : Value :=
  {| typ := t; ptr := Imm d |}.

End reflect.

(** ** go/token: the operators *)

Module token.

Inductive Token :=
| ADD | SUB | MUL | QUO | REM
| AND | OR | XOR | SHL | SHR | AND_NOT
| LAND | LOR | ARROW | INC | DEC
| EQL | LSS | GTR | ASSIGN | NOT
| NEQ | LEQ | GEQ.

End token.

(** ** Faults and results *)

(** The run-time panics of the host language that the engine can meet. *)
Inductive runtimeError :=
| DivideByZero          (* "integer divide by zero" *)
| InterfaceConversion   (* a failed type assertion [x.(T)] *)
| UncomparableType      (* "comparing uncomparable type" *)
| InvalidAddress.       (* a slot that does not exist *)

(** How a call of the engine ends when it does not return. *)
Inductive fault :=
| Fatal (msg : string)
  (* [log.Fatal(msg)]: the message is logged and the process exits *)
| Fatalf (msg : string) (op : token.Token)
  (* [log.Fatalf(msg, op)] *)
| TypeError (operation : string) (l r : types.type)
  (* [panic("Type error: Invalid operands to " + operation + ": "
            + TypeString(l) + ", " + TypeString(r))] *)
| ValueError (method : string) (k : reflect.Kind)
  (* the panic of a reflect method called on a value of the wrong kind *)
| NotAssignable (method : string)
  (* the panic of a reflect setter on a value that is not addressable *)
| ExactPanic (msg : string)
  (* the panic of a go/exact accessor on a constant of the wrong kind *)
| RuntimeError (e : runtimeError).
  (* a run-time panic of the host *)

Inductive result (A : Type) :=
| Ok (a : A)
| Err (f : fault).
Arguments Ok {A} a.
Arguments Err {A} f.

Definition bind {A B : Type} (r : result A) (k : A -> result B) : result B :=
  match r with
  | Ok a => k a
  | Err f => Err f
  end.

Notation "x <- e ;; k" := (bind e (fun x => k))
  (at level 100, e at level 99, k at level 200, right associativity).

(** A caller stops a panic with [recover] in a deferred call, which gives
    it the value of the panic; nothing stops [log.Fatal], whose [os.Exit]
    runs no deferred call. The values of the panics, by their Go types: *)
Inductive panicValue :=
| stringValue
  (* [panic(s)] with a string [s]: the engine's "Type error: ...", and the
     messages of the setters of reflect and of the accessors of go/exact *)
| valueErrorValue
  (* a pointer to a [reflect.ValueError] *)
| runtimeErrorValue.
  (* a [runtime.Error], the type of the panics of the run time *)

(** What [recover] returns to a caller of the engine, [None] when the
    process has exited. The engine itself calls [recover] nowhere. *)
Definition recovered (f : fault) : option panicValue :=
  match f with
  | Fatal _ | Fatalf _ _ => None
  | TypeError _ _ _ | NotAssignable _ | ExactPanic _ => Some stringValue
  | ValueError _ _ => Some valueErrorValue
  | RuntimeError _ => Some runtimeErrorValue
  end.

(** The faults the engine raises of its own: [log.Fatal] and the
    [panic("Type error: ...")] of a switch that has no case for a kind. *)
Definition raisedByEngine (f : fault) : bool :=
  match f with
  | Fatal _ | Fatalf _ _ | TypeError _ _ _ => true
  | _ => false
  end.

(** ** The heap of storage slots and the methods of [reflect.Value] *)

Abbreviation heap := (list reflect.data).

Definition load (h : heap) (v : reflect.Value) : result reflect.data :=
  match reflect.ptr v with
  | reflect.Imm d => Ok d
  | reflect.Addr a =>
      match h !! a with
      | Some d => Ok d
      | None => Err (RuntimeError InvalidAddress)
      end
  end.

(** [v.mustBeAssignable()] and the write through [v]'s pointer. *)
Definition store (method : string) (v : reflect.Value) (d : reflect.data)
    (h : heap) : result heap :=
  match reflect.ptr v with
  | reflect.Imm _ => Err (NotAssignable method)
  | reflect.Addr a =>
      if decide (a < length h)%nat then Ok (<[a := d]> h)
      else Err (RuntimeError InvalidAddress)
  end.

(** [reflect.New(t).Elem()]: a new slot holding the zero value of [t]. *)
Definition New_Elem (t : reflect.rtype) (h : heap) : reflect.Value * heap :=
  ({| reflect.typ := t; reflect.ptr := reflect.Addr (length h) |},
   (h ++ [reflect.zero (reflect.Kind_ t)])%list).

Definition Value_Int (h : heap) (v : reflect.Value) : result Z :=
  if reflect.isSigned (reflect.kind v) then
    d <- load h v ;;
    match d with
    | reflect.DInt z => Ok z
    | _ => Err (ValueError "reflect.Value.Int" (reflect.kind v))
    end
  else Err (ValueError "reflect.Value.Int" (reflect.kind v)).

Definition Value_Uint (h : heap) (v : reflect.Value) : result Z :=
  if reflect.isUnsigned (reflect.kind v) then
    d <- load h v ;;
    match d with
    | reflect.DInt z => Ok z
    | _ => Err (ValueError "reflect.Value.Uint" (reflect.kind v))
    end
  else Err (ValueError "reflect.Value.Uint" (reflect.kind v)).

Definition Value_Float (h : heap) (v : reflect.Value) : result float :=
  match reflect.kind v with
  | reflect.Float32 | reflect.Float64 =>
      d <- load h v ;;
      match d with
      | reflect.DFloat f => Ok f
      | _ => Err (ValueError "reflect.Value.Float" (reflect.kind v))
      end
  | k => Err (ValueError "reflect.Value.Float" k)
  end.

Definition Value_Complex (h : heap) (v : reflect.Value) : result complex :=
  match reflect.kind v with
  | reflect.Complex64 | reflect.Complex128 =>
      d <- load h v ;;
      match d with
      | reflect.DComplex c => Ok c
      | _ => Err (ValueError "reflect.Value.Complex" (reflect.kind v))
      end
  | k => Err (ValueError "reflect.Value.Complex" k)
  end.

(** [String] does not panic on the other kinds: it returns the string
    ["<T Value>"] for a value of type [T]. *)
Definition Value_String (h : heap) (v : reflect.Value) : result string :=
  match reflect.kind v with
  | reflect.String =>
      d <- load h v ;;
      match d with
      | reflect.DString s => Ok s
      | _ => Err (ValueError "reflect.Value.String" (reflect.kind v))
      end
  | _ => Ok ("<" ++ reflect.String_ (reflect.typ v) ++ " Value>")
  end.

Definition Value_IsNil (h : heap) (v : reflect.Value) : result bool :=
  if reflect.isReference (reflect.kind v) then
    d <- load h v ;;
    match d with
    | reflect.DRef None => Ok true
    | reflect.DRef (Some _) => Ok false
    | _ => Err (ValueError "reflect.Value.IsNil" (reflect.kind v))
    end
  else Err (ValueError "reflect.Value.IsNil" (reflect.kind v)).

Definition Value_SetInt (v : reflect.Value) (x : Z) (h : heap) : result heap :=
  match reflect.ptr v with
  | reflect.Imm _ => Err (NotAssignable "reflect.Value.SetInt")
  | _ =>
      if reflect.isSigned (reflect.kind v) then
        store "reflect.Value.SetInt" v
          (reflect.DInt (wrapS (reflect.bits (reflect.kind v)) x)) h
      else Err (ValueError "reflect.Value.SetInt" (reflect.kind v))
  end.

Definition Value_SetUint (v : reflect.Value) (x : Z) (h : heap) : result heap :=
  match reflect.ptr v with
  | reflect.Imm _ => Err (NotAssignable "reflect.Value.SetUint")
  | _ =>
      if reflect.isUnsigned (reflect.kind v) then
        store "reflect.Value.SetUint" v
          (reflect.DInt (wrapU (reflect.bits (reflect.kind v)) x)) h
      else Err (ValueError "reflect.Value.SetUint" (reflect.kind v))
  end.

Definition Value_SetFloat (v : reflect.Value) (x : float) (h : heap) : result heap :=
  match reflect.ptr v with
  | reflect.Imm _ => Err (NotAssignable "reflect.Value.SetFloat")
  | _ =>
      match reflect.kind v with
      | reflect.Float32 =>
          store "reflect.Value.SetFloat" v (reflect.DFloat (float32 x)) h
      | reflect.Float64 =>
          store "reflect.Value.SetFloat" v (reflect.DFloat x) h
      | k => Err (ValueError "reflect.Value.SetFloat" k)
      end
  end.

Definition Value_SetComplex (v : reflect.Value) (x : complex) (h : heap) : result heap :=
  match reflect.ptr v with
  | reflect.Imm _ => Err (NotAssignable "reflect.Value.SetComplex")
  | _ =>
      match reflect.kind v with
      | reflect.Complex64 =>
          store "reflect.Value.SetComplex" v (reflect.DComplex (complex64 x)) h
      | reflect.Complex128 =>
          store "reflect.Value.SetComplex" v (reflect.DComplex x) h
      | k => Err (ValueError "reflect.Value.SetComplex" k)
      end
  end.

Definition Value_SetString (v : reflect.Value) (x : string) (h : heap) : result heap :=
  match reflect.ptr v with
  | reflect.Imm _ => Err (NotAssignable "reflect.Value.SetString")
  | _ =>
      match reflect.kind v with
      | reflect.String =>
          store "reflect.Value.SetString" v (reflect.DString x) h
      | k => Err (ValueError "reflect.Value.SetString" k)
      end
  end.

Definition Value_SetBool (v : reflect.Value) (x : bool) (h : heap) : result heap :=
  match reflect.ptr v with
  | reflect.Imm _ => Err (NotAssignable "reflect.Value.SetBool")
  | _ =>
      match reflect.kind v with
      | reflect.Bool =>
          store "reflect.Value.SetBool" v (reflect.DBool x) h
      | k => Err (ValueError "reflect.Value.SetBool" k)
      end
  end.

(** [v.Interface()]: the datum of [v] with its dynamic type. *)
Definition Value_Interface (h : heap) (v : reflect.Value)
    : result (reflect.rtype * reflect.data) :=
  d <- load h v ;; Ok (reflect.typ v, d).

Definition data_eqb (a b : reflect.data) : bool :=
  match a, b with
  | reflect.DBool x, reflect.DBool y => Bool.eqb x y
  | reflect.DInt x, reflect.DInt y => x =? y
  | reflect.DFloat x, reflect.DFloat y => SFeqb x y
  | reflect.DComplex x, reflect.DComplex y =>
      SFeqb (fst x) (fst y) && SFeqb (snd x) (snd y)
  | reflect.DString x, reflect.DString y => String.eqb x y
  | reflect.DRef None, reflect.DRef None => true
  | reflect.DRef (Some x), reflect.DRef (Some y) => x =? y
  | _, _ => false
  end.

(** [x == y] on two interface values: false when the dynamic types differ,
    a run-time panic when the common type has no equality, the equality of
    the type otherwise (IEEE equality on floats). *)
Definition interface_eq (x y : reflect.rtype * reflect.data) : result bool :=
  if negb (reflect.rtype_eqb (fst x) (fst y)) then Ok false
  else if negb (reflect.isComparable (reflect.Kind_ (fst x)))
       then Err (RuntimeError UncomparableType)
  else Ok (data_eqb (snd x) (snd y)).

(** ** go/exact: the accessors *)

(** [big.Int.Int64]: the low 64 bits of the magnitude, as an [int64],
    negated when the number is negative. *)
Definition bigInt_Int64 (z : Z) : Z :=
  let v := wrapS 64 (wrapU 64 (Z.abs z)) in
  if z <? 0 then wrapS 64 (- v) else v.

(** [big.Int.Uint64]: the low 64 bits of the magnitude. *)
Definition bigInt_Uint64 (z : Z) : Z := wrapU 64 (Z.abs z).

(** An integer constant is kept as an [int64] when it fits in one, and as
    a [big.Int] otherwise. *)
Definition fitsInt64 (z : Z) : bool := (- 2 ^ 63 <=? z) && (z <? 2 ^ 63).

(** The float64 nearest to the rational [q] (ties to even). *)
Definition ratToFloat64 (q : Q) : float :=
  match Qnum q with
  | Z0 => S754_zero false
  | Zpos n => SFdiv 53 1024 (S754_finite false n 0) (S754_finite false (Qden q) 0)
  | Zneg n => SFdiv 53 1024 (S754_finite true n 0) (S754_finite false (Qden q) 0)
  end.

Definition exact_BoolVal (x : exact.Value) : result bool :=
  match x with
  | exact.BoolV b => Ok b
  | exact.Unknown => Ok false
  | _ => Err (ExactPanic "not a Bool")
  end.

Definition exact_StringVal (x : exact.Value) : result string :=
  match x with
  | exact.StringV s => Ok s
  | exact.Unknown => Ok ""
  | _ => Err (ExactPanic "not a String")
  end.

(** The accessors of numbers return the value and whether it is exact. *)
Definition exact_Int64Val (x : exact.Value) : result (Z * bool) :=
  match x with
  | exact.IntV z =>
      if fitsInt64 z then Ok (z, true) else Ok (bigInt_Int64 z, false)
  | exact.Unknown => Ok (0, false)
  | _ => Err (ExactPanic "not an Int")
  end.

Definition exact_Uint64Val (x : exact.Value) : result (Z * bool) :=
  match x with
  | exact.IntV z =>
      if fitsInt64 z then Ok (wrapU 64 z, 0 <=? z)
      else Ok (bigInt_Uint64 z, (0 <=? z) && (z <? 2 ^ 64))
  | exact.Unknown => Ok (0, false)
  | _ => Err (ExactPanic "not an Int")
  end.

Definition exact_Float64Val (x : exact.Value) : result float :=
  match x with
  | exact.IntV z => Ok (ratToFloat64 (inject_Z z))
  | exact.FloatV q => Ok (ratToFloat64 q)
  | exact.Unknown => Ok (S754_zero false)
  | _ => Err (ExactPanic "not a Float")
  end.

Definition exact_Real (x : exact.Value) : result exact.Value :=
  match x with
  | exact.Unknown | exact.IntV _ | exact.FloatV _ => Ok x
  | exact.ComplexV re _ => Ok (exact.FloatV re)
  | _ => Err (ExactPanic "not numeric")
  end.

Definition exact_Imag (x : exact.Value) : result exact.Value :=
  match x with
  | exact.Unknown => Ok x
  | exact.IntV _ | exact.FloatV _ => Ok (exact.IntV 0)
  | exact.ComplexV _ im => Ok (exact.FloatV im)
  | _ => Err (ExactPanic "not numeric")
  end.

(** ** Objects and the environment *)

(** What the field [Value interface{}] of an [Object] holds: a
    [reflect.Value], the [exact.Value] of a constant, or nothing. *)
Inductive iface :=
| ofReflect (v : reflect.Value)
| ofExact (c : exact.Value)
| ofNil.

Record Object := { Value : iface; Typ : types.type }.

(** The type assertion [x.(reflect.Value)]. *)
Definition toReflect (x : iface) : result reflect.Value :=
  match x with
  | ofReflect v => Ok v
  | _ => Err (RuntimeError InterfaceConversion)
  end.

(** The type assertion [x.(exact.Value)]. *)
Definition toExact (x : iface) : result exact.Value :=
  match x with
  | ofExact c => Ok c
  | _ => Err (RuntimeError InterfaceConversion)
  end.

(** The type assertion of a type to a pointer to [types.Basic]. *)
Definition toBasic (t : types.type) : result types.BasicKind :=
  match t with
  | types.Basic k => Ok k
  | _ => Err (RuntimeError InterfaceConversion)
  end.

(** [env.interp.typeMap]: the registry of the storage types. *)
Record interpreter := { typeMap : types.type -> option reflect.rtype }.
Record environ := { interp : interpreter }.

(** Modelled from the spec: [getReflectType] is not in operator.go. It is
    the registry lookup [resolveStorageKind] of the design (section 6): the
    storage type of a language type, [None] standing for Go's [nil]. *)
Definition getReflectType (tm : types.type -> option reflect.rtype)
    (t : types.type) : option reflect.rtype := tm t.

(** Modelled from the spec: [getSettableZeroVal] is not in operator.go. It
    is [allocateZero] of the design (section 6): a fresh zero-valued slot of
    the type, which the engine then writes its result into. *)
Definition getSettableZeroVal (t : reflect.rtype) (h : heap)
    : reflect.Value * heap := New_Elem t h.

(** Modelled from the spec: [isTyped] is not in operator.go. A type is typed
    when its resolved kind is not one of the untyped-constant kinds (design,
    section 4.1). *)
Definition isTyped (t : types.type) : bool :=
  match types.Underlying t with
  | types.Basic k => negb (types.isUntyped k)
  | _ => true
  end.

(** ** The constant normalizer *)

Definition getTypedObject (obj : Object) : result Object :=
  if isTyped (Typ obj) then Ok obj
  else
    t <- toBasic (types.Underlying (Typ obj)) ;;
    ev <- toExact (Value obj) ;;
    match t with
    | types.UntypedBool =>
        b <- exact_BoolVal ev ;;
        Ok {| Value := ofReflect (reflect.ValueOf reflect.boolType (reflect.DBool b));
              Typ := types.Typ types.Bool |}
    | types.UntypedInt =>
        i64 <- exact_Int64Val ev ;;
        Ok {| Value := ofReflect (reflect.ValueOf reflect.intType
                                    (reflect.DInt (wrapS intSize (fst i64))));
              Typ := types.Typ types.Int |}
    | types.UntypedFloat =>
        f64 <- exact_Float64Val ev ;;
        Ok {| Value := ofReflect (reflect.ValueOf reflect.float64Type (reflect.DFloat f64));
              Typ := types.Typ types.Float64 |}
    | types.UntypedComplex =>
        re <- exact_Real ev ;;
        real64 <- exact_Float64Val re ;;
        im <- exact_Imag ev ;;
        imag64 <- exact_Float64Val im ;;
        let c128 := (real64, imag64) in
        Ok {| Value := ofReflect (reflect.ValueOf reflect.complex128Type
                                    (reflect.DComplex c128));
              Typ := types.Typ types.Complex128 |}
    | types.UntypedRune =>
        i64 <- exact_Int64Val ev ;;
        let r := wrapS 32 (fst i64) in
        Ok {| Value := ofReflect (reflect.ValueOf reflect.int32Type (reflect.DInt r));
              Typ := types.Typ types.Rune |}
    | types.UntypedString =>
        s <- exact_StringVal ev ;;
        Ok {| Value := ofReflect (reflect.ValueOf reflect.stringType (reflect.DString s));
              Typ := types.Typ types.String |}
    | types.UntypedNil => Err (Fatal "getTypedObject: Got untyped nil")
    | _ => Ok obj
    end.

(** ** The operators *)

(** The arithmetic of one machine type on the values [a] and [b] it holds;
    division faults on a zero divisor. *)
Definition addZ (a b : Z) : result Z := Ok (a + b).
Definition subZ (a b : Z) : result Z := Ok (a - b).
Definition mulZ (a b : Z) : result Z := Ok (a * b).
Definition quoZ (a b : Z) : result Z :=
  if b =? 0 then Err (RuntimeError DivideByZero) else Ok (Z.quot a b).
Definition remZ (a b : Z) : result Z :=
  if b =? 0 then Err (RuntimeError DivideByZero) else Ok (Z.rem a b).
Definition andZ (a b : Z) : result Z := Ok (Z.land a b).
Definition orZ (a b : Z) : result Z := Ok (Z.lor a b).
Definition xorZ (a b : Z) : result Z := Ok (Z.lxor a b).
Definition andNotZ (a b : Z) : result Z := Ok (Z.ldiff a b).

(** [a << n] and [a >> n] at [w] bits, before the result is brought back to
    the type: a count of [w] or more shifts every bit out. *)
Definition shlZ (w a n : Z) : Z := if w <=? n then 0 else Z.shiftl a n.
Definition shrZ (w a n : Z) : Z :=
  if w <=? n then (if a <? 0 then -1 else 0) else Z.shiftr a n.

Definition cadd (add : float -> float -> float) (x y : complex) : complex :=
  (add (fst x) (fst y), add (snd x) (snd y)).

(** One case of the switch on [lv.Kind()]: it reads the operands and sets
    [newVal]. *)
Definition kindCase : Type :=
  reflect.Value -> reflect.Value -> reflect.Value -> heap -> result heap.

(** [r := T(lv.Int()) op T(rv.Int()); newVal.SetInt(int64(r))] for the
    signed type [T] of [w] bits. *)
Definition signedCase (w : Z) (op : Z -> Z -> result Z) : kindCase :=
  fun lv rv newVal h =>
    a <- Value_Int h lv ;;
    b <- Value_Int h rv ;;
    r <- op (wrapS w a) (wrapS w b) ;;
    Value_SetInt newVal (wrapS 64 (wrapS w r)) h.

(** [r := T(lv.Uint()) op T(rv.Uint()); newVal.SetUint(uint64(r))] for the
    unsigned type [T] of [w] bits. *)
Definition unsignedCase (w : Z) (op : Z -> Z -> result Z) : kindCase :=
  fun lv rv newVal h =>
    a <- Value_Uint h lv ;;
    b <- Value_Uint h rv ;;
    r <- op (wrapU w a) (wrapU w b) ;;
    Value_SetUint newVal (wrapU 64 (wrapU w r)) h.

(** [r := T(lv.Float()) op T(rv.Float()); newVal.SetFloat(float64(r))] *)
Definition floatCase (T : float -> float) (op : float -> float -> float) : kindCase :=
  fun lv rv newVal h =>
    a <- Value_Float h lv ;;
    b <- Value_Float h rv ;;
    Value_SetFloat newVal (float64 (op (T a) (T b))) h.

(** [r := T(lv.Complex()) op T(rv.Complex()); newVal.SetComplex(complex128(r))] *)
Definition complexCase (T : complex -> complex) (op : complex -> complex -> complex)
    : kindCase :=
  fun lv rv newVal h =>
    a <- Value_Complex h lv ;;
    b <- Value_Complex h rv ;;
    Value_SetComplex newVal (complex128 (op (T a) (T b))) h.

(** [sum := lv.String() + rv.String(); newVal.SetString(sum)] *)
Definition stringCase : kindCase :=
  fun lv rv newVal h =>
    a <- Value_String h lv ;;
    b <- Value_String h rv ;;
    Value_SetString newVal (a ++ b) h.

(** One case of the switch of a shift, [amt] being the count. *)
Definition shiftCase : Type :=
  reflect.Value -> Z -> reflect.Value -> heap -> result heap.

(** [shifted := T(lv.Int()) op amt; newVal.SetInt(int64(shifted))] *)
Definition signedShift (w : Z) (op : Z -> Z -> Z -> Z) : shiftCase :=
  fun lv amt newVal h =>
    a <- Value_Int h lv ;;
    Value_SetInt newVal (wrapS 64 (wrapS w (op w (wrapS w a) amt))) h.

(** [shifted := T(lv.Uint()) op amt; newVal.SetUint(uint64(shifted))] *)
Definition unsignedShift (w : Z) (op : Z -> Z -> Z -> Z) : shiftCase :=
  fun lv amt newVal h =>
    a <- Value_Uint h lv ;;
    Value_SetUint newVal (wrapU 64 (wrapU w (op w (wrapU w a) amt))) h.

(** What the eleven arithmetic and bitwise operators share: the operands
    are normalized, a slot of the left operand's type is allocated, the case
    of the left operand's kind fills it. [fname] is the name of the
    operator's function, [operation] what its panic calls the operation. *)
Definition binaryOperator (fname operation : string)
    (cases : reflect.Kind -> option kindCase)
    (env : environ) (left right : Object) (h : heap) : result (Object * heap) :=
  left <- getTypedObject left ;;
  right <- getTypedObject right ;;
  lv <- toReflect (Value left) ;;
  rv <- toReflect (Value right) ;;
  let newTyp := Typ left in
  match getReflectType (typeMap (interp env)) newTyp with
  | None => Err (Fatal (fname ++ ": Couldn't get reflect.Type from types.Type"))
  | Some newRtyp =>
      let (newVal, h) := getSettableZeroVal newRtyp h in
      match cases (reflect.kind lv) with
      | Some case =>
          h <- case lv rv newVal h ;;
          Ok ({| Value := ofReflect newVal; Typ := newTyp |}, h)
      | None => Err (TypeError operation (Typ left) (Typ right))
      end
  end.

(** The count of a shift: the right operand's [reflect.Value], or the
    [uint64] of its constant, read with [Uint]. *)
Definition shiftCount (right : Object) (h : heap) : result Z :=
  rv <- match Value right with
        | ofReflect rv => Ok rv
        | other =>
            ev <- toExact other ;;
            v64 <- exact_Uint64Val ev ;;
            Ok (reflect.ValueOf reflect.uint64Type (reflect.DInt (fst v64)))
        end ;;
  Value_Uint h rv.

Definition shiftOperator (fname : string)
    (cases : reflect.Kind -> option shiftCase)
    (env : environ) (left right : Object) (h : heap) : result (Object * heap) :=
  left <- getTypedObject left ;;
  lv <- toReflect (Value left) ;;
  amt <- shiftCount right h ;;
  let newTyp := Typ left in
  match getReflectType (typeMap (interp env)) newTyp with
  | None => Err (Fatal (fname ++ ": Couldn't get reflect.Type from types.Type"))
  | Some newRtyp =>
      let (newVal, h) := getSettableZeroVal newRtyp h in
      match cases (reflect.kind lv) with
      | Some case =>
          h <- case lv amt newVal h ;;
          Ok ({| Value := ofReflect newVal; Typ := newTyp |}, h)
      | None => Err (TypeError "shift" (Typ left) (Typ right))
      end
  end.

(** The switch of the nine operators on integers, for the operation [op] of
    the machine type. *)
Definition integerCases (op : Z -> Z -> result Z) (k : reflect.Kind)
    : option kindCase :=
  match k with
  | reflect.Int => Some (signedCase intSize op)
  | reflect.Int8 => Some (signedCase 8 op)
  | reflect.Int16 => Some (signedCase 16 op)
  | reflect.Int32 => Some (signedCase 32 op)
  | reflect.Int64 => Some (signedCase 64 op)
  | reflect.Uint => Some (unsignedCase intSize op)
  | reflect.Uint8 => Some (unsignedCase 8 op)
  | reflect.Uint16 => Some (unsignedCase 16 op)
  | reflect.Uint32 => Some (unsignedCase 32 op)
  | reflect.Uint64 => Some (unsignedCase 64 op)
  | reflect.Uintptr => Some (unsignedCase intSize op)
  | _ => None
  end.

Section Host.

(** The operations of the host that the engine leaves to the run time and
    to its libraries: the product and the quotient of two complex numbers
    of [2 * w] bits, [types.AssignableTo] and [reflect.Value.Convert]. *)
Variable complexMul complexDiv : Z -> complex -> complex -> complex.
Variable AssignableTo : types.type -> types.type -> bool.
Variable Convert : heap -> reflect.Value -> reflect.rtype -> result reflect.Value.

(** The cases of the four arithmetic operators on floats and complex
    numbers. *)
Definition floatingCases (f32 f64 : float -> float -> float)
    (c64 c128 : complex -> complex -> complex) (k : reflect.Kind)
    : option kindCase :=
  match k with
  | reflect.Float32 => Some (floatCase float32 f32)
  | reflect.Float64 => Some (floatCase float64 f64)
  | reflect.Complex64 => Some (complexCase complex64 c64)
  | reflect.Complex128 => Some (complexCase complex128 c128)
  | _ => None
  end.

Definition orElse {A : Type} (x y : option A) : option A :=
  match x with Some _ => x | None => y end.

(** operatorAdd implements the binary operation '+'. *)
Definition operatorAdd : environ -> Object -> Object -> heap -> result (Object * heap) :=
  binaryOperator "operatorAdd" "addition" (fun k =>
    match k with
    | reflect.String => Some stringCase
    | _ => orElse (integerCases addZ k)
             (floatingCases add32 add64 (cadd add32) (cadd add64) k)
    end).

(** operatorSubtract implements the binary operation '-'. *)
Definition operatorSubtract : environ -> Object -> Object -> heap -> result (Object * heap) :=
  binaryOperator "operatorSubtract" "subtraction" (fun k =>
    orElse (integerCases subZ k)
      (floatingCases sub32 sub64 (cadd sub32) (cadd sub64) k)).

(** operatorMultiply implements the binary operation '*'. *)
Definition operatorMultiply : environ -> Object -> Object -> heap -> result (Object * heap) :=
  binaryOperator "operatorMultiply" "multiplication" (fun k =>
    orElse (integerCases mulZ k)
      (floatingCases mul32 mul64 (complexMul 32) (complexMul 64) k)).

(** operatorQuotient implements the binary operation '/'. *)
Definition operatorQuotient : environ -> Object -> Object -> heap -> result (Object * heap) :=
  binaryOperator "operatorQuotient" "division" (fun k =>
    orElse (integerCases quoZ k)
      (floatingCases div32 div64 (complexDiv 32) (complexDiv 64) k)).

(** operatorRemainder implements the binary operation '%'. *)
Definition operatorRemainder : environ -> Object -> Object -> heap -> result (Object * heap) :=
  binaryOperator "operatorRemainder" "'%' operator" (integerCases remZ).

(** operatorAnd implements the binary operation '&'. *)
Definition operatorAnd : environ -> Object -> Object -> heap -> result (Object * heap) :=
  binaryOperator "operatorAnd" "'&' operator" (integerCases andZ).

(** operatorOr implements the binary operation '|'. *)
Definition operatorOr : environ -> Object -> Object -> heap -> result (Object * heap) :=
  binaryOperator "operatorOr" "'|' operator" (integerCases orZ).

(** operatorXor implements the binary operation '^'. *)
Definition operatorXor : environ -> Object -> Object -> heap -> result (Object * heap) :=
  binaryOperator "operatorXor" "'^' operator" (integerCases xorZ).

(** operatorAndNot implements the binary operation '&^'. *)
Definition operatorAndNot : environ -> Object -> Object -> heap -> result (Object * heap) :=
  binaryOperator "operatorAndNot" "'&^' operator" (integerCases andNotZ).

(** operatorShiftRight implements the binary operation '>>'. *)
Definition operatorShiftRight : environ -> Object -> Object -> heap -> result (Object * heap) :=
  shiftOperator "operatorShiftRight" (fun k =>
    match k with
    | reflect.Int => Some (signedShift intSize shrZ)
    | reflect.Int8 => Some (signedShift 8 shrZ)
    | reflect.Int16 => Some (signedShift 16 shrZ)
    | reflect.Int32 => Some (signedShift 32 shrZ)
    | reflect.Int64 => Some (signedShift 64 shrZ)
    | reflect.Uint => Some (unsignedShift intSize shrZ)
    | reflect.Uint8 => Some (unsignedShift 8 shrZ)
    | reflect.Uint16 => Some (unsignedShift 16 shrZ)
    | reflect.Uint32 => Some (unsignedShift 32 shrZ)
    | reflect.Uint64 => Some (unsignedShift 64 shrZ)
    | reflect.Uintptr => Some (unsignedShift intSize shrZ)
    | _ => None
    end).

(** operatorShiftLeft implements the binary operation '<<'. Its switch
    has no case for [reflect.Uint64]. *)
Definition operatorShiftLeft : environ -> Object -> Object -> heap -> result (Object * heap) :=
  shiftOperator "operatorShiftLeft" (fun k =>
    match k with
    | reflect.Int => Some (signedShift intSize shlZ)
    | reflect.Int8 => Some (signedShift 8 shlZ)
    | reflect.Int16 => Some (signedShift 16 shlZ)
    | reflect.Int32 => Some (signedShift 32 shlZ)
    | reflect.Int64 => Some (signedShift 64 shlZ)
    | reflect.Uint => Some (unsignedShift intSize shlZ)
    | reflect.Uint8 => Some (unsignedShift 8 shlZ)
    | reflect.Uint16 => Some (unsignedShift 16 shlZ)
    | reflect.Uint32 => Some (unsignedShift 32 shlZ)
    | reflect.Uintptr => Some (unsignedShift intSize shlZ)
    | _ => None
    end).

(** The end of the five comparison operators: the boolean [b] becomes an
    Object of the type [typ] of the expression. [alloc] is the allocation
    of the slot ([getSettableZeroVal] in [operatorLess],
    [reflect.New(newRtyp).Elem()] in the others). *)
Definition boolObject (fname : string)
    (alloc : reflect.rtype -> heap -> reflect.Value * heap)
    (env : environ) (typ : types.type) (b : bool) (h : heap)
    : result (Object * heap) :=
  if types.isNamed typ then
    (* Type is not "bool" but some other named boolean type. *)
    match getReflectType (typeMap (interp env)) typ with
    | None => Err (Fatal (fname ++ ": Couldn't get reflect.Type from types.Type"))
    | Some newRtyp =>
        let (newVal, h) := alloc newRtyp h in
        h <- Value_SetBool newVal b h ;;
        Ok ({| Value := ofReflect newVal; Typ := typ |}, h)
    end
  else
    (* Type is "bool" or "untyped bool". Use "bool". *)
    Ok ({| Value := ofReflect (reflect.ValueOf reflect.boolType (reflect.DBool b));
           Typ := typ |}, h).

(** The switch of the four ordered comparisons, for the order [zcmp] on
    integers, [fcmp] on floats and [scmp] on strings. *)
Definition ordered (zcmp : Z -> Z -> bool) (fcmp : float -> float -> bool)
    (scmp : string -> string -> bool)
    (left right : Object) (h : heap) : result bool :=
  left <- getTypedObject left ;;
  right <- getTypedObject right ;;
  lv <- toReflect (Value left) ;;
  rv <- toReflect (Value right) ;;
  match reflect.kind lv with
  | reflect.Int | reflect.Int8 | reflect.Int16 | reflect.Int32 | reflect.Int64 =>
      a <- Value_Int h lv ;; b <- Value_Int h rv ;; Ok (zcmp a b)
  | reflect.Uint | reflect.Uint8 | reflect.Uint16 | reflect.Uint32
  | reflect.Uint64 | reflect.Uintptr =>
      a <- Value_Uint h lv ;; b <- Value_Uint h rv ;; Ok (zcmp a b)
  | reflect.Float32 | reflect.Float64 =>
      a <- Value_Float h lv ;; b <- Value_Float h rv ;; Ok (fcmp a b)
  | reflect.String =>
      a <- Value_String h lv ;; b <- Value_String h rv ;; Ok (scmp a b)
  | _ => Err (TypeError "ordered comparison" (Typ left) (Typ right))
  end.

(** operatorLess implements the binary operation '<'. *)
Definition operatorLess (env : environ) (left right : Object)
    (typ : types.type) (h : heap) : result (Object * heap) :=
  less <- ordered Z.ltb SFltb String.ltb left right h ;;
  boolObject "operatorLess" getSettableZeroVal env typ less h.

(** operatorGreater implements the binary operation '>'. *)
Definition operatorGreater (env : environ) (left right : Object)
    (typ : types.type) (h : heap) : result (Object * heap) :=
  greater <- ordered Z.gtb (fun a b => SFltb b a)
               (fun a b => String.ltb b a) left right h ;;
  boolObject "operatorGreater" New_Elem env typ greater h.

(** operatorLessEqual implements the binary operation '<='. *)
Definition operatorLessEqual (env : environ) (left right : Object)
    (typ : types.type) (h : heap) : result (Object * heap) :=
  lessEqual <- ordered Z.leb SFleb String.leb left right h ;;
  boolObject "operatorLessEqual" New_Elem env typ lessEqual h.

(** operatorGreaterEqual implements the binary operation '>='. *)
Definition operatorGreaterEqual (env : environ) (left right : Object)
    (typ : types.type) (h : heap) : result (Object * heap) :=
  greaterEqual <- ordered Z.geb (fun a b => SFleb b a)
                    (fun a b => String.leb b a) left right h ;;
  boolObject "operatorGreaterEqual" New_Elem env typ greaterEqual h.

(** The closure [isUntypedNil] of [operatorEqual]. *)
Definition isUntypedNil (t : types.type) : result bool :=
  if isTyped t then Ok false
  else
    k <- toBasic (types.Underlying t) ;;
    if negb (types.BasicKind_eqb k types.UntypedNil) then Ok false
    else Ok true.

(** An operand of [operatorEqual]: nothing when its type is untyped nil,
    the normalized operand and its [reflect.Value] otherwise. *)
Definition equalOperand (o : Object) : result (option (Object * reflect.Value)) :=
  isNil <- isUntypedNil (Typ o) ;;
  if negb isNil then
    o <- getTypedObject o ;;
    v <- toReflect (Value o) ;;
    Ok (Some (o, v))
  else Ok None.

(** The [switch] of [operatorEqual]. *)
Definition equalValue (left right : Object) (h : heap) : result bool :=
  l <- equalOperand left ;;
  r <- equalOperand right ;;
  match l, r with
  | None, None => Ok true                   (* rightIsUntypedNil || ... *)
  | None, Some (_, rv) => Value_IsNil h rv
  | Some (_, lv), None => Value_IsNil h lv
  | Some (lo, lv), Some (ro, rv) =>
      if types.Identical (Typ lo) (Typ ro) then
        x <- Value_Interface h lv ;;
        y <- Value_Interface h rv ;;
        interface_eq x y
      else if AssignableTo (Typ lo) (Typ ro) then
        clv <- Convert h lv (reflect.typ rv) ;;
        x <- Value_Interface h clv ;;
        y <- Value_Interface h rv ;;
        interface_eq x y
      else
        crv <- Convert h rv (reflect.typ lv) ;;
        x <- Value_Interface h lv ;;
        y <- Value_Interface h crv ;;
        interface_eq x y
  end.

(** operatorEqual implements the binary operation '=='. *)
Definition operatorEqual (env : environ) (left right : Object)
    (typ : types.type) (h : heap) : result (Object * heap) :=
  equal <- equalValue left right h ;;
  boolObject "operatorEqual" New_Elem env typ equal h.

Definition doBinaryOp (env : environ) (left right : Object) (op : token.Token)
    (h : heap) : result (Object * heap) :=
  match op with
  | token.ADD => operatorAdd env left right h
  | token.SUB => operatorSubtract env left right h
  | token.MUL => operatorMultiply env left right h
  | token.QUO => operatorQuotient env left right h
  | token.REM => operatorRemainder env left right h
  | token.AND => operatorAnd env left right h
  | token.OR => operatorOr env left right h
  | token.XOR => operatorXor env left right h
  | token.AND_NOT => operatorAndNot env left right h
  | token.SHR => operatorShiftRight env left right h
  | token.SHL => operatorShiftLeft env left right h
  | _ => Err (Fatalf "Binary operator %v not implemented yet" op)
  end.

Definition doBinaryComparisonOp (env : environ) (left right : Object)
    (op : token.Token) (typ : types.type) (h : heap) : result (Object * heap) :=
  match op with
  | token.LSS => operatorLess env left right typ h
  | token.GTR => operatorGreater env left right typ h
  | token.LEQ => operatorLessEqual env left right typ h
  | token.GEQ => operatorGreaterEqual env left right typ h
  | token.EQL => operatorEqual env left right typ h
  | _ => Err (Fatalf "Binary comparison operator %v not implemented yet" op)
  end.

End Host.

(** ** A registry and objects to run the engine on *)

(** The storage type of a basic type. *)
Definition basicRtype (k : types.BasicKind) : option reflect.rtype :=
  let mk s k := Some {| reflect.String_ := s; reflect.Kind_ := k |} in
  match k with
  | types.Bool => mk "bool" reflect.Bool
  | types.Int => mk "int" reflect.Int
  | types.Int8 => mk "int8" reflect.Int8
  | types.Int16 => mk "int16" reflect.Int16
  | types.Int32 => mk "int32" reflect.Int32
  | types.Int64 => mk "int64" reflect.Int64
  | types.Uint => mk "uint" reflect.Uint
  | types.Uint8 => mk "uint8" reflect.Uint8
  | types.Uint16 => mk "uint16" reflect.Uint16
  | types.Uint32 => mk "uint32" reflect.Uint32
  | types.Uint64 => mk "uint64" reflect.Uint64
  | types.Uintptr => mk "uintptr" reflect.Uintptr
  | types.Float32 => mk "float32" reflect.Float32
  | types.Float64 => mk "float64" reflect.Float64
  | types.Complex64 => mk "complex64" reflect.Complex64
  | types.Complex128 => mk "complex128" reflect.Complex128
  | types.String => mk "string" reflect.String
  | _ => None
  end.

(** A registry: the basic types have their storage type, a named type with
    a basic underlying type has a storage type of its own name and of the
    kind of its underlying type, a pointer type has a storage type of kind
    [Ptr]. *)
Definition stdTypeMap (t : types.type) : option reflect.rtype :=
  match t with
  | types.Basic k => basicRtype k
  | types.Named n (types.Basic k) =>
      match basicRtype k with
      | Some rt => Some {| reflect.String_ := n; reflect.Kind_ := reflect.Kind_ rt |}
      | None => None
      end
  | types.Pointer _ => Some {| reflect.String_ := "*T"; reflect.Kind_ := reflect.Ptr |}
  | _ => None
  end.

Definition stdEnv : environ := {| interp := {| typeMap := stdTypeMap |} |}.

(** The Object of a basic type [k] that carries the datum [d]. *)
Definition basicObject (k : types.BasicKind) (d : reflect.data) : option Object :=
  match basicRtype k with
  | Some rt => Some {| Value := ofReflect (reflect.ValueOf rt d); Typ := types.Typ k |}
  | None => None
  end.

Definition int8Type : reflect.rtype :=
  {| reflect.String_ := "int8"; reflect.Kind_ := reflect.Int8 |}.
Definition uint8Type : reflect.rtype :=
  {| reflect.String_ := "uint8"; reflect.Kind_ := reflect.Uint8 |}.
Definition uintType : reflect.rtype :=
  {| reflect.String_ := "uint"; reflect.Kind_ := reflect.Uint |}.

Definition Int8 (z : Z) : Object :=
  {| Value := ofReflect (reflect.ValueOf int8Type (reflect.DInt z));
     Typ := types.Typ types.Int8 |}.
Definition Uint8 (z : Z) : Object :=
  {| Value := ofReflect (reflect.ValueOf uint8Type (reflect.DInt z));
     Typ := types.Typ types.Uint8 |}.
Definition Int32 (z : Z) : Object :=
  {| Value := ofReflect (reflect.ValueOf reflect.int32Type (reflect.DInt z));
     Typ := types.Typ types.Int32 |}.
Definition Int (z : Z) : Object :=
  {| Value := ofReflect (reflect.ValueOf reflect.intType (reflect.DInt z));
     Typ := types.Typ types.Int |}.
Definition Uint (z : Z) : Object :=
  {| Value := ofReflect (reflect.ValueOf uintType (reflect.DInt z));
     Typ := types.Typ types.Uint |}.
Definition Uint64 (z : Z) : Object :=
  {| Value := ofReflect (reflect.ValueOf reflect.uint64Type (reflect.DInt z));
     Typ := types.Typ types.Uint64 |}.
Definition Float64 (f : float) : Object :=
  {| Value := ofReflect (reflect.ValueOf reflect.float64Type (reflect.DFloat f));
     Typ := types.Typ types.Float64 |}.
Definition Complex128 (c : complex) : Object :=
  {| Value := ofReflect (reflect.ValueOf reflect.complex128Type (reflect.DComplex c));
     Typ := types.Typ types.Complex128 |}.

(** An untyped integer constant, and the untyped nil. *)
Definition untypedConstant (z : Z) : Object :=
  {| Value := ofExact (exact.IntV z); Typ := types.Typ types.UntypedInt |}.
Definition untypedNil : Object :=
  {| Value := ofNil; Typ := types.Typ types.UntypedNil |}.

(** A pointer of type [*T]: nil, or the address [p]. *)
Definition pointerType : reflect.rtype :=
  {| reflect.String_ := "*T"; reflect.Kind_ := reflect.Ptr |}.
Definition Pointer (p : option Z) : Object :=
  {| Value := ofReflect (reflect.ValueOf pointerType (reflect.DRef p));
     Typ := types.Pointer (types.Typ types.Int) |}.

(** A named boolean type, [type Flag bool]. *)
Definition Flag : types.type := types.Named "Flag" (types.Typ types.Bool).

(** ** What the design document says, in its own words *)

(** "[(a+b) mod 2^W] reinterpreted in K's signedness": the unsigned
    residue [u], read as a two's complement number when [K] is signed. *)
Definition reinterpret (K : reflect.Kind) (u : Z) : Z :=
  if reflect.isSigned K && (2 ^ (reflect.bits K - 1) <=? u)
  then u - 2 ^ reflect.bits K
  else u.

Definition isInteger (K : reflect.Kind) : bool :=
  reflect.isSigned K || reflect.isUnsigned K.

(** The bit [i] of the [W]-bit representation of a value of kind [K]. *)
Definition bit (K : reflect.Kind) (z : Z) (i : Z) : bool :=
  Z.testbit (z mod 2 ^ reflect.bits K) i.

(** ** The vocabulary of the properties *)

(** The slot that [New_Elem] and [getSettableZeroVal] return on [h]. *)
Definition fresh (t : reflect.rtype) (h : heap) : reflect.Value :=
  {| reflect.typ := t; reflect.ptr := reflect.Addr (length h) |}.

(** A case that, run on the slot just allocated, changes that slot only. *)
Definition fillsSlot (c : kindCase) : Prop :=
  forall lv rv t h z h',
    c lv rv (fresh t h) (h ++ [z])%list = Ok h' -> exists d, h' = (h ++ [d])%list.

Definition shiftFillsSlot (c : shiftCase) : Prop :=
  forall lv amt t h z h',
    c lv amt (fresh t h) (h ++ [z])%list = Ok h' -> exists d, h' = (h ++ [d])%list.

(** What a result of the operators is: an Object of the normalized left
    operand's type, whose value is the slot allocated at the end of the
    heap; the heap is the old one followed by that slot. *)
Definition freshResult (env : environ) (left : Object) (h : heap)
    (o : Object) (h' : heap) : Prop :=
  exists left' rt d,
    getTypedObject left = Ok left' /\
    typeMap (interp env) (Typ left') = Some rt /\
    o = {| Value := ofReflect (fresh rt h); Typ := Typ left' |} /\
    h' = (h ++ [d])%list.

(** The eleven arithmetic and bitwise operators. *)
Definition arithmeticOrBitwise (op : token.Token) : bool :=
  match op with
  | token.ADD | token.SUB | token.MUL | token.QUO | token.REM
  | token.AND | token.OR | token.XOR | token.AND_NOT
  | token.SHL | token.SHR => true
  | _ => false
  end.

(** What a call returns, when it returns. *)
Definition returned {A : Type} (r : result A) : option A :=
  match r with
  | Ok a => Some a
  | Err _ => None
  end.

(** The values a kind represents. *)
Definition representable (K : reflect.Kind) (z : Z) : Prop :=
  if reflect.isSigned K then inS (reflect.bits K) z else inU (reflect.bits K) z.

(** The boolean that a comparison operator computes before it builds its
    result: [less], [greater], [lessEqual], [greaterEqual], [equal]. *)
Definition comparisonValue (AssignableTo : types.type -> types.type -> bool)
    (Convert : heap -> reflect.Value -> reflect.rtype -> result reflect.Value)
    (op : token.Token) (left right : Object) (h : heap)
    : result bool :=
  match op with
  | token.LSS => ordered Z.ltb SFltb String.ltb left right h
  | token.GTR => ordered Z.gtb (fun a b => SFltb b a) (fun a b => String.ltb b a) left right h
  | token.LEQ => ordered Z.leb SFleb String.leb left right h
  | token.GEQ => ordered Z.geb (fun a b => SFleb b a) (fun a b => String.leb b a) left right h
  | token.EQL => equalValue AssignableTo Convert left right h
  | _ => Err (Fatalf "Binary comparison operator %v not implemented yet" op)
  end.

(** A reference in its nil state. *)
Definition isNilRef (p : option Z) : bool :=
  match p with None => true | Some _ => false end.

Definition NaN : float := S754_nan.

(** A float that is a NaN, or a complex number with a NaN part. *)
Definition hasNaN (d : reflect.data) : bool :=
  match d with
  | reflect.DFloat f => isNaN f
  | reflect.DComplex c => isNaN (fst c) || isNaN (snd c)
  | _ => false
  end.

(** Host operations to run the engine with: the textbook product of two
    complex numbers, a quotient that is not computed, an assignability that
    holds of identical types only and a conversion that keeps the value. *)
Definition sampleMul (w : Z) (x y : complex) : complex :=
  let mul := if w =? 32 then mul32 else mul64 in
  let add := if w =? 32 then add32 else add64 in
  let sub := if w =? 32 then sub32 else sub64 in
  (sub (mul (fst x) (fst y)) (mul (snd x) (snd y)),
   add (mul (fst x) (snd y)) (mul (snd x) (fst y))).
Definition sampleDiv (w : Z) (x y : complex) : complex := (NaN, NaN).
Definition sampleAssignableTo (x y : types.type) : bool := types.Identical x y.
Definition sampleConvert (h : heap) (v : reflect.Value) (t : reflect.rtype)
    : result reflect.Value :=
  d <- load h v ;; Ok (reflect.ValueOf t d).

(** ** The assignment operators *)

(** The tokens of the assignment operations ([op=]) of go/token, the keys
    of [assignOps]. *)
Inductive assignToken :=
| ADD_ASSIGN | SUB_ASSIGN | MUL_ASSIGN | QUO_ASSIGN | REM_ASSIGN
| AND_ASSIGN | AND_NOT_ASSIGN | OR_ASSIGN | SHL_ASSIGN | SHR_ASSIGN
| XOR_ASSIGN.

(** Map from assignment operation token (op=) to operator (op): the
    entries of the map literal, in its order. *)
Definition assignOps : list (assignToken * token.Token) :=
  [ (* Arithmetic *)
    (ADD_ASSIGN, token.ADD);
    (SUB_ASSIGN, token.SUB);
    (MUL_ASSIGN, token.MUL);
    (QUO_ASSIGN, token.QUO);
    (REM_ASSIGN, token.REM);
    (* Bitwise *)
    (AND_ASSIGN, token.AND);
    (AND_NOT_ASSIGN, token.AND_NOT);
    (OR_ASSIGN, token.OR);
    (SHL_ASSIGN, token.SHL);
    (SHR_ASSIGN, token.SHR);
    (XOR_ASSIGN, token.XOR) ]%list.

Definition assignToken_eqb (a b : assignToken) : bool :=
  match a, b with
  | ADD_ASSIGN, ADD_ASSIGN | SUB_ASSIGN, SUB_ASSIGN | MUL_ASSIGN, MUL_ASSIGN
  | QUO_ASSIGN, QUO_ASSIGN | REM_ASSIGN, REM_ASSIGN | AND_ASSIGN, AND_ASSIGN
  | AND_NOT_ASSIGN, AND_NOT_ASSIGN | OR_ASSIGN, OR_ASSIGN
  | SHL_ASSIGN, SHL_ASSIGN | SHR_ASSIGN, SHR_ASSIGN
  | XOR_ASSIGN, XOR_ASSIGN => true
  | _, _ => false
  end.

(** The lookup [m[k]] with its presence flag. *)
Fixpoint mapLookup (m : list (assignToken * token.Token)) (k : assignToken)
    : option token.Token :=
  match m with
  | nil => None
  | (k', v) :: m' => if assignToken_eqb k k' then Some v else mapLookup m' k
  end.

(** ** More vocabulary of the properties *)

(** The operation on the integers that an operator computes at the width
    of its operands. *)
Definition integerOperation (op : token.Token) : option (Z -> Z -> Z) :=
  match op with
  | token.ADD => Some Z.add
  | token.SUB => Some Z.sub
  | token.MUL => Some Z.mul
  | token.AND => Some Z.land
  | token.OR => Some Z.lor
  | token.XOR => Some Z.lxor
  | token.AND_NOT => Some Z.ldiff
  | _ => None
  end.

(** The operation on one bit of the four bitwise operators. *)
Definition bitOperation (op : token.Token) : option (bool -> bool -> bool) :=
  match op with
  | token.AND => Some andb
  | token.OR => Some orb
  | token.XOR => Some xorb
  | token.AND_NOT => Some (fun x y => x && negb y)
  | _ => None
  end.

(** The names an operator gives in its faults: the name of its function,
    in the message of [log.Fatal], and the name of the operation, in the
    message of its panic. *)
Definition functionName (op : token.Token) : string :=
  match op with
  | token.ADD => "operatorAdd"
  | token.SUB => "operatorSubtract"
  | token.MUL => "operatorMultiply"
  | token.QUO => "operatorQuotient"
  | token.REM => "operatorRemainder"
  | token.AND => "operatorAnd"
  | token.OR => "operatorOr"
  | token.XOR => "operatorXor"
  | token.AND_NOT => "operatorAndNot"
  | token.SHR => "operatorShiftRight"
  | token.SHL => "operatorShiftLeft"
  | token.LSS => "operatorLess"
  | token.GTR => "operatorGreater"
  | token.LEQ => "operatorLessEqual"
  | token.GEQ => "operatorGreaterEqual"
  | token.EQL => "operatorEqual"
  | _ => ""
  end.

Definition operationName (op : token.Token) : string :=
  match op with
  | token.ADD => "addition"
  | token.SUB => "subtraction"
  | token.MUL => "multiplication"
  | token.QUO => "division"
  | token.REM => "'%' operator"
  | token.AND => "'&' operator"
  | token.OR => "'|' operator"
  | token.XOR => "'^' operator"
  | token.AND_NOT => "'&^' operator"
  | token.SHR | token.SHL => "shift"
  | _ => ""
  end.

(** The five comparison operators. *)
Definition comparison (op : token.Token) : bool :=
  match op with
  | token.LSS | token.GTR | token.LEQ | token.GEQ | token.EQL => true
  | _ => false
  end.

(** A typed operand: an Object of a typed type whose value is the
    [reflect.Value] [v], of kind [K], holding the datum [d] in [h]. *)
Definition operand (h : heap) (o : Object) (v : reflect.Value)
    (K : reflect.Kind) (d : reflect.data) : Prop :=
  isTyped (Typ o) = true /\ Value o = ofReflect v /\
  reflect.kind v = K /\ load h v = Ok d.

(** The kinds of the floats and of the complex numbers. *)
Definition isFloat (K : reflect.Kind) : bool :=
  match K with reflect.Float32 | reflect.Float64 => true | _ => false end.

(** An operation on the integers whose result modulo [2^w] depends on its
    arguments modulo [2^w] only. *)
Definition respectsMod (f : Z -> Z -> Z) : Prop :=
  forall w a a' b b', 0 < w ->
    a mod 2 ^ w = a' mod 2 ^ w -> b mod 2 ^ w = b' mod 2 ^ w ->
    f a b mod 2 ^ w = f a' b' mod 2 ^ w.

(** The default type of an untyped constant kind. *)
Definition defaultKind (k : types.BasicKind) : option types.BasicKind :=
  match k with
  | types.UntypedBool => Some types.Bool
  | types.UntypedInt => Some types.Int
  | types.UntypedRune => Some types.Rune
  | types.UntypedFloat => Some types.Float64
  | types.UntypedComplex => Some types.Complex128
  | types.UntypedString => Some types.String
  | _ => None
  end.

(** A datum that a slot of kind [K] can hold. *)
Definition fits (K : reflect.Kind) (d : reflect.data) : Prop :=
  match d with
  | reflect.DBool _ => K = reflect.Bool
  | reflect.DInt z => isInteger K = true /\ representable K z
  | reflect.DFloat _ => isFloat K = true
  | reflect.DComplex _ => K = reflect.Complex64 \/ K = reflect.Complex128
  | reflect.DString _ => K = reflect.String
  | reflect.DRef _ => reflect.isReference K = true
  end.

(** The Object invariant of a typed Object of a basic type: its value is a
    [reflect.Value] of the storage type of that type, which carries a datum
    of the kind. *)
Definition basicInvariant (o : Object) : Prop :=
  exists k rt d,
    Typ o = types.Typ k /\ types.isUntyped k = false /\
    basicRtype k = Some rt /\
    Value o = ofReflect (reflect.ValueOf rt d) /\
    fits (reflect.Kind_ rt) d.

(** The panics of the libraries and of the run time, as opposed to the
    faults that the engine raises itself. *)
Definition raisedBelow (f : fault) : bool :=
  match f with
  | ValueError _ _ | NotAssignable _ | ExactPanic _ | RuntimeError _ => true
  | _ => false
  end.

Definition isComplex (K : reflect.Kind) : bool :=
  match K with reflect.Complex64 | reflect.Complex128 => true | _ => false end.

(** The kinds of left operand that the switch of an operator has a case
    for. *)
Definition accepts (op : token.Token) (K : reflect.Kind) : bool :=
  match op with
  | token.ADD =>
      isInteger K || isFloat K || isComplex K || reflect.Kind_eqb K reflect.String
  | token.SUB | token.MUL | token.QUO => isInteger K || isFloat K || isComplex K
  | token.REM | token.AND | token.OR | token.XOR | token.AND_NOT | token.SHR =>
      isInteger K
  | token.SHL => isInteger K && negb (reflect.Kind_eqb K reflect.Uint64)
  | _ => false
  end.

(** A case whose faults are panics of the libraries or of the run time. *)
Definition faultsBelow (c : kindCase) : Prop :=
  forall lv rv newVal h f, c lv rv newVal h = Err f -> raisedBelow f = true.

Definition shiftFaultsBelow (c : shiftCase) : Prop :=
  forall lv amt newVal h f, c lv amt newVal h = Err f -> raisedBelow f = true.

(** An operand of [Equal]: the untyped nil, or a typed [reflect.Value]. *)
Definition nilOrTyped (o : Object) : Prop :=
  Typ o = types.Typ types.UntypedNil \/
  (isTyped (Typ o) = true /\ exists v, Value o = ofReflect v).

(** The nine operators whose two operands are read with the same accessor
    (all but the shifts), with the operation of the machine type. *)
Definition machineOperation (op : token.Token) : option (Z -> Z -> result Z) :=
  match op with
  | token.ADD => Some addZ
  | token.SUB => Some subZ
  | token.MUL => Some mulZ
  | token.QUO => Some quoZ
  | token.REM => Some remZ
  | token.AND => Some andZ
  | token.OR => Some orZ
  | token.XOR => Some xorZ
  | token.AND_NOT => Some andNotZ
  | _ => None
  end.

(** An Object of a type that the registry [stdTypeMap] has no storage type
    for. *)
Definition unregistered (z : Z) : Object :=
  {| Value := ofReflect (reflect.ValueOf reflect.intType (reflect.DInt z));
     Typ := types.Slice (types.Typ types.Int) |}.

(** A named type that is not boolean, [type Celsius int], and a named
    type without a storage type in [stdTypeMap]. *)
Definition Celsius : types.type := types.Named "Celsius" (types.Typ types.Int).
Definition Unstored : types.type :=
  types.Named "Unstored" (types.Slice (types.Typ types.Bool)).

Definition Bool (b : bool) : Object :=
  {| Value := ofReflect (reflect.ValueOf reflect.boolType (reflect.DBool b));
     Typ := types.Typ types.Bool |}.
Definition Str (s : string) : Object :=
  {| Value := ofReflect (reflect.ValueOf reflect.stringType (reflect.DString s));
     Typ := types.Typ types.String |}.

(** * Properties *)

Local Open Scope list_scope.

(** ** Fixed-width integers *)

Lemma pow2_half (w : Z) : 0 < w -> 2 ^ w = 2 * 2 ^ (w - 1).
Proof.
  intros Hw. replace w with (Z.succ (w - 1)) at 1 by lia.
  rewrite Z.pow_succ_r by lia. reflexivity.
Qed.

Lemma wrapS_range (w z : Z) : 0 < w -> inS w (wrapS w z).
Proof.
  intros Hw. unfold inS, wrapS.
  pose proof (pow2_half w Hw) as E.
  assert (0 < 2 ^ (w - 1)) by (apply Z.pow_pos_nonneg; lia).
  pose proof (Z.mod_pos_bound (z + 2 ^ (w - 1)) (2 ^ w)). lia.
Qed.

Lemma wrapS_small (w z : Z) : 0 < w -> inS w z -> wrapS w z = z.
Proof.
  intros Hw [H1 H2]. unfold wrapS.
  pose proof (pow2_half w Hw) as E.
  rewrite Z.mod_small by lia. lia.
Qed.

Lemma wrapU_range (w z : Z) : 0 <= w -> inU w (wrapU w z).
Proof.
  intros Hw. unfold inU, wrapU. apply Z.mod_pos_bound.
  apply Z.pow_pos_nonneg; lia.
Qed.

Lemma wrapU_small (w z : Z) : inU w z -> wrapU w z = z.
Proof. intros H. unfold wrapU. apply Z.mod_small. exact H. Qed.

Lemma wrapS_mod (w z : Z) : 0 < w -> wrapS w z mod 2 ^ w = z mod 2 ^ w.
Proof.
  intros Hw. unfold wrapS.
  assert (0 < 2 ^ w) by (apply Z.pow_pos_nonneg; lia).
  rewrite Zminus_mod, Zmod_mod, <- Zminus_mod. f_equal. lia.
Qed.

Lemma wrapS_congr (w a b : Z) : a mod 2 ^ w = b mod 2 ^ w -> wrapS w a = wrapS w b.
Proof.
  intros E. unfold wrapS.
  rewrite (Zplus_mod a), (Zplus_mod b), E. reflexivity.
Qed.

Lemma inS_weaken (w w' z : Z) : 0 < w <= w' -> inS w z -> inS w' z.
Proof.
  intros Hw [H1 H2]. unfold inS.
  assert (2 ^ (w - 1) <= 2 ^ (w' - 1)) by (apply Z.pow_le_mono_r; lia). lia.
Qed.

Lemma inU_weaken (w w' z : Z) : 0 <= w <= w' -> inU w z -> inU w' z.
Proof.
  intros Hw [H1 H2]. unfold inU.
  assert (2 ^ w <= 2 ^ w') by (apply Z.pow_le_mono_r; lia). lia.
Qed.

(** [int64(x)] of a narrower signed [x] is [x]. *)
Lemma wrapS_wrapS (w w' z : Z) : 0 < w <= w' -> wrapS w' (wrapS w z) = wrapS w z.
Proof.
  intros Hw. apply wrapS_small; [lia|].
  apply (inS_weaken w); [lia|]. apply wrapS_range. lia.
Qed.

Lemma wrapU_wrapU (w w' z : Z) : 0 <= w <= w' -> wrapU w' (wrapU w z) = wrapU w z.
Proof.
  intros Hw. apply wrapU_small.
  apply (inU_weaken w); [lia|]. apply wrapU_range. lia.
Qed.

Lemma wrapS_add (w a b : Z) :
  0 < w -> wrapS w (wrapS w a + wrapS w b) = wrapS w (a + b).
Proof.
  intros Hw. apply wrapS_congr.
  rewrite Zplus_mod, !wrapS_mod, <- Zplus_mod by lia. reflexivity.
Qed.

Lemma wrapU_add (w a b : Z) : wrapU w (wrapU w a + wrapU w b) = wrapU w (a + b).
Proof. unfold wrapU. rewrite <- Zplus_mod. reflexivity. Qed.

(** The two's complement reading of the residue is [wrapS]. *)
Lemma wrapS_reinterpret (w z : Z) :
  0 < w ->
  wrapS w z = if 2 ^ (w - 1) <=? z mod 2 ^ w then z mod 2 ^ w - 2 ^ w else z mod 2 ^ w.
Proof.
  intros Hw. pose proof (pow2_half w Hw) as E.
  assert (0 < 2 ^ (w - 1)) by (apply Z.pow_pos_nonneg; lia).
  pose proof (Z.mod_pos_bound z (2 ^ w)) as B.
  destruct (Z.leb_spec (2 ^ (w - 1)) (z mod 2 ^ w)).
  - rewrite <- (wrapS_congr w (z mod 2 ^ w - 2 ^ w) z).
    + apply wrapS_small; [lia|]. unfold inS. lia.
    + rewrite Zminus_mod, Z_mod_same_full, Z.sub_0_r, !Zmod_mod. reflexivity.
  - rewrite <- (wrapS_congr w (z mod 2 ^ w) z).
    + apply wrapS_small; [lia|]. unfold inS. lia.
    + apply Zmod_mod.
Qed.

(** ** The heap *)

Lemma load_app (h : heap) (v : reflect.Value) (d z : reflect.data) :
  load h v = Ok d -> load (h ++ [z]) v = Ok d.
Proof.
  unfold load. destruct (reflect.ptr v) as [d'|a]; [tauto|].
  destruct (h !! a) as [d'|] eqn:E; [|discriminate].
  intros H. rewrite lookup_app_l by (eapply lookup_lt_Some; eassumption).
  rewrite E. exact H.
Qed.

Lemma store_fresh (m : string) (t : reflect.rtype) (d z : reflect.data) (h : heap) :
  store m (fresh t h) d (h ++ [z]) = Ok (h ++ [d]).
Proof.
  unfold store, fresh. cbn [reflect.ptr].
  rewrite decide_True by (rewrite length_app; cbn; lia).
  rewrite insert_app_r_alt by lia.
  replace (length h - length h)%nat with 0%nat by lia. reflexivity.
Qed.

Lemma store_inv (m : string) (t : reflect.rtype) (d z : reflect.data) (h h' : heap) :
  store m (fresh t h) d (h ++ [z]) = Ok h' -> h' = h ++ [d].
Proof. rewrite store_fresh. congruence. Qed.

Lemma Value_Int_load (h : heap) (v : reflect.Value) (z : Z) :
  reflect.isSigned (reflect.kind v) = true ->
  load h v = Ok (reflect.DInt z) -> Value_Int h v = Ok z.
Proof. intros Hk Hl. unfold Value_Int. rewrite Hk, Hl. reflexivity. Qed.

Lemma Value_Uint_load (h : heap) (v : reflect.Value) (z : Z) :
  reflect.isUnsigned (reflect.kind v) = true ->
  load h v = Ok (reflect.DInt z) -> Value_Uint h v = Ok z.
Proof. intros Hk Hl. unfold Value_Uint. rewrite Hk, Hl. reflexivity. Qed.

Lemma Value_SetInt_fresh (t : reflect.rtype) (x : Z) (z : reflect.data) (h : heap) :
  reflect.isSigned (reflect.Kind_ t) = true ->
  Value_SetInt (fresh t h) x (h ++ [z])
  = Ok (h ++ [reflect.DInt (wrapS (reflect.bits (reflect.Kind_ t)) x)]).
Proof.
  intros Hk. unfold Value_SetInt, reflect.kind, fresh. cbn [reflect.ptr reflect.typ].
  rewrite Hk. apply (store_fresh _ t).
Qed.

Lemma Value_SetUint_fresh (t : reflect.rtype) (x : Z) (z : reflect.data) (h : heap) :
  reflect.isUnsigned (reflect.Kind_ t) = true ->
  Value_SetUint (fresh t h) x (h ++ [z])
  = Ok (h ++ [reflect.DInt (wrapU (reflect.bits (reflect.Kind_ t)) x)]).
Proof.
  intros Hk. unfold Value_SetUint, reflect.kind, fresh. cbn [reflect.ptr reflect.typ].
  rewrite Hk. apply (store_fresh _ t).
Qed.

Lemma Value_SetBool_fresh (t : reflect.rtype) (x : bool) (z : reflect.data) (h : heap) :
  reflect.Kind_ t = reflect.Bool ->
  Value_SetBool (fresh t h) x (h ++ [z]) = Ok (h ++ [reflect.DBool x]).
Proof.
  intros Hk. unfold Value_SetBool, reflect.kind, fresh. cbn [reflect.ptr reflect.typ].
  rewrite Hk. apply (store_fresh _ t).
Qed.

(** Every setter, on the fresh slot, changes that slot and no other. *)
Lemma setters_fresh (t : reflect.rtype) (z : reflect.data) (h h' : heap) :
  (exists x, Value_SetInt (fresh t h) x (h ++ [z]) = Ok h') \/
  (exists x, Value_SetUint (fresh t h) x (h ++ [z]) = Ok h') \/
  (exists x, Value_SetFloat (fresh t h) x (h ++ [z]) = Ok h') \/
  (exists x, Value_SetComplex (fresh t h) x (h ++ [z]) = Ok h') \/
  (exists x, Value_SetString (fresh t h) x (h ++ [z]) = Ok h') \/
  (exists x, Value_SetBool (fresh t h) x (h ++ [z]) = Ok h') ->
  exists d, h' = h ++ [d].
Proof.
  unfold Value_SetInt, Value_SetUint, Value_SetFloat, Value_SetComplex,
    Value_SetString, Value_SetBool, reflect.kind, fresh.
  cbn [reflect.ptr reflect.typ]. fold (fresh t h).
  intros H.
  repeat (destruct H as [H|H]); destruct H as [x H];
    repeat match type of H with
      | (if ?c then _ else _) = _ => destruct c; try discriminate
      | match ?k with _ => _ end = _ => destruct k; try discriminate
      end;
    apply store_inv in H; eauto.
Qed.

(** ** The normalizer on typed objects *)

Lemma getTypedObject_typed (obj : Object) :
  isTyped (Typ obj) = true -> getTypedObject obj = Ok obj.
Proof. intros H. unfold getTypedObject. rewrite H. reflexivity. Qed.

(** The normalizer returns a typed object, or its argument. *)
Lemma getTypedObject_inv (obj obj' : Object) :
  getTypedObject obj = Ok obj' ->
  obj' = obj \/ isTyped (Typ obj') = true.
Proof.
  unfold getTypedObject. destruct (isTyped (Typ obj)) eqn:E.
  - intros [= <-]. now left.
  - destruct (toBasic _) as [k|]; cbn [bind]; [|discriminate].
    destruct (toExact _) as [ev|]; cbn [bind]; [|discriminate].
    destruct k; try (intros [= <-]; now left); try discriminate;
      repeat match goal with
        | |- bind ?e _ = _ -> _ => destruct e; cbn [bind]; try discriminate
        end;
      intros [= <-]; right; reflexivity.
Qed.

(** ** The arithmetic and bitwise operators *)

Lemma bits_integer (K : reflect.Kind) : isInteger K = true -> 0 < reflect.bits K <= 64.
Proof. destruct K; cbn; intros; try discriminate; unfold intSize; lia. Qed.

Lemma wrapS_as_reinterpret (K : reflect.Kind) (z : Z) :
  reflect.isSigned K = true ->
  wrapS (reflect.bits K) z = reinterpret K (z mod 2 ^ reflect.bits K).
Proof.
  intros HK. unfold reinterpret. rewrite HK. cbn [andb].
  apply wrapS_reinterpret. apply bits_integer. unfold isInteger. now rewrite HK.
Qed.

Lemma wrapU_as_reinterpret (K : reflect.Kind) (z : Z) :
  reflect.isUnsigned K = true ->
  wrapU (reflect.bits K) z = reinterpret K (z mod 2 ^ reflect.bits K).
Proof.
  intros HK. unfold reinterpret.
  replace (reflect.isSigned K) with false by (destruct K; cbn in *; congruence).
  reflexivity.
Qed.

Lemma integerCases_signed (op : Z -> Z -> result Z) (K : reflect.Kind) :
  reflect.isSigned K = true ->
  integerCases op K = Some (signedCase (reflect.bits K) op).
Proof. destruct K; cbn; intros; try discriminate; reflexivity. Qed.

Lemma integerCases_unsigned (op : Z -> Z -> result Z) (K : reflect.Kind) :
  reflect.isUnsigned K = true ->
  integerCases op K = Some (unsignedCase (reflect.bits K) op).
Proof. destruct K; cbn; intros; try discriminate; reflexivity. Qed.

Lemma integerCases_other (op : Z -> Z -> result Z) (K : reflect.Kind) :
  isInteger K = false -> integerCases op K = None.
Proof. destruct K; cbn; intros; try discriminate; reflexivity. Qed.

(** The operator on two typed operands: the slot is allocated, then the
    case of the left operand's kind runs. *)
Lemma binaryOperator_typed (fname operation : string)
    (cases : reflect.Kind -> option kindCase) (env : environ)
    (left right : Object) (lv rv : reflect.Value) (rt : reflect.rtype) (h : heap) :
  isTyped (Typ left) = true -> isTyped (Typ right) = true ->
  Value left = ofReflect lv -> Value right = ofReflect rv ->
  typeMap (interp env) (Typ left) = Some rt ->
  binaryOperator fname operation cases env left right h =
  match cases (reflect.kind lv) with
  | Some case =>
      h' <- case lv rv (fresh rt h) (h ++ [reflect.zero (reflect.Kind_ rt)]) ;;
      Ok ({| Value := ofReflect (fresh rt h); Typ := Typ left |}, h')
  | None => Err (TypeError operation (Typ left) (Typ right))
  end.
Proof.
  intros Hl Hr Hlv Hrv Hrt. unfold binaryOperator.
  rewrite (getTypedObject_typed _ Hl), (getTypedObject_typed _ Hr). cbn [bind].
  rewrite Hlv, Hrv. cbn [toReflect bind]. unfold getReflectType. rewrite Hrt.
  reflexivity.
Qed.

(** A case on signed integers, when the operands and the slot are signed. *)
Lemma signedCase_run (w : Z) (op : Z -> Z -> result Z) (lv rv : reflect.Value)
    (rt : reflect.rtype) (a b : Z) (z : reflect.data) (h : heap) :
  reflect.isSigned (reflect.kind lv) = true ->
  reflect.isSigned (reflect.kind rv) = true ->
  reflect.isSigned (reflect.Kind_ rt) = true ->
  load h lv = Ok (reflect.DInt a) -> load h rv = Ok (reflect.DInt b) ->
  signedCase w op lv rv (fresh rt h) (h ++ [z]) =
  (r <- op (wrapS w a) (wrapS w b) ;;
   Ok (h ++ [reflect.DInt (wrapS (reflect.bits (reflect.Kind_ rt)) (wrapS 64 (wrapS w r)))])).
Proof.
  intros Hl Hr Ht La Lb. unfold signedCase.
  rewrite (Value_Int_load _ _ a Hl (load_app _ _ _ z La)).
  rewrite (Value_Int_load _ _ b Hr (load_app _ _ _ z Lb)). cbn [bind].
  destruct (op _ _); cbn [bind]; [|reflexivity].
  apply Value_SetInt_fresh, Ht.
Qed.

Lemma unsignedCase_run (w : Z) (op : Z -> Z -> result Z) (lv rv : reflect.Value)
    (rt : reflect.rtype) (a b : Z) (z : reflect.data) (h : heap) :
  reflect.isUnsigned (reflect.kind lv) = true ->
  reflect.isUnsigned (reflect.kind rv) = true ->
  reflect.isUnsigned (reflect.Kind_ rt) = true ->
  load h lv = Ok (reflect.DInt a) -> load h rv = Ok (reflect.DInt b) ->
  unsignedCase w op lv rv (fresh rt h) (h ++ [z]) =
  (r <- op (wrapU w a) (wrapU w b) ;;
   Ok (h ++ [reflect.DInt (wrapU (reflect.bits (reflect.Kind_ rt)) (wrapU 64 (wrapU w r)))])).
Proof.
  intros Hl Hr Ht La Lb. unfold unsignedCase.
  rewrite (Value_Uint_load _ _ a Hl (load_app _ _ _ z La)).
  rewrite (Value_Uint_load _ _ b Hr (load_app _ _ _ z Lb)). cbn [bind].
  destruct (op _ _); cbn [bind]; [|reflexivity].
  apply Value_SetUint_fresh, Ht.
Qed.

Lemma operatorAdd_integer (k : reflect.Kind) :
  isInteger k = true ->
  match k with
  | reflect.String => Some stringCase
  | _ => orElse (integerCases addZ k)
           (floatingCases add32 add64 (cadd add32) (cadd add64) k)
  end = integerCases addZ k.
Proof. destruct k; cbn; intros; try discriminate; reflexivity. Qed.

(** C1. For an integer kind [K] of [W] bits, [Add] of two objects of kind [K]
    that hold [a] and [b] returns [(a+b) mod 2^W] read in the signedness of
    [K], in a new slot of the left operand's storage type. The sum is
    brought to the width of [K] before it is stored: a slot of another
    width receives the [W]-bit sum, converted. [Add(Int8(120), Int8(10))]
    is [Int8(-126)]. *)
Theorem add_wraparound (env : environ) (left right : Object)
    (lv rv : reflect.Value) (rt : reflect.rtype) (K : reflect.Kind)
    (a b : Z) (h : heap) :
  isInteger K = true ->
  isTyped (Typ left) = true -> isTyped (Typ right) = true ->
  Value left = ofReflect lv -> Value right = ofReflect rv ->
  reflect.kind lv = K -> reflect.kind rv = K ->
  load h lv = Ok (reflect.DInt a) -> load h rv = Ok (reflect.DInt b) ->
  typeMap (interp env) (Typ left) = Some rt ->
  isInteger (reflect.Kind_ rt) = true ->
  reflect.isSigned (reflect.Kind_ rt) = reflect.isSigned K ->
  let sum := reinterpret K ((a + b) mod 2 ^ reflect.bits K) in
  let K' := reflect.Kind_ rt in
  operatorAdd env left right h
  = Ok ({| Value := ofReflect (fresh rt h); Typ := Typ left |},
        h ++ [reflect.DInt (reinterpret K' (sum mod 2 ^ reflect.bits K'))])
  /\ (K' = K -> reinterpret K' (sum mod 2 ^ reflect.bits K') = sum)
  /\ operatorAdd stdEnv (Int8 120) (Int8 10) []
     = Ok ({| Value := ofReflect (fresh int8Type []); Typ := types.Typ types.Int8 |},
           [reflect.DInt (-126)]).
Proof.
  intros HK Hl Hr Hlv Hrv Klv Krv La Lb Hrt HK' Hsg. cbv zeta.
  pose proof (bits_integer K HK) as HW.
  split; [|split; [|reflexivity]].
  - unfold operatorAdd.
    rewrite (binaryOperator_typed _ _ _ env left right lv rv rt h Hl Hr Hlv Hrv Hrt).
    rewrite Klv, (operatorAdd_integer K HK).
    destruct (reflect.isSigned K) eqn:Sg.
    + rewrite (integerCases_signed _ K Sg).
      rewrite (signedCase_run _ _ lv rv rt a b) by congruence.
      unfold addZ. cbn [bind]. do 3 f_equal. do 3 f_equal.
      rewrite (wrapS_wrapS (reflect.bits K) 64), wrapS_add by lia.
      rewrite (wrapS_as_reinterpret _ _ Hsg). f_equal. f_equal.
      apply wrapS_as_reinterpret, Sg.
    + assert (Us : reflect.isUnsigned K = true)
        by (unfold isInteger in HK; rewrite Sg in HK; exact HK).
      assert (Us' : reflect.isUnsigned (reflect.Kind_ rt) = true)
        by (unfold isInteger in HK'; rewrite Hsg in HK'; exact HK').
      rewrite (integerCases_unsigned _ K Us).
      rewrite (unsignedCase_run _ _ lv rv rt a b) by congruence.
      unfold addZ. cbn [bind]. do 3 f_equal. do 3 f_equal.
      rewrite (wrapU_wrapU (reflect.bits K) 64), wrapU_add by lia.
      rewrite (wrapU_as_reinterpret _ _ Us'). f_equal. f_equal.
      apply wrapU_as_reinterpret, Us.
  - intros ->.
    destruct (reflect.isSigned K) eqn:Sg.
    + rewrite <- !wrapS_as_reinterpret by exact Sg.
      apply wrapS_small; [lia|]. apply wrapS_range. lia.
    + assert (Us : reflect.isUnsigned K = true)
        by (unfold isInteger in HK; rewrite Sg in HK; exact HK).
      rewrite <- !wrapU_as_reinterpret by exact Us.
      apply wrapU_small. apply wrapU_range. lia.
Qed.

Lemma operatorQuotient_integer (cdiv : Z -> complex -> complex -> complex)
    (k : reflect.Kind) :
  isInteger k = true ->
  orElse (integerCases quoZ k)
    (floatingCases div32 div64 (cdiv 32) (cdiv 64) k) = integerCases quoZ k.
Proof. destruct k; cbn; intros; try discriminate; reflexivity. Qed.

(** An integer case whose operation faults on the operands faults. *)
Lemma integerCases_fault (op : Z -> Z -> result Z) (K : reflect.Kind)
    (lv rv newVal : reflect.Value) (a b : Z) (f : fault) (h : heap) :
  isInteger K = true ->
  reflect.kind lv = K -> reflect.kind rv = K ->
  load h lv = Ok (reflect.DInt a) -> load h rv = Ok (reflect.DInt b) ->
  (forall w, 0 < w -> op (wrapS w a) (wrapS w b) = Err f) ->
  (forall w, 0 < w -> op (wrapU w a) (wrapU w b) = Err f) ->
  exists case, integerCases op K = Some case /\ case lv rv newVal h = Err f.
Proof.
  intros HK Klv Krv La Lb HS HU. pose proof (bits_integer K HK) as HW.
  destruct (reflect.isSigned K) eqn:Sg.
  - eexists. split; [apply integerCases_signed, Sg|].
    unfold signedCase.
    rewrite (Value_Int_load h lv a), (Value_Int_load h rv b) by congruence.
    cbn [bind]. rewrite HS by lia. reflexivity.
  - assert (Us : reflect.isUnsigned K = true)
      by (unfold isInteger in HK; rewrite Sg in HK; exact HK).
    eexists. split; [apply integerCases_unsigned, Us|].
    unfold unsignedCase.
    rewrite (Value_Uint_load h lv a), (Value_Uint_load h rv b) by congruence.
    cbn [bind]. rewrite HU by lia. reflexivity.
Qed.

Lemma wrapS_0 (w : Z) : 0 < w -> wrapS w 0 = 0.
Proof.
  intros Hw. apply wrapS_small; [exact Hw|]. unfold inS.
  assert (0 < 2 ^ (w - 1)) by (apply Z.pow_pos_nonneg; lia). lia.
Qed.

Lemma wrapU_0 (w : Z) : wrapU w 0 = 0.
Proof. apply Zmod_0_l. Qed.

(** C2, what fails. The division by zero is not of a class of faults of
    its own. [Quotient(Int(1), Int(0))] ends in the panic of the division of
    the run time; [Quotient] with the untyped nil as its left operand ends in
    the panic of the type assertion of the normalizer, a fault of internal
    consistency. Both are panics of the run time, and a caller that
    recovers receives a [runtime.Error] from either; it stops the engine's
    own "Type error" panic, as [Remainder] on floats raises, in the same
    way. *)
Lemma division_by_zero_not_distinct :
  operatorQuotient sampleDiv stdEnv (Int 1) (Int 0) []
  = Err (RuntimeError DivideByZero)
  /\ getTypedObject untypedNil = Err (RuntimeError InterfaceConversion)
  /\ operatorQuotient sampleDiv stdEnv untypedNil (Int 0) []
     = Err (RuntimeError InterfaceConversion)
  /\ recovered (RuntimeError DivideByZero)
     = recovered (RuntimeError InterfaceConversion)
  /\ ~ (forall f g,
          operatorQuotient sampleDiv stdEnv (Int 1) (Int 0) [] = Err f ->
          operatorQuotient sampleDiv stdEnv untypedNil (Int 0) [] = Err g ->
          recovered f <> recovered g)
  /\ (exists e, operatorRemainder stdEnv (Float64 (S754_zero false))
                  (Float64 (S754_zero false)) [] = Err e
                /\ raisedByEngine e = true
                /\ recovered e <> None).
Proof.
  repeat split.
  - intros H. now apply (H _ _ eq_refl eq_refl).
  - eexists. repeat split. discriminate.
Qed.

(** C2, amended. On two typed objects of one integer kind whose right
    operand holds zero, [Quotient] and [Remainder] end in the panic
    "integer divide by zero" of the run time: the engine has no check of
    the divisor and no error of its own for it. A caller can stop the
    panic with [recover], which gives it a [runtime.Error]. That differs
    from the faults the engine raises itself, [log.Fatal], which exits the
    process (as when the registry has no storage type, whatever the
    divisor), and the "Type error" panic, whose value is a string; it does
    not differ from the panic of the type assertion that the untyped nil
    as left operand ends in at the normalizer, whatever the right operand. [Quotient(Int(1),
    Int(0))] ends in the panic of the division. *)
Theorem division_by_zero (cdiv : Z -> complex -> complex -> complex)
    (env : environ) (left right : Object) (lv rv : reflect.Value)
    (rt : reflect.rtype) (K : reflect.Kind) (a : Z) (h : heap) :
  isInteger K = true ->
  isTyped (Typ left) = true -> isTyped (Typ right) = true ->
  Value left = ofReflect lv -> Value right = ofReflect rv ->
  reflect.kind lv = K -> reflect.kind rv = K ->
  load h lv = Ok (reflect.DInt a) -> load h rv = Ok (reflect.DInt 0) ->
  typeMap (interp env) (Typ left) = Some rt ->
  let f := RuntimeError DivideByZero in
  operatorQuotient cdiv env left right h = Err f
  /\ operatorRemainder env left right h = Err f
  /\ recovered f = Some runtimeErrorValue
  /\ (forall msg, recovered f <> recovered (Fatal msg))
  /\ (forall operation l r, recovered f <> recovered (TypeError operation l r))
  /\ (forall other,
        operatorQuotient cdiv env untypedNil other h
        = Err (RuntimeError InterfaceConversion)
        /\ operatorRemainder env untypedNil other h
           = Err (RuntimeError InterfaceConversion)
        /\ recovered (RuntimeError InterfaceConversion) = recovered f)
  /\ operatorQuotient cdiv stdEnv (Int 1) (Int 0) [] = Err f
  /\ operatorQuotient cdiv stdEnv (unregistered 1) (Int 0) []
     = Err (Fatal "operatorQuotient: Couldn't get reflect.Type from types.Type")
  /\ operatorRemainder stdEnv (Float64 (S754_zero false))
       (Float64 (S754_zero false)) []
     = Err (TypeError "'%' operator" (types.Typ types.Float64)
              (types.Typ types.Float64)).
Proof.
  intros HK Hl Hr Hlv Hrv Klv Krv La Lb Hrt f.
  assert (Q : forall op : Z -> Z -> result Z,
             (forall x, op x 0 = Err f) ->
             exists case, integerCases op K = Some case /\
               case lv rv (fresh rt h) (h ++ [reflect.zero (reflect.Kind_ rt)]) = Err f).
  { intros op Hop.
    apply (integerCases_fault op K lv rv _ a 0); try assumption.
    - now apply load_app.
    - now apply load_app.
    - intros w Hw. rewrite wrapS_0 by exact Hw. apply Hop.
    - intros w Hw. rewrite wrapU_0. apply Hop. }
  split; [|split; [|split; [reflexivity|split; [discriminate|split;
    [discriminate|split; [|repeat split]]]]]].
  - unfold operatorQuotient.
    rewrite (binaryOperator_typed _ _ _ env left right lv rv rt h Hl Hr Hlv Hrv Hrt).
    rewrite Klv, (operatorQuotient_integer cdiv K HK).
    destruct (Q quoZ) as (case & -> & ->); [reflexivity|reflexivity].
  - unfold operatorRemainder.
    rewrite (binaryOperator_typed _ _ _ env left right lv rv rt h Hl Hr Hlv Hrv Hrt).
    rewrite Klv.
    destruct (Q remZ) as (case & -> & ->); [reflexivity|reflexivity].
  - intros other. repeat split.
Qed.

(** ** The result of an arithmetic or bitwise operator *)

Ltac bind_inv H :=
  repeat match type of H with
    | bind ?e _ = Ok _ =>
        let E := fresh "E" in
        destruct e eqn:E; cbn [bind] in H; [|discriminate H]
    end.

Lemma signedCase_fillsSlot w op : fillsSlot (signedCase w op).
Proof.
  intros lv rv t h z h' H. unfold signedCase in H. bind_inv H.
  apply (setters_fresh t z). eauto.
Qed.

Lemma unsignedCase_fillsSlot w op : fillsSlot (unsignedCase w op).
Proof.
  intros lv rv t h z h' H. unfold unsignedCase in H. bind_inv H.
  apply (setters_fresh t z). eauto.
Qed.

Lemma floatCase_fillsSlot T op : fillsSlot (floatCase T op).
Proof.
  intros lv rv t h z h' H. unfold floatCase in H. bind_inv H.
  apply (setters_fresh t z). eauto 6.
Qed.

Lemma complexCase_fillsSlot T op : fillsSlot (complexCase T op).
Proof.
  intros lv rv t h z h' H. unfold complexCase in H. bind_inv H.
  apply (setters_fresh t z). eauto 7.
Qed.

Lemma stringCase_fillsSlot : fillsSlot stringCase.
Proof.
  intros lv rv t h z h' H. unfold stringCase in H. bind_inv H.
  apply (setters_fresh t z). eauto 8.
Qed.

Lemma signedShift_fillsSlot w op : shiftFillsSlot (signedShift w op).
Proof.
  intros lv amt t h z h' H. unfold signedShift in H. bind_inv H.
  apply (setters_fresh t z). eauto.
Qed.

Lemma unsignedShift_fillsSlot w op : shiftFillsSlot (unsignedShift w op).
Proof.
  intros lv amt t h z h' H. unfold unsignedShift in H. bind_inv H.
  apply (setters_fresh t z). eauto.
Qed.

Lemma integerCases_fillsSlot op k c : integerCases op k = Some c -> fillsSlot c.
Proof.
  destruct k; cbn; intros [= <-];
    auto using signedCase_fillsSlot, unsignedCase_fillsSlot.
Qed.

Lemma floatingCases_fillsSlot f32 f64 c64 c128 k c :
  floatingCases f32 f64 c64 c128 k = Some c -> fillsSlot c.
Proof.
  destruct k; cbn; intros [= <-];
    auto using floatCase_fillsSlot, complexCase_fillsSlot.
Qed.

Lemma orElse_fillsSlot (x y : option kindCase) c :
  (forall c, x = Some c -> fillsSlot c) -> (forall c, y = Some c -> fillsSlot c) ->
  orElse x y = Some c -> fillsSlot c.
Proof. destruct x; cbn; auto. Qed.

Lemma binaryOperator_result fname operation cases env left right h o h' :
  (forall k c, cases k = Some c -> fillsSlot c) ->
  binaryOperator fname operation cases env left right h = Ok (o, h') ->
  freshResult env left h o h'.
Proof.
  intros Hc H. unfold binaryOperator in H. bind_inv H.
  unfold getReflectType in H.
  destruct (typeMap _ _) as [rt|] eqn:Hrt; [|discriminate].
  cbn [getSettableZeroVal New_Elem] in H. fold (fresh rt h) in H.
  destruct (cases _) as [c|] eqn:Ec; [|discriminate].
  bind_inv H. injection H as <- <-.
  match goal with
  | E : c _ _ _ _ = Ok _ |- _ => apply (Hc _ _ Ec) in E; destruct E as [d ->]
  end.
  exists a, rt, d. auto.
Qed.

Lemma shiftOperator_result fname cases env left right h o h' :
  (forall k c, cases k = Some c -> shiftFillsSlot c) ->
  shiftOperator fname cases env left right h = Ok (o, h') ->
  freshResult env left h o h'.
Proof.
  intros Hc H. unfold shiftOperator in H. bind_inv H.
  unfold getReflectType in H.
  destruct (typeMap _ _) as [rt|] eqn:Hrt; [|discriminate].
  cbn [getSettableZeroVal New_Elem] in H. fold (fresh rt h) in H.
  destruct (cases _) as [c|] eqn:Ec; [|discriminate].
  bind_inv H. injection H as <- <-.
  match goal with
  | E : c _ _ _ _ = Ok _ |- _ => apply (Hc _ _ Ec) in E; destruct E as [d ->]
  end.
  exists a, rt, d. auto.
Qed.

(** C9. Whatever arithmetic or bitwise operator returns, it returns an
    Object of the type of the normalized left operand, whose value is a slot
    of the storage type the registry gives for that type, allocated by the
    call (zero-initialized, at an address the heap did not have) and set to
    the result; the heap is otherwise as it was, so every value that could
    be read before the call reads the same after it. Each of the eleven
    operators returns on some operands. *)
Theorem result_in_fresh_slot (cmul cdiv : Z -> complex -> complex -> complex)
    (env : environ) (left right : Object) (op : token.Token)
    (h : heap) (o : Object) (h' : heap) :
  doBinaryOp cmul cdiv env left right op h = Ok (o, h') ->
  (exists left' rt d,
      getTypedObject left = Ok left' /\
      typeMap (interp env) (Typ left') = Some rt /\
      Typ o = Typ left' /\
      Value o = ofReflect (fresh rt h) /\
      getSettableZeroVal rt h = (fresh rt h, h ++ [reflect.zero (reflect.Kind_ rt)]) /\
      load h (fresh rt h) = Err (RuntimeError InvalidAddress) /\
      h' = h ++ [d] /\
      load h' (fresh rt h) = Ok d /\
      (forall v x, load h v = Ok x -> load h' v = Ok x))
  /\ (forall op', arithmeticOrBitwise op' = true ->
        exists o' h'', doBinaryOp cmul cdiv stdEnv (Uint 12) (Uint 2) op' [] = Ok (o', h'')).
Proof.
  intros H. split.
  - assert (R : freshResult env left h o h').
    { destruct op; cbn [doBinaryOp] in H; try discriminate H;
        unfold operatorAdd, operatorSubtract, operatorMultiply,
          operatorQuotient, operatorRemainder, operatorAnd, operatorOr,
          operatorXor, operatorAndNot, operatorShiftLeft,
          operatorShiftRight in H;
        [ eapply binaryOperator_result; [|exact H] ..
        | eapply shiftOperator_result; [|exact H]
        | eapply shiftOperator_result; [|exact H]
        | eapply binaryOperator_result; [|exact H] ];
        intros k c; cbn beta.
      - destruct k; cbn; intros [= <-];
          auto using signedCase_fillsSlot, unsignedCase_fillsSlot,
            floatCase_fillsSlot, complexCase_fillsSlot, stringCase_fillsSlot.
      - apply orElse_fillsSlot;
          eauto using integerCases_fillsSlot, floatingCases_fillsSlot.
      - apply orElse_fillsSlot;
          eauto using integerCases_fillsSlot, floatingCases_fillsSlot.
      - apply orElse_fillsSlot;
          eauto using integerCases_fillsSlot, floatingCases_fillsSlot.
      - apply integerCases_fillsSlot.
      - apply integerCases_fillsSlot.
      - apply integerCases_fillsSlot.
      - apply integerCases_fillsSlot.
      - destruct k; cbn; intros [= <-];
          auto using signedShift_fillsSlot, unsignedShift_fillsSlot.
      - destruct k; cbn; intros [= <-];
          auto using signedShift_fillsSlot, unsignedShift_fillsSlot.
      - apply integerCases_fillsSlot. }
    destruct R as (left' & rt & d & Hn & Hrt & -> & ->).
    exists left', rt, d. repeat split; auto.
    + unfold load, fresh. cbn [reflect.ptr].
      rewrite lookup_ge_None_2 by lia. reflexivity.
    + unfold load, fresh. cbn [reflect.ptr].
      rewrite lookup_app_r by lia.
      replace (length h - length h)%nat with 0%nat by lia. reflexivity.
    + intros v x. apply load_app.
  - intros op' Hop. destruct op'; try discriminate Hop; eexists; eexists; reflexivity.
Qed.

(** ** The constant normalizer *)

Example ratToFloat64_tenth :
  ratToFloat64 (1 # 10) = S754_finite false 7205759403792794 (-56).
Proof. vm_compute. reflexivity. Qed.

(** [big.Int.Int64], on sign and magnitude, is the two's complement
    truncation to 64 bits. *)
Lemma bigInt_Int64_truncates (z : Z) : bigInt_Int64 z = wrapS 64 z.
Proof.
  unfold bigInt_Int64. destruct (Z.ltb_spec z 0).
  - apply wrapS_congr.
    rewrite <- (Z.sub_0_l (wrapS _ _)), Zminus_mod, wrapS_mod by lia.
    unfold wrapU. rewrite Zmod_mod, <- Zminus_mod. f_equal. lia.
  - apply wrapS_congr. unfold wrapU. rewrite Zmod_mod. f_equal. lia.
Qed.

Lemma fitsInt64_inS (z : Z) : fitsInt64 z = true -> inS 64 z.
Proof.
  unfold fitsInt64, inS. intros H. apply andb_prop in H as [H1 H2].
  apply Z.leb_le in H1. apply Z.ltb_lt in H2.
  change (64 - 1) with 63. lia.
Qed.

(** The [int64] that [exact.Int64Val] returns for an integer constant. *)
Lemma exact_Int64Val_truncates (z : Z) :
  exists ok, exact_Int64Val (exact.IntV z) = Ok (wrapS 64 z, ok).
Proof.
  unfold exact_Int64Val. destruct (fitsInt64 z) eqn:F.
  - exists true. rewrite wrapS_small; [reflexivity|lia|]. now apply fitsInt64_inS.
  - exists false. now rewrite bigInt_Int64_truncates.
Qed.

Lemma wrapS_narrow (w w' z : Z) : 0 < w <= w' -> wrapS w (wrapS w' z) = wrapS w z.
Proof.
  intros Hw. apply wrapS_congr.
  assert (0 < 2 ^ w) by (apply Z.pow_pos_nonneg; lia).
  assert (0 < 2 ^ w') by (apply Z.pow_pos_nonneg; lia).
  assert (D : (2 ^ w | 2 ^ w')).
  { exists (2 ^ (w' - w)). rewrite <- Z.pow_add_r by lia. f_equal. lia. }
  rewrite <- (Z.mod_mod_divide (wrapS w' z) (2 ^ w') (2 ^ w)) by exact D.
  rewrite wrapS_mod by lia. now apply Z.mod_mod_divide.
Qed.

(** C3. The normalizer returns a typed object as it is. It turns an untyped
    boolean constant into a [Bool], an untyped integer constant into the
    [Int] of its truncation to 64 bits (every constant has a result: there
    is no overflow diagnostic), an untyped float constant into the nearest
    [Float64], an untyped complex constant into a [Complex128], an untyped
    rune constant into a [Rune], which is [Int32], and an untyped string
    constant into a [String]. On an object of the untyped nil type it does
    not return: it ends in [log.Fatal] when the object holds a constant,
    and at the type assertion before it otherwise. *)
Theorem normalization (obj : Object) :
  (isTyped (Typ obj) = true -> getTypedObject obj = Ok obj)
  /\ (forall b, Typ obj = types.Typ types.UntypedBool ->
        Value obj = ofExact (exact.BoolV b) ->
        getTypedObject obj
        = Ok {| Value := ofReflect (reflect.ValueOf reflect.boolType (reflect.DBool b));
                Typ := types.Typ types.Bool |})
  /\ (forall z, Typ obj = types.Typ types.UntypedInt ->
        Value obj = ofExact (exact.IntV z) ->
        getTypedObject obj
        = Ok (Int (reinterpret reflect.Int64 (z mod 2 ^ 64))))
  /\ (forall q, Typ obj = types.Typ types.UntypedFloat ->
        Value obj = ofExact (exact.FloatV q) ->
        getTypedObject obj = Ok (Float64 (ratToFloat64 q)))
  /\ (forall re im, Typ obj = types.Typ types.UntypedComplex ->
        Value obj = ofExact (exact.ComplexV re im) ->
        getTypedObject obj = Ok (Complex128 (ratToFloat64 re, ratToFloat64 im)))
  /\ (forall z, Typ obj = types.Typ types.UntypedRune ->
        Value obj = ofExact (exact.IntV z) ->
        getTypedObject obj
        = Ok {| Value := ofReflect (reflect.ValueOf reflect.int32Type
                  (reflect.DInt (reinterpret reflect.Int32 (z mod 2 ^ 32))));
                Typ := types.Typ types.Rune |}
        /\ types.Typ types.Rune = types.Typ types.Int32)
  /\ (forall s, Typ obj = types.Typ types.UntypedString ->
        Value obj = ofExact (exact.StringV s) ->
        getTypedObject obj
        = Ok {| Value := ofReflect (reflect.ValueOf reflect.stringType (reflect.DString s));
                Typ := types.Typ types.String |})
  /\ (Typ obj = types.Typ types.UntypedNil ->
        exists f, getTypedObject obj = Err f /\
          (forall c, Value obj = ofExact c ->
             f = Fatal "getTypedObject: Got untyped nil") /\
          ((forall c, Value obj <> ofExact c) ->
             f = RuntimeError InterfaceConversion)).
Proof.
  split; [apply getTypedObject_typed|].
  unfold getTypedObject.
  split; [intros b Ht Hv; rewrite Ht, Hv; reflexivity|].
  split.
  { intros z Ht Hv. rewrite Ht, Hv.
    cbn [isTyped types.Typ types.Underlying types.isUntyped negb toBasic bind toExact].
    destruct (exact_Int64Val_truncates z) as [e ->]. cbn [bind fst].
    unfold Int. do 5 f_equal. unfold intSize.
    rewrite wrapS_wrapS by lia.
    apply (wrapS_as_reinterpret reflect.Int64). reflexivity. }
  split; [intros q Ht Hv; rewrite Ht, Hv; reflexivity|].
  split; [intros re im Ht Hv; rewrite Ht, Hv; reflexivity|].
  split.
  { intros z Ht Hv. split; [|reflexivity]. rewrite Ht, Hv.
    cbn [isTyped types.Typ types.Underlying types.isUntyped negb toBasic bind toExact].
    destruct (exact_Int64Val_truncates z) as [e ->]. cbn [bind fst].
    do 5 f_equal. rewrite wrapS_narrow by lia.
    apply (wrapS_as_reinterpret reflect.Int32). reflexivity. }
  split; [intros s Ht Hv; rewrite Ht, Hv; reflexivity|].
  intros Ht. rewrite Ht.
  cbn [isTyped types.Typ types.Underlying types.isUntyped negb toBasic bind].
  destruct (Value obj) as [v|c|]; cbn [toExact bind].
  - exists (RuntimeError InterfaceConversion). repeat split; congruence.
  - exists (Fatal "getTypedObject: Got untyped nil").
    repeat split. intros C. now destruct (C c).
  - exists (RuntimeError InterfaceConversion). repeat split; congruence.
Qed.

(** ** Shifts *)

(** The count is all a shift takes from its right operand, but for the
    type it names in the panic of an unsupported left operand. *)
Lemma shiftOperator_count fname cases env left right right' h :
  shiftCount right h = shiftCount right' h ->
  returned (shiftOperator fname cases env left right h)
  = returned (shiftOperator fname cases env left right' h).
Proof.
  intros E. unfold shiftOperator.
  destruct (getTypedObject left) as [l|]; cbn [bind]; [|reflexivity].
  destruct (toReflect (Value l)) as [lv|]; cbn [bind]; [|reflexivity].
  rewrite E. destruct (shiftCount right' h) as [amt|]; cbn [bind]; [|reflexivity].
  destruct (getReflectType _ _) as [rt|]; [|reflexivity].
  destruct (getSettableZeroVal rt h) as [newVal h1].
  destruct (cases _); reflexivity.
Qed.

Lemma exact_Uint64Val_range (z : Z) :
  exists n ok, exact_Uint64Val (exact.IntV z) = Ok (n, ok) /\ 0 <= n < 2 ^ 64.
Proof.
  unfold exact_Uint64Val.
  destruct (fitsInt64 z); eexists; eexists; (split; [reflexivity|]);
    apply (wrapU_range 64); lia.
Qed.

Lemma exact_Uint64Val_small (z : Z) :
  0 <= z < 2 ^ 64 -> exists ok, exact_Uint64Val (exact.IntV z) = Ok (z, ok).
Proof.
  intros Hz. unfold exact_Uint64Val, bigInt_Uint64.
  destruct (fitsInt64 z); eexists.
  - rewrite wrapU_small by exact Hz. reflexivity.
  - rewrite Z.abs_eq by lia. rewrite wrapU_small by exact Hz. reflexivity.
Qed.

Lemma shiftCount_constant (z : Z) (h : heap) :
  0 <= z < 2 ^ 64 -> shiftCount (untypedConstant z) h = Ok z.
Proof.
  intros Hz. unfold shiftCount, untypedConstant. cbn [Value toExact bind].
  destruct (exact_Uint64Val_small z Hz) as [e ->]. reflexivity.
Qed.

Lemma shiftCount_typed (right : Object) (rv : reflect.Value) (n : Z) (h : heap) :
  Value right = ofReflect rv ->
  reflect.isUnsigned (reflect.kind rv) = true ->
  load h rv = Ok (reflect.DInt n) ->
  shiftCount right h = Ok n.
Proof.
  intros Hv Hk Hl. unfold shiftCount. rewrite Hv. cbn [bind].
  now apply Value_Uint_load.
Qed.

(** C4, what fails. A shift whose count is a typed signed integer does not
    return: the count is read with [Uint], which panics on a signed value. *)
Lemma shift_count_signed_panics :
  operatorShiftLeft stdEnv (Int8 1) (Int 3) []
  = Err (ValueError "reflect.Value.Uint" reflect.Int)
  /\ operatorShiftRight stdEnv (Int8 1) (Int 3) []
     = Err (ValueError "reflect.Value.Uint" reflect.Int)
  /\ (forall x, operatorShiftLeft stdEnv (Int8 1) (Int 3) [] <> Ok x).
Proof. repeat split. intros x. discriminate. Qed.

(** C4, amended. The count of a shift may be a typed unsigned integer or an
    untyped integer constant. A constant gives a count between 0 and
    [2^64 - 1]; a typed unsigned operand gives the value it holds; the count
    is not brought to the width of the left operand (a count of 257 shifts
    every bit out of a [Uint8]). The constant [n] and a typed unsigned
    operand holding [n] make [ShiftLeft] and [ShiftRight] return the same,
    whatever the left operand. *)
Theorem shift_count (env : environ) (left right : Object)
    (rv : reflect.Value) (n : Z) (h : heap) :
  Value right = ofReflect rv ->
  reflect.isUnsigned (reflect.kind rv) = true ->
  load h rv = Ok (reflect.DInt n) ->
  0 <= n < 2 ^ 64 ->
  shiftCount right h = Ok n
  /\ shiftCount (untypedConstant n) h = Ok n
  /\ (forall z, exists c, shiftCount (untypedConstant z) h = Ok c /\ 0 <= c < 2 ^ 64)
  /\ returned (operatorShiftLeft env left (untypedConstant n) h)
     = returned (operatorShiftLeft env left right h)
  /\ returned (operatorShiftRight env left (untypedConstant n) h)
     = returned (operatorShiftRight env left right h)
  /\ operatorShiftLeft stdEnv (Uint8 1) (Uint 257) []
     = Ok ({| Value := ofReflect (fresh uint8Type []); Typ := types.Typ types.Uint8 |},
           [reflect.DInt 0]).
Proof.
  intros Hv Hk Hl Hn.
  pose proof (shiftCount_typed right rv n h Hv Hk Hl) as C1.
  pose proof (shiftCount_constant n h Hn) as C2.
  split; [exact C1|]. split; [exact C2|]. split; [|split; [|split]].
  - intros z. unfold shiftCount, untypedConstant. cbn [Value toExact bind].
    destruct (exact_Uint64Val_range z) as (c & e & -> & Hc).
    exists c. split; [reflexivity|exact Hc].
  - apply shiftOperator_count. congruence.
  - apply shiftOperator_count. congruence.
  - reflexivity.
Qed.

Lemma half_pos (w : Z) : 0 < w -> 0 < 2 ^ (w - 1).
Proof. intros. apply Z.pow_pos_nonneg; lia. Qed.

(** Beyond its width, a two's complement number repeats its sign. *)
Lemma testbit_sign (w a j : Z) : 0 < w -> inS w a -> w - 1 <= j -> Z.testbit a j = (a <? 0).
Proof.
  intros Hw [H1 H2] Hj.
  assert (P : 2 ^ (w - 1) <= 2 ^ j) by (apply Z.pow_le_mono_r; lia).
  destruct (Z.ltb_spec a 0) as [N|N].
  - destruct (Z.eq_dec a (-1)) as [->|E]; [apply Z.bits_m1; lia|].
    apply Z.bits_above_log2_neg; [exact N|]. apply Z.log2_lt_pow2; lia.
  - destruct (Z.eq_dec a 0) as [->|E]; [apply Z.bits_0|].
    apply Z.bits_above_log2; [exact N|]. apply Z.log2_lt_pow2; lia.
Qed.

Lemma testbit_high (w a j : Z) : inU w a -> w <= j -> Z.testbit a j = false.
Proof.
  intros [H1 H2] Hj.
  destruct (Z.eq_dec a 0) as [->|E]; [apply Z.bits_0|].
  destruct (Z.ltb_spec w 0).
  - rewrite Z.pow_neg_r in H2 by lia. lia.
  - assert (P : 2 ^ w <= 2 ^ j) by (apply Z.pow_le_mono_r; lia).
    apply Z.bits_above_log2; [exact H1|]. apply Z.log2_lt_pow2; lia.
Qed.

(** With a count of the width or more, the shift of a representable value
    is still the shift of the integers. *)
Lemma shrZ_signed (w a n : Z) : 0 < w -> inS w a -> 0 <= n -> shrZ w a n = Z.shiftr a n.
Proof.
  intros Hw [H1 H2] Hn. unfold shrZ.
  destruct (Z.leb_spec w n) as [L|L]; [|reflexivity].
  rewrite Z.shiftr_div_pow2 by exact Hn.
  assert (P : 2 ^ (w - 1) <= 2 ^ n) by (apply Z.pow_le_mono_r; lia).
  pose proof (half_pos w Hw).
  destruct (Z.ltb_spec a 0) as [N|N].
  - apply (Z.div_unique a (2 ^ n) (-1) (a + 2 ^ n)); lia.
  - symmetry. apply Z.div_small. lia.
Qed.

Lemma shrZ_unsigned (w a n : Z) : 0 <= w -> inU w a -> 0 <= n -> shrZ w a n = Z.shiftr a n.
Proof.
  intros Hw [H1 H2] Hn. unfold shrZ.
  destruct (Z.leb_spec w n) as [L|L]; [|reflexivity].
  rewrite Z.shiftr_div_pow2 by exact Hn.
  assert (P : 2 ^ w <= 2 ^ n) by (apply Z.pow_le_mono_r; lia).
  destruct (Z.ltb_spec a 0) as [N|N]; [lia|].
  symmetry. apply Z.div_small. lia.
Qed.

Lemma shiftr_inS (w a n : Z) : 0 < w -> inS w a -> 0 <= n -> inS w (Z.shiftr a n).
Proof.
  intros Hw [H1 H2] Hn. unfold inS. rewrite Z.shiftr_div_pow2 by exact Hn.
  assert (0 < 2 ^ n) by (apply Z.pow_pos_nonneg; lia).
  pose proof (half_pos w Hw).
  split.
  - apply Z.div_le_lower_bound; [lia|]. nia.
  - apply Z.div_lt_upper_bound; [lia|]. nia.
Qed.

Lemma shiftr_inU (w a n : Z) : inU w a -> 0 <= n -> inU w (Z.shiftr a n).
Proof.
  intros [H1 H2] Hn. unfold inU. rewrite Z.shiftr_div_pow2 by exact Hn.
  assert (0 < 2 ^ n) by (apply Z.pow_pos_nonneg; lia).
  split.
  - apply Z.div_pos; lia.
  - apply Z.div_lt_upper_bound; [lia|]. nia.
Qed.

Lemma bit_low (K : reflect.Kind) (z i : Z) :
  0 <= i < reflect.bits K -> bit K z i = Z.testbit z i.
Proof. intros Hi. unfold bit. apply Z.mod_pow2_bits_low. lia. Qed.

(** A shift on a typed left operand: the slot is allocated, then the case
    of the left operand's kind runs on the count. *)
Lemma shiftOperator_typed (fname : string) (cases : reflect.Kind -> option shiftCase)
    (env : environ) (left right : Object) (lv : reflect.Value)
    (rt : reflect.rtype) (n : Z) (h : heap) :
  isTyped (Typ left) = true -> Value left = ofReflect lv ->
  shiftCount right h = Ok n ->
  typeMap (interp env) (Typ left) = Some rt ->
  shiftOperator fname cases env left right h =
  match cases (reflect.kind lv) with
  | Some case =>
      h' <- case lv n (fresh rt h) (h ++ [reflect.zero (reflect.Kind_ rt)]) ;;
      Ok ({| Value := ofReflect (fresh rt h); Typ := Typ left |}, h')
  | None => Err (TypeError "shift" (Typ left) (Typ right))
  end.
Proof.
  intros Hl Hlv Hn Hrt. unfold shiftOperator.
  rewrite (getTypedObject_typed _ Hl). cbn [bind].
  rewrite Hlv. cbn [toReflect bind]. rewrite Hn. cbn [bind].
  unfold getReflectType. rewrite Hrt. reflexivity.
Qed.

Lemma signedShift_run (w : Z) (op : Z -> Z -> Z -> Z) (lv : reflect.Value)
    (rt : reflect.rtype) (a n : Z) (z : reflect.data) (h : heap) :
  reflect.isSigned (reflect.kind lv) = true ->
  reflect.isSigned (reflect.Kind_ rt) = true ->
  load h lv = Ok (reflect.DInt a) ->
  signedShift w op lv n (fresh rt h) (h ++ [z]) =
  Ok (h ++ [reflect.DInt (wrapS (reflect.bits (reflect.Kind_ rt))
                            (wrapS 64 (wrapS w (op w (wrapS w a) n))))]).
Proof.
  intros Hl Ht La. unfold signedShift.
  rewrite (Value_Int_load _ _ a Hl (load_app _ _ _ z La)). cbn [bind].
  apply Value_SetInt_fresh, Ht.
Qed.

Lemma unsignedShift_run (w : Z) (op : Z -> Z -> Z -> Z) (lv : reflect.Value)
    (rt : reflect.rtype) (a n : Z) (z : reflect.data) (h : heap) :
  reflect.isUnsigned (reflect.kind lv) = true ->
  reflect.isUnsigned (reflect.Kind_ rt) = true ->
  load h lv = Ok (reflect.DInt a) ->
  unsignedShift w op lv n (fresh rt h) (h ++ [z]) =
  Ok (h ++ [reflect.DInt (wrapU (reflect.bits (reflect.Kind_ rt))
                            (wrapU 64 (wrapU w (op w (wrapU w a) n))))]).
Proof.
  intros Hl Ht La. unfold unsignedShift.
  rewrite (Value_Uint_load _ _ a Hl (load_app _ _ _ z La)). cbn [bind].
  apply Value_SetUint_fresh, Ht.
Qed.

(** [ShiftRight] of a representable value by a count [n]: the value is
    shifted as an integer. *)
Lemma operatorShiftRight_value (env : environ) (left right : Object)
    (lv : reflect.Value) (rt : reflect.rtype) (K : reflect.Kind)
    (a n : Z) (h : heap) :
  isInteger K = true ->
  isTyped (Typ left) = true -> Value left = ofReflect lv ->
  reflect.kind lv = K -> load h lv = Ok (reflect.DInt a) ->
  representable K a ->
  shiftCount right h = Ok n -> 0 <= n ->
  typeMap (interp env) (Typ left) = Some rt -> reflect.Kind_ rt = K ->
  operatorShiftRight env left right h
  = Ok ({| Value := ofReflect (fresh rt h); Typ := Typ left |},
        h ++ [reflect.DInt (Z.shiftr a n)])
  /\ representable K (Z.shiftr a n).
Proof.
  intros HK Hl Hlv Klv La Ra Hc Hn Hrt Krt.
  pose proof (bits_integer K HK) as HW.
  unfold operatorShiftRight.
  rewrite (shiftOperator_typed _ _ env left right lv rt n h Hl Hlv Hc Hrt).
  rewrite Klv. unfold representable in *.
  destruct (reflect.isSigned K) eqn:Sg.
  - assert (R : inS (reflect.bits K) (Z.shiftr a n)) by (apply shiftr_inS; [lia|assumption..]).
    split; [|exact R].
    replace (match K with
             | reflect.Int => Some (signedShift intSize shrZ)
             | reflect.Int8 => Some (signedShift 8 shrZ)
             | reflect.Int16 => Some (signedShift 16 shrZ)
             | reflect.Int32 => Some (signedShift 32 shrZ)
             | reflect.Int64 => Some (signedShift 64 shrZ)
             | reflect.Uint => Some (unsignedShift intSize shrZ)
             | reflect.Uint8 => Some (unsignedShift 8 shrZ)
             | reflect.Uint16 => Some (unsignedShift 16 shrZ)
             | reflect.Uint32 => Some (unsignedShift 32 shrZ)
             | reflect.Uint64 => Some (unsignedShift 64 shrZ)
             | reflect.Uintptr => Some (unsignedShift intSize shrZ)
             | _ => None
             end) with (Some (signedShift (reflect.bits K) shrZ))
      by (destruct K; try discriminate Sg; reflexivity).
    rewrite (signedShift_run _ _ lv rt a n) by congruence. cbn [bind].
    rewrite Krt. do 5 f_equal.
    rewrite (wrapS_small _ a) by (assumption || lia).
    rewrite shrZ_signed by (assumption || lia).
    rewrite (wrapS_small (reflect.bits K) (Z.shiftr a n)) by (assumption || lia).
    rewrite (wrapS_small 64) by (lia || (apply (inS_weaken (reflect.bits K)); [lia|exact R])).
    apply wrapS_small; [lia|exact R].
  - assert (Us : reflect.isUnsigned K = true)
      by (unfold isInteger in HK; rewrite Sg in HK; exact HK).
    assert (R : inU (reflect.bits K) (Z.shiftr a n)) by (apply shiftr_inU; assumption).
    split; [|exact R].
    replace (match K with
             | reflect.Int => Some (signedShift intSize shrZ)
             | reflect.Int8 => Some (signedShift 8 shrZ)
             | reflect.Int16 => Some (signedShift 16 shrZ)
             | reflect.Int32 => Some (signedShift 32 shrZ)
             | reflect.Int64 => Some (signedShift 64 shrZ)
             | reflect.Uint => Some (unsignedShift intSize shrZ)
             | reflect.Uint8 => Some (unsignedShift 8 shrZ)
             | reflect.Uint16 => Some (unsignedShift 16 shrZ)
             | reflect.Uint32 => Some (unsignedShift 32 shrZ)
             | reflect.Uint64 => Some (unsignedShift 64 shrZ)
             | reflect.Uintptr => Some (unsignedShift intSize shrZ)
             | _ => None
             end) with (Some (unsignedShift (reflect.bits K) shrZ))
      by (destruct K; try discriminate Us; reflexivity).
    rewrite (unsignedShift_run _ _ lv rt a n) by congruence. cbn [bind].
    rewrite Krt. do 5 f_equal.
    rewrite (wrapU_small _ a) by assumption.
    rewrite shrZ_unsigned by (assumption || lia).
    rewrite (wrapU_small (reflect.bits K) (Z.shiftr a n)) by assumption.
    rewrite (wrapU_small 64) by (apply (inU_weaken (reflect.bits K)); [lia|exact R]).
    apply wrapU_small. exact R.
Qed.

(** C5. [ShiftRight] of a representable value of an integer kind [K] by [n]
    moves the bit [i + n] of the operand to the bit [i] of the result; the
    bits it vacates at the top receive the sign bit of the operand when [K]
    is signed (the shift is arithmetic) and zero when [K] is unsigned (the
    shift is logical). [ShiftRight(Int8(-8), Uint(1))] is [Int8(-4)] and
    [ShiftRight(Uint8(248), Uint(1))] is [Uint8(124)]. *)
Theorem shift_right_extends (env : environ) (left right : Object)
    (lv : reflect.Value) (rt : reflect.rtype) (K : reflect.Kind)
    (a n : Z) (h : heap) :
  isInteger K = true ->
  isTyped (Typ left) = true -> Value left = ofReflect lv ->
  reflect.kind lv = K -> load h lv = Ok (reflect.DInt a) ->
  representable K a ->
  shiftCount right h = Ok n -> 0 <= n ->
  typeMap (interp env) (Typ left) = Some rt -> reflect.Kind_ rt = K ->
  (exists r,
      operatorShiftRight env left right h
      = Ok ({| Value := ofReflect (fresh rt h); Typ := Typ left |},
            h ++ [reflect.DInt r])
      /\ representable K r
      /\ forall i, 0 <= i < reflect.bits K ->
           bit K r i = if i + n <? reflect.bits K then bit K a (i + n)
                       else reflect.isSigned K && bit K a (reflect.bits K - 1))
  /\ operatorShiftRight stdEnv (Int8 (-8)) (Uint 1) []
     = Ok ({| Value := ofReflect (fresh int8Type []); Typ := types.Typ types.Int8 |},
           [reflect.DInt (-4)])
  /\ operatorShiftRight stdEnv (Uint8 248) (Uint 1) []
     = Ok ({| Value := ofReflect (fresh uint8Type []); Typ := types.Typ types.Uint8 |},
           [reflect.DInt 124]).
Proof.
  intros HK Hl Hlv Klv La Ra Hc Hn Hrt Krt.
  pose proof (bits_integer K HK) as HW.
  split; [|split; reflexivity].
  destruct (operatorShiftRight_value env left right lv rt K a n h) as [E R];
    try assumption.
  exists (Z.shiftr a n). split; [exact E|]. split; [exact R|].
  intros i Hi. rewrite bit_low by exact Hi.
  rewrite Z.shiftr_spec by lia.
  destruct (Z.ltb_spec (i + n) (reflect.bits K)) as [L|L].
  - rewrite bit_low by lia. reflexivity.
  - unfold representable in Ra. destruct (reflect.isSigned K); cbn [andb].
    + rewrite bit_low by lia.
      rewrite (testbit_sign (reflect.bits K) a (i + n)) by (assumption || lia).
      rewrite (testbit_sign (reflect.bits K) a (reflect.bits K - 1)) by (assumption || lia).
      reflexivity.
    + apply (testbit_high (reflect.bits K)); [exact Ra|lia].
Qed.

(** ** Comparisons *)

Section Comparisons.

Variable AssignableTo : types.type -> types.type -> bool.
Variable Convert : heap -> reflect.Value -> reflect.rtype -> result reflect.Value.

Lemma doBinaryComparisonOp_value env left right op typ h :
  exists fname alloc,
    (alloc = getSettableZeroVal \/ alloc = New_Elem) /\
    doBinaryComparisonOp AssignableTo Convert env left right op typ h
    = (b <- comparisonValue AssignableTo Convert op left right h ;;
       boolObject fname alloc env typ b h).
Proof.
  destruct op;
    try (exists "", New_Elem; split; [now right|reflexivity]).
  - exists "operatorEqual", New_Elem. split; [now right|reflexivity].
  - exists "operatorLess", getSettableZeroVal. split; [now left|reflexivity].
  - exists "operatorGreater", New_Elem. split; [now right|reflexivity].
  - exists "operatorLessEqual", New_Elem. split; [now right|reflexivity].
  - exists "operatorGreaterEqual", New_Elem. split; [now right|reflexivity].
Qed.

Lemma boolObject_named fname alloc env typ rt b h :
  alloc = getSettableZeroVal \/ alloc = New_Elem ->
  types.isNamed typ = true ->
  typeMap (interp env) typ = Some rt ->
  reflect.Kind_ rt = reflect.Bool ->
  boolObject fname alloc env typ b h
  = Ok ({| Value := ofReflect (fresh rt h); Typ := typ |}, h ++ [reflect.DBool b]).
Proof.
  intros Ha Hn Hrt Hk. unfold boolObject. rewrite Hn.
  unfold getReflectType. rewrite Hrt.
  assert (E : alloc rt h = (fresh rt h, h ++ [reflect.zero (reflect.Kind_ rt)]))
    by (destruct Ha; subst alloc; reflexivity).
  rewrite E, Value_SetBool_fresh by exact Hk. reflexivity.
Qed.

Lemma boolObject_plain fname alloc env typ b h :
  types.isNamed typ = false ->
  boolObject fname alloc env typ b h
  = Ok ({| Value := ofReflect (reflect.ValueOf reflect.boolType (reflect.DBool b));
           Typ := typ |}, h).
Proof. intros Hn. unfold boolObject. rewrite Hn. reflexivity. Qed.

(** C6. When a comparison ([Less], [Greater], [LessEqual],
    [GreaterEqual], [Equal]) computes the boolean [b]: if the type of the
    expression is a named type, whose storage type is of kind [Bool], the
    result is an Object of that named type and its value is a new slot of
    that storage type holding [b]; if the type is not a named type, the
    value is a plain [bool] holding [b]. [Less] on two [Int32] with the
    named boolean type [Flag] returns an Object of type [Flag], whose
    value is not a plain [bool]. *)
Theorem comparison_result (env : environ) (left right : Object)
    (op : token.Token) (typ : types.type) (b : bool) (h : heap) :
  comparisonValue AssignableTo Convert op left right h = Ok b ->
  (forall rt,
      types.isNamed typ = true ->
      typeMap (interp env) typ = Some rt ->
      reflect.Kind_ rt = reflect.Bool ->
      doBinaryComparisonOp AssignableTo Convert env left right op typ h
      = Ok ({| Value := ofReflect (fresh rt h); Typ := typ |},
            h ++ [reflect.DBool b]))
  /\ (types.isNamed typ = false ->
      doBinaryComparisonOp AssignableTo Convert env left right op typ h
      = Ok ({| Value := ofReflect (reflect.ValueOf reflect.boolType (reflect.DBool b));
               Typ := typ |}, h))
  /\ (exists rt,
        operatorLess stdEnv (Int32 1) (Int32 2) Flag []
        = Ok ({| Value := ofReflect (fresh rt []); Typ := Flag |},
              [reflect.DBool true])
        /\ reflect.Kind_ rt = reflect.Bool
        /\ rt <> reflect.boolType
        /\ Flag <> types.Typ types.Bool).
Proof.
  intros Hb.
  destruct (doBinaryComparisonOp_value env left right op typ h)
    as (fname & alloc & Ha & ->).
  rewrite Hb. cbn [bind].
  split; [|split].
  - intros rt Hn Hrt Hk. now apply boolObject_named.
  - intros Hn. now apply boolObject_plain.
  - eexists. split; [reflexivity|]. repeat split; discriminate.
Qed.

(** *** Equality *)

Lemma isUntypedNil_typed (t : types.type) : isTyped t = true -> isUntypedNil t = Ok false.
Proof. intros H. unfold isUntypedNil. now rewrite H. Qed.

Lemma equalOperand_nil (o : Object) :
  Typ o = types.Typ types.UntypedNil -> equalOperand o = Ok None.
Proof. intros H. unfold equalOperand. rewrite H. reflexivity. Qed.

Lemma equalOperand_typed (o : Object) (v : reflect.Value) :
  isTyped (Typ o) = true -> Value o = ofReflect v ->
  equalOperand o = Ok (Some (o, v)).
Proof.
  intros Ht Hv. unfold equalOperand.
  rewrite (isUntypedNil_typed _ Ht). cbn [bind negb].
  rewrite (getTypedObject_typed _ Ht). cbn [bind]. rewrite Hv. reflexivity.
Qed.

Lemma Value_IsNil_load (h : heap) (v : reflect.Value) (p : option Z) :
  reflect.isReference (reflect.kind v) = true ->
  load h v = Ok (reflect.DRef p) -> Value_IsNil h v = Ok (isNilRef p).
Proof.
  intros Hk Hl. unfold Value_IsNil. rewrite Hk, Hl. cbn [bind].
  destruct p; reflexivity.
Qed.

Lemma operatorEqual_plain env left right typ b h :
  equalValue AssignableTo Convert left right h = Ok b ->
  types.isNamed typ = false ->
  operatorEqual AssignableTo Convert env left right typ h
  = Ok ({| Value := ofReflect (reflect.ValueOf reflect.boolType (reflect.DBool b));
           Typ := typ |}, h).
Proof.
  intros Hb Hn. unfold operatorEqual. rewrite Hb. cbn [bind].
  now apply boolObject_plain.
Qed.

(** C7. [Equal] with the untyped nil. When both operands are the untyped
    nil, [equal] is true. When one only is, and the other is a typed value
    of a reference kind, [equal] is true exactly when that value is nil.
    The Object returned carries [equal]. *)
Theorem equal_untyped_nil (env : environ) (left right : Object)
    (typ : types.type) (h : heap) :
  (Typ left = types.Typ types.UntypedNil ->
   Typ right = types.Typ types.UntypedNil ->
   equalValue AssignableTo Convert left right h = Ok true)
  /\ (forall v p,
        Typ left = types.Typ types.UntypedNil ->
        isTyped (Typ right) = true -> Value right = ofReflect v ->
        reflect.isReference (reflect.kind v) = true ->
        load h v = Ok (reflect.DRef p) ->
        equalValue AssignableTo Convert left right h = Ok (isNilRef p))
  /\ (forall v p,
        Typ right = types.Typ types.UntypedNil ->
        isTyped (Typ left) = true -> Value left = ofReflect v ->
        reflect.isReference (reflect.kind v) = true ->
        load h v = Ok (reflect.DRef p) ->
        equalValue AssignableTo Convert left right h = Ok (isNilRef p))
  /\ (forall b,
        equalValue AssignableTo Convert left right h = Ok b ->
        types.isNamed typ = false ->
        operatorEqual AssignableTo Convert env left right typ h
        = Ok ({| Value := ofReflect (reflect.ValueOf reflect.boolType (reflect.DBool b));
                 Typ := typ |}, h))
  /\ equalValue AssignableTo Convert untypedNil untypedNil [] = Ok true
  /\ equalValue AssignableTo Convert untypedNil (Pointer None) [] = Ok true
  /\ equalValue AssignableTo Convert (Pointer (Some 5)) untypedNil [] = Ok false.
Proof.
  split; [|split; [|split; [|split; [|repeat split]]]].
  - intros Hl Hr. unfold equalValue.
    rewrite (equalOperand_nil _ Hl), (equalOperand_nil _ Hr). reflexivity.
  - intros v p Hl Ht Hv Hk Hd. unfold equalValue.
    rewrite (equalOperand_nil _ Hl), (equalOperand_typed _ v Ht Hv). cbn [bind].
    now apply Value_IsNil_load.
  - intros v p Hr Ht Hv Hk Hd. unfold equalValue.
    rewrite (equalOperand_typed _ v Ht Hv), (equalOperand_nil _ Hr). cbn [bind].
    now apply Value_IsNil_load.
  - intros b Hb Hn. now apply operatorEqual_plain.
Qed.

Lemma BasicKind_eqb_refl (k : types.BasicKind) : types.BasicKind_eqb k k = true.
Proof. destruct k; reflexivity. Qed.

Lemma Identical_refl (t : types.type) : types.Identical t t = true.
Proof.
  induction t; cbn;
    rewrite ?BasicKind_eqb_refl, ?String.eqb_refl, ?IHt, ?IHt1, ?IHt2; reflexivity.
Qed.

Lemma rtype_eqb_refl (t : reflect.rtype) : reflect.rtype_eqb t t = true.
Proof.
  unfold reflect.rtype_eqb. rewrite String.eqb_refl.
  destruct (reflect.Kind_ t); reflexivity.
Qed.

(** IEEE equality is reflexive but on NaN. *)
Lemma SFeqb_refl (x : float) : SFeqb x x = negb (isNaN x).
Proof.
  unfold SFeqb. destruct x as [[]|[]| |[] m e]; cbn; try reflexivity;
    rewrite Z.compare_refl, Pos.compare_cont_refl; reflexivity.
Qed.

Lemma data_eqb_refl (d : reflect.data) : data_eqb d d = negb (hasNaN d).
Proof.
  destruct d as [b|z|f|c|s|p]; cbn.
  - apply Bool.eqb_reflx.
  - apply Z.eqb_refl.
  - apply SFeqb_refl.
  - rewrite !SFeqb_refl. now destruct (isNaN (fst c)), (isNaN (snd c)).
  - apply String.eqb_refl.
  - destruct p; [apply Z.eqb_refl|reflexivity].
Qed.

(** [Equal] of a typed value with itself compares its datum with itself. *)
Lemma equalValue_self (a : Object) (v : reflect.Value) (d : reflect.data) (h : heap) :
  isTyped (Typ a) = true -> Value a = ofReflect v -> load h v = Ok d ->
  reflect.isComparable (reflect.kind v) = true ->
  equalValue AssignableTo Convert a a h = Ok (negb (hasNaN d)).
Proof.
  intros Ht Hv Hl Hc. unfold equalValue.
  rewrite (equalOperand_typed _ v Ht Hv). cbn [bind].
  rewrite Identical_refl. unfold Value_Interface. rewrite Hl. cbn [bind].
  unfold interface_eq. cbn [fst snd]. rewrite rtype_eqb_refl. cbn [negb].
  unfold reflect.kind in Hc. rewrite Hc. cbn [negb].
  now rewrite data_eqb_refl.
Qed.

(** C8. [Equal] of a typed value with itself is true when the value is not
    a NaN float and has no NaN part, and false when it is or has one: the
    equality of floats and complex numbers is that of IEEE 754, where a
    NaN differs from itself (and the two zeros are equal). *)
Theorem equal_reflexive (env : environ) (a : Object) (v : reflect.Value)
    (d : reflect.data) (typ : types.type) (h : heap) :
  isTyped (Typ a) = true -> Value a = ofReflect v -> load h v = Ok d ->
  reflect.isComparable (reflect.kind v) = true ->
  types.isNamed typ = false ->
  (hasNaN d = false ->
     equalValue AssignableTo Convert a a h = Ok true /\
     operatorEqual AssignableTo Convert env a a typ h
     = Ok ({| Value := ofReflect (reflect.ValueOf reflect.boolType (reflect.DBool true));
              Typ := typ |}, h))
  /\ (hasNaN d = true ->
     equalValue AssignableTo Convert a a h = Ok false /\
     operatorEqual AssignableTo Convert env a a typ h
     = Ok ({| Value := ofReflect (reflect.ValueOf reflect.boolType (reflect.DBool false));
              Typ := typ |}, h))
  /\ equalValue AssignableTo Convert (Float64 NaN) (Float64 NaN) [] = Ok false
  /\ equalValue AssignableTo Convert (Complex128 (NaN, S754_zero false))
       (Complex128 (NaN, S754_zero false)) [] = Ok false
  /\ equalValue AssignableTo Convert (Float64 (S754_zero false))
       (Float64 (S754_zero true)) [] = Ok true.
Proof.
  intros Ht Hv Hl Hc Hn.
  pose proof (equalValue_self a v d h Ht Hv Hl Hc) as E.
  split; [|split; [|repeat split]].
  - intros N. rewrite N in E. split; [exact E|].
    now apply operatorEqual_plain.
  - intros N. rewrite N in E. split; [exact E|].
    now apply operatorEqual_plain.
Qed.

End Comparisons.

(** ** The switch of [ShiftLeft] *)

(** C10. The switch of [ShiftLeft] has no case for [Uint64]: on a left
    operand of that kind, once the count is read and the slot allocated, it
    ends in the panic "Invalid operands to shift", a fault of the engine's
    own. [ShiftRight] returns on the same operands, and so does every other
    arithmetic or bitwise operator on two [Uint64]. *)
Theorem shift_left_uint64 (cmul cdiv : Z -> complex -> complex -> complex)
    (env : environ) (left right : Object) (lv : reflect.Value)
    (rt : reflect.rtype) (a n : Z) (h : heap) :
  isTyped (Typ left) = true -> Value left = ofReflect lv ->
  reflect.kind lv = reflect.Uint64 ->
  load h lv = Ok (reflect.DInt a) -> representable reflect.Uint64 a ->
  shiftCount right h = Ok n -> 0 <= n ->
  typeMap (interp env) (Typ left) = Some rt ->
  reflect.Kind_ rt = reflect.Uint64 ->
  operatorShiftLeft env left right h = Err (TypeError "shift" (Typ left) (Typ right))
  /\ raisedByEngine (TypeError "shift" (Typ left) (Typ right)) = true
  /\ operatorShiftRight env left right h
     = Ok ({| Value := ofReflect (fresh rt h); Typ := Typ left |},
           h ++ [reflect.DInt (Z.shiftr a n)])
  /\ (forall op, arithmeticOrBitwise op = true -> op <> token.SHL ->
        exists o h', doBinaryOp cmul cdiv stdEnv (Uint64 12) (Uint64 2) op [] = Ok (o, h'))
  /\ doBinaryOp cmul cdiv stdEnv (Uint64 12) (Uint64 2) token.SHL []
     = Err (TypeError "shift" (types.Typ types.Uint64) (types.Typ types.Uint64)).
Proof.
  intros Hl Hlv Klv La Ra Hc Hn Hrt Krt.
  split; [|split; [reflexivity|split; [|split; [|reflexivity]]]].
  - unfold operatorShiftLeft.
    rewrite (shiftOperator_typed _ _ env left right lv rt n h Hl Hlv Hc Hrt).
    rewrite Klv. reflexivity.
  - now apply (operatorShiftRight_value env left right lv rt reflect.Uint64 a n h).
  - intros op Hop Hne.
    destruct op; try discriminate Hop; try (now destruct Hne);
      eexists; eexists; reflexivity.
Qed.

(** ** The theorems at concrete operands *)

Lemma add_wraparound_witness :
  operatorAdd stdEnv (Int8 120) (Int8 10) []
  = Ok ({| Value := ofReflect (fresh int8Type []); Typ := types.Typ types.Int8 |},
        [] ++ [reflect.DInt
                 (reinterpret reflect.Int8
                    (reinterpret reflect.Int8 ((120 + 10) mod 2 ^ 8) mod 2 ^ 8))]).
Proof.
  apply (add_wraparound stdEnv (Int8 120) (Int8 10)
           (reflect.ValueOf int8Type (reflect.DInt 120))
           (reflect.ValueOf int8Type (reflect.DInt 10))
           int8Type reflect.Int8 120 10 []); reflexivity.
Defined.

Lemma division_by_zero_witness :
  operatorQuotient sampleDiv stdEnv (Int8 7) (Int8 0) [] = Err (RuntimeError DivideByZero)
  /\ operatorRemainder stdEnv (Int8 7) (Int8 0) [] = Err (RuntimeError DivideByZero).
Proof.
  pose proof (division_by_zero sampleDiv stdEnv (Int8 7) (Int8 0)
                (reflect.ValueOf int8Type (reflect.DInt 7))
                (reflect.ValueOf int8Type (reflect.DInt 0))
                int8Type reflect.Int8 7 []
                eq_refl eq_refl eq_refl eq_refl eq_refl eq_refl eq_refl eq_refl
                eq_refl eq_refl) as H.
  split; [exact (proj1 H)|exact (proj1 (proj2 H))].
Defined.

Lemma normalization_witness :
  getTypedObject (Int8 5) = Ok (Int8 5)
  /\ getTypedObject (untypedConstant (2 ^ 64 + 5))
     = Ok (Int (reinterpret reflect.Int64 ((2 ^ 64 + 5) mod 2 ^ 64)))
  /\ exists f, getTypedObject untypedNil = Err f.
Proof.
  split; [|split].
  - apply (proj1 (normalization (Int8 5))). reflexivity.
  - apply (proj1 (proj2 (proj2 (normalization (untypedConstant (2 ^ 64 + 5))))));
      reflexivity.
  - destruct (proj2 (proj2 (proj2 (proj2 (proj2 (proj2 (proj2
                (normalization untypedNil))))))) eq_refl) as (f & Hf & _).
    exists f. exact Hf.
Defined.

Lemma shift_count_witness :
  returned (operatorShiftLeft stdEnv (Int8 1) (untypedConstant 3) [])
  = returned (operatorShiftLeft stdEnv (Int8 1) (Uint 3) []).
Proof.
  assert (B : 0 <= 3 < 2 ^ 64) by lia.
  exact (proj1 (proj2 (proj2 (proj2
           (shift_count stdEnv (Int8 1) (Uint 3)
              (reflect.ValueOf uintType (reflect.DInt 3)) 3 []
              eq_refl eq_refl eq_refl B))))).
Defined.

Lemma shift_right_extends_witness :
  exists r,
    operatorShiftRight stdEnv (Int8 (-8)) (Uint 1) []
    = Ok ({| Value := ofReflect (fresh int8Type []); Typ := types.Typ types.Int8 |},
          [] ++ [reflect.DInt r])
    /\ representable reflect.Int8 r
    /\ forall i, 0 <= i < 8 ->
         bit reflect.Int8 r i
         = if i + 1 <? 8 then bit reflect.Int8 (-8) (i + 1)
           else true && bit reflect.Int8 (-8) (8 - 1).
Proof.
  assert (R : representable reflect.Int8 (-8)) by (cbv; split; [discriminate|reflexivity]).
  assert (N : 0 <= 1) by lia.
  exact (proj1 (shift_right_extends stdEnv (Int8 (-8)) (Uint 1)
                  (reflect.ValueOf int8Type (reflect.DInt (-8)))
                  int8Type reflect.Int8 (-8) 1 []
                  eq_refl eq_refl eq_refl eq_refl eq_refl R eq_refl N eq_refl eq_refl)).
Defined.

Lemma comparison_result_witness :
  doBinaryComparisonOp sampleAssignableTo sampleConvert stdEnv
    (Int32 1) (Int32 2) token.LSS Flag []
  = Ok ({| Value := ofReflect
                      (fresh {| reflect.String_ := "Flag"; reflect.Kind_ := reflect.Bool |} []);
           Typ := Flag |},
        [] ++ [reflect.DBool true]).
Proof.
  apply (proj1 (comparison_result sampleAssignableTo sampleConvert stdEnv
                  (Int32 1) (Int32 2) token.LSS Flag true [] eq_refl));
    reflexivity.
Defined.

Lemma equal_untyped_nil_witness :
  equalValue sampleAssignableTo sampleConvert untypedNil untypedNil [] = Ok true
  /\ equalValue sampleAssignableTo sampleConvert untypedNil (Pointer (Some 5)) []
     = Ok (isNilRef (Some 5)).
Proof.
  split.
  - apply (proj1 (equal_untyped_nil sampleAssignableTo sampleConvert stdEnv
                    untypedNil untypedNil (types.Typ types.Bool) []));
      reflexivity.
  - apply (proj1 (proj2 (equal_untyped_nil sampleAssignableTo sampleConvert stdEnv
                    untypedNil (Pointer (Some 5)) (types.Typ types.Bool) []))
             (reflect.ValueOf pointerType (reflect.DRef (Some 5))) (Some 5));
      reflexivity.
Defined.

Lemma equal_reflexive_witness :
  equalValue sampleAssignableTo sampleConvert (Int8 5) (Int8 5) [] = Ok true
  /\ equalValue sampleAssignableTo sampleConvert (Float64 NaN) (Float64 NaN) [] = Ok false.
Proof.
  split.
  - apply (proj1 (equal_reflexive sampleAssignableTo sampleConvert stdEnv (Int8 5)
                    (reflect.ValueOf int8Type (reflect.DInt 5)) (reflect.DInt 5)
                    (types.Typ types.Bool) []
                    eq_refl eq_refl eq_refl eq_refl eq_refl)).
    reflexivity.
  - apply (proj1 (proj2 (equal_reflexive sampleAssignableTo sampleConvert stdEnv
                    (Float64 NaN)
                    (reflect.ValueOf reflect.float64Type (reflect.DFloat NaN))
                    (reflect.DFloat NaN) (types.Typ types.Bool) []
                    eq_refl eq_refl eq_refl eq_refl eq_refl))).
    reflexivity.
Defined.

Lemma result_in_fresh_slot_witness :
  exists left' rt d,
    getTypedObject (untypedConstant 6) = Ok left' /\
    typeMap (interp stdEnv) (Typ left') = Some rt /\
    Typ left' = types.Typ types.Int /\
    [reflect.DInt 1; reflect.DInt 2] ++ [reflect.DInt 42]
    = [reflect.DInt 1; reflect.DInt 2] ++ [d] /\
    load ([reflect.DInt 1; reflect.DInt 2] ++ [reflect.DInt 42])
      (fresh rt [reflect.DInt 1; reflect.DInt 2]) = Ok d.
Proof.
  destruct (proj1 (result_in_fresh_slot sampleMul sampleDiv stdEnv
                     (untypedConstant 6) (Int 7) token.MUL
                     [reflect.DInt 1; reflect.DInt 2]
                     {| Value := ofReflect (fresh reflect.intType [reflect.DInt 1; reflect.DInt 2]);
                        Typ := types.Typ types.Int |}
                     ([reflect.DInt 1; reflect.DInt 2] ++ [reflect.DInt 42])
                     eq_refl))
    as (left' & rt & d & H1 & H2 & H3 & H4 & H5 & H6 & H7 & H8 & H9).
  exists left', rt, d. repeat split; try assumption. symmetry. exact H3.
Defined.

Lemma shift_left_uint64_witness :
  operatorShiftLeft stdEnv (Uint64 1) (Uint 3) []
  = Err (TypeError "shift" (types.Typ types.Uint64) (types.Typ types.Uint))
  /\ operatorShiftRight stdEnv (Uint64 1) (Uint 3) []
     = Ok ({| Value := ofReflect (fresh reflect.uint64Type []);
              Typ := types.Typ types.Uint64 |},
           [] ++ [reflect.DInt (Z.shiftr 1 3)]).
Proof.
  assert (R : representable reflect.Uint64 1) by (cbv; split; [discriminate|reflexivity]).
  assert (N : 0 <= 3) by lia.
  pose proof (shift_left_uint64 sampleMul sampleDiv stdEnv (Uint64 1) (Uint 3)
                (reflect.ValueOf reflect.uint64Type (reflect.DInt 1))
                reflect.uint64Type 1 3 []
                eq_refl eq_refl eq_refl eq_refl R eq_refl N eq_refl eq_refl) as H.
  split; [exact (proj1 H)|exact (proj1 (proj2 (proj2 H)))].
Defined.

(** * Further properties of the engine *)

(** ** The operators on integers compute modulo [2^W] *)

Lemma testbit_mod_eq (w a a' n : Z) :
  0 <= n < w -> a mod 2 ^ w = a' mod 2 ^ w -> Z.testbit a n = Z.testbit a' n.
Proof.
  intros Hn E.
  rewrite <- (Z.mod_pow2_bits_low a w n), <- (Z.mod_pow2_bits_low a' w n) by lia.
  now rewrite E.
Qed.

Lemma bitwise_respectsMod (f : Z -> Z -> Z) (g : bool -> bool -> bool) :
  (forall a b n, 0 <= n -> Z.testbit (f a b) n = g (Z.testbit a n) (Z.testbit b n)) ->
  respectsMod f.
Proof.
  intros Hf w a a' b b' Hw Ea Eb. apply Z.bits_inj'. intros n Hn.
  destruct (Z.ltb_spec n w) as [L|L].
  - rewrite !Z.mod_pow2_bits_low, !Hf by lia.
    now rewrite (testbit_mod_eq w a a' n), (testbit_mod_eq w b b' n) by (lia || assumption).
  - now rewrite !Z.mod_pow2_bits_high by lia.
Qed.

Lemma integerOperation_respectsMod (op : token.Token) (f : Z -> Z -> Z) :
  integerOperation op = Some f -> respectsMod f.
Proof.
  destruct op; cbn; intros [= <-].
  - intros w a a' b b' Hw Ea Eb. now rewrite Zplus_mod, Ea, Eb, <- Zplus_mod.
  - intros w a a' b b' Hw Ea Eb. now rewrite Zminus_mod, Ea, Eb, <- Zminus_mod.
  - intros w a a' b b' Hw Ea Eb. now rewrite Zmult_mod, Ea, Eb, <- Zmult_mod.
  - apply (bitwise_respectsMod _ andb). intros. now apply Z.land_spec.
  - apply (bitwise_respectsMod _ orb). intros. now apply Z.lor_spec.
  - apply (bitwise_respectsMod _ xorb). intros. now apply Z.lxor_spec.
  - apply (bitwise_respectsMod _ (fun x y => x && negb y)). intros. now apply Z.ldiff_spec.
Qed.

Lemma isInteger_cases (K : reflect.Kind) :
  isInteger K = true ->
  (reflect.isSigned K = true /\ reflect.isUnsigned K = false) \/
  (reflect.isSigned K = false /\ reflect.isUnsigned K = true).
Proof. destruct K; cbn; intros; try discriminate; auto. Qed.

(** The case of an integer kind [K], for an operation that respects the
    residues: the slot receives the result modulo [2^W], read in the
    signedness of [K]. The right operand may be of another width. *)
Lemma integerCases_value (opZ : Z -> Z -> result Z) (f : Z -> Z -> Z)
    (K : reflect.Kind) (lv rv : reflect.Value) (rt : reflect.rtype)
    (a b : Z) (z : reflect.data) (h : heap) :
  (forall x y, opZ x y = Ok (f x y)) -> respectsMod f ->
  isInteger K = true -> reflect.kind lv = K ->
  reflect.isSigned (reflect.kind rv) = reflect.isSigned K ->
  isInteger (reflect.kind rv) = true ->
  load h lv = Ok (reflect.DInt a) -> load h rv = Ok (reflect.DInt b) ->
  reflect.Kind_ rt = K ->
  exists case,
    integerCases opZ K = Some case /\
    case lv rv (fresh rt h) (h ++ [z])
    = Ok (h ++ [reflect.DInt (reinterpret K (f a b mod 2 ^ reflect.bits K))]).
Proof.
  intros Hop Hf HK Klv Srv Irv La Lb Krt.
  pose proof (bits_integer K HK) as HW.
  destruct (isInteger_cases K HK) as [[Sg Us]|[Sg Us]].
  - eexists. split; [apply integerCases_signed, Sg|].
    rewrite (signedCase_run _ _ lv rv rt a b) by congruence.
    rewrite Hop. cbn [bind]. rewrite Krt. do 5 f_equal.
    rewrite (wrapS_wrapS (reflect.bits K) 64) by lia.
    rewrite (wrapS_small _ (wrapS _ _)) by (lia || (apply wrapS_range; lia)).
    rewrite <- (wrapS_as_reinterpret K _ Sg). apply wrapS_congr.
    apply Hf; [lia|apply wrapS_mod; lia..].
  - assert (Urv : reflect.isUnsigned (reflect.kind rv) = true).
    { unfold isInteger in Irv. rewrite Srv, Sg in Irv. exact Irv. }
    eexists. split; [apply integerCases_unsigned, Us|].
    rewrite (unsignedCase_run _ _ lv rv rt a b) by congruence.
    rewrite Hop. cbn [bind]. rewrite Krt. do 5 f_equal.
    rewrite (wrapU_wrapU (reflect.bits K) 64) by lia.
    rewrite (wrapU_small _ (wrapU _ _)) by (apply wrapU_range; lia).
    rewrite <- (wrapU_as_reinterpret K _ Us). unfold wrapU.
    apply Hf; [lia|apply Zmod_mod..].
Qed.

(** For an integer kind the switch of an arithmetic operator is the switch
    on integers. *)
Lemma orElse_integerCases (opZ : Z -> Z -> result Z) (K : reflect.Kind)
    (other : option kindCase) :
  isInteger K = true -> orElse (integerCases opZ K) other = integerCases opZ K.
Proof. destruct K; cbn; intros; try discriminate; reflexivity. Qed.

(** The switch of each of the nine operators on integers, at an integer
    kind. *)
Lemma doBinaryOp_integer (cmul cdiv : Z -> complex -> complex -> complex)
    (env : environ) (left right : Object) (lv rv : reflect.Value)
    (rt : reflect.rtype) (op : token.Token) (opZ : Z -> Z -> result Z) (h : heap) :
  isTyped (Typ left) = true -> isTyped (Typ right) = true ->
  Value left = ofReflect lv -> Value right = ofReflect rv ->
  typeMap (interp env) (Typ left) = Some rt ->
  isInteger (reflect.kind lv) = true ->
  match op with
  | token.ADD => opZ = addZ | token.SUB => opZ = subZ | token.MUL => opZ = mulZ
  | token.QUO => opZ = quoZ | token.REM => opZ = remZ | token.AND => opZ = andZ
  | token.OR => opZ = orZ | token.XOR => opZ = xorZ | token.AND_NOT => opZ = andNotZ
  | _ => False
  end ->
  doBinaryOp cmul cdiv env left right op h =
  match integerCases opZ (reflect.kind lv) with
  | Some case =>
      h' <- case lv rv (fresh rt h) (h ++ [reflect.zero (reflect.Kind_ rt)]) ;;
      Ok ({| Value := ofReflect (fresh rt h); Typ := Typ left |}, h')
  | None => Err (TypeError (operationName op) (Typ left) (Typ right))
  end.
Proof.
  intros Hl Hr Hlv Hrv Hrt HK Hop.
  destruct op; try contradiction; subst opZ; cbn [doBinaryOp operationName];
    unfold operatorAdd, operatorSubtract, operatorMultiply, operatorQuotient,
      operatorRemainder, operatorAnd, operatorOr, operatorXor, operatorAndNot;
    rewrite (binaryOperator_typed _ _ _ env left right lv rv rt h Hl Hr Hlv Hrv Hrt);
    rewrite ?(operatorAdd_integer _ HK), ?orElse_integerCases by exact HK;
    reflexivity.
Qed.

(** The seven operators that respect the residues, on integers. *)
Lemma doBinaryOp_modular (cmul cdiv : Z -> complex -> complex -> complex)
    (env : environ) (left right : Object) (lv rv : reflect.Value)
    (rt : reflect.rtype) (K K' : reflect.Kind) (op : token.Token)
    (f : Z -> Z -> Z) (a b : Z) (h : heap) :
  integerOperation op = Some f ->
  isInteger K = true -> isInteger K' = true ->
  reflect.isSigned K' = reflect.isSigned K ->
  operand h left lv K (reflect.DInt a) ->
  operand h right rv K' (reflect.DInt b) ->
  typeMap (interp env) (Typ left) = Some rt -> reflect.Kind_ rt = K ->
  doBinaryOp cmul cdiv env left right op h
  = Ok ({| Value := ofReflect (fresh rt h); Typ := Typ left |},
        h ++ [reflect.DInt (reinterpret K (f a b mod 2 ^ reflect.bits K))]).
Proof.
  intros Hop HK HK' Sg (Hl & Hlv & Klv & La) (Hr & Hrv & Krv & Lb) Hrt Krt.
  pose proof (integerOperation_respectsMod op f Hop) as Hf.
  assert (E : exists opZ,
             (forall x y, opZ x y = Ok (f x y)) /\
             match op with
             | token.ADD => opZ = addZ | token.SUB => opZ = subZ | token.MUL => opZ = mulZ
             | token.QUO => opZ = quoZ | token.REM => opZ = remZ | token.AND => opZ = andZ
             | token.OR => opZ = orZ | token.XOR => opZ = xorZ | token.AND_NOT => opZ = andNotZ
             | _ => False
             end).
  { destruct op; try discriminate Hop; injection Hop as <-;
      eexists; (split; [|reflexivity]); reflexivity. }
  destruct E as (opZ & HopZ & Hsel).
  rewrite (doBinaryOp_integer cmul cdiv env left right lv rv rt op opZ h)
    by (assumption || (rewrite Klv; exact HK)).
  rewrite Klv.
  destruct (integerCases_value opZ f K lv rv rt a b
              (reflect.zero (reflect.Kind_ rt)) h) as (case & -> & ->);
    try assumption; try congruence.
  reflexivity.
Qed.

(** X1. [Add], [Subtract], [Multiply], [And], [Or], [Xor] and [AndNot] on
    integers: the result is the operation of the integers on the values the
    operands hold, modulo [2^W], read in the signedness of the left
    operand's kind [K]. The right operand is read with the accessor of the
    left operand's signedness and converted to the left operand's type: it
    may be of another width. *)
Theorem integer_operators_modular (cmul cdiv : Z -> complex -> complex -> complex)
    (env : environ) (left right : Object) (lv rv : reflect.Value)
    (rt : reflect.rtype) (K K' : reflect.Kind) (op : token.Token)
    (f : Z -> Z -> Z) (a b : Z) (h : heap) :
  integerOperation op = Some f ->
  isInteger K = true -> isInteger K' = true ->
  reflect.isSigned K' = reflect.isSigned K ->
  operand h left lv K (reflect.DInt a) ->
  operand h right rv K' (reflect.DInt b) ->
  typeMap (interp env) (Typ left) = Some rt -> reflect.Kind_ rt = K ->
  doBinaryOp cmul cdiv env left right op h
  = Ok ({| Value := ofReflect (fresh rt h); Typ := Typ left |},
        h ++ [reflect.DInt (reinterpret K (f a b mod 2 ^ reflect.bits K))]).
Proof. exact (doBinaryOp_modular cmul cdiv env left right lv rv rt K K' op f a b h). Qed.

(** The reading of a residue in the signedness of an integer kind. *)
Lemma reinterpret_mod (K : reflect.Kind) (x : Z) :
  isInteger K = true ->
  reinterpret K (x mod 2 ^ reflect.bits K) mod 2 ^ reflect.bits K
  = x mod 2 ^ reflect.bits K.
Proof.
  intros HK. pose proof (bits_integer K HK) as HW.
  destruct (isInteger_cases K HK) as [[Sg Us]|[Sg Us]].
  - rewrite <- (wrapS_as_reinterpret K x Sg). apply wrapS_mod. lia.
  - rewrite <- (wrapU_as_reinterpret K x Us). apply Zmod_mod.
Qed.

Lemma reinterpret_representable (K : reflect.Kind) (x : Z) :
  isInteger K = true -> representable K (reinterpret K (x mod 2 ^ reflect.bits K)).
Proof.
  intros HK. pose proof (bits_integer K HK) as HW. unfold representable.
  destruct (isInteger_cases K HK) as [[Sg Us]|[Sg Us]]; rewrite Sg.
  - rewrite <- (wrapS_as_reinterpret K x Sg). apply wrapS_range. lia.
  - rewrite <- (wrapU_as_reinterpret K x Us). apply wrapU_range. lia.
Qed.

Lemma reinterpret_small (K : reflect.Kind) (x : Z) :
  isInteger K = true -> representable K x ->
  reinterpret K (x mod 2 ^ reflect.bits K) = x.
Proof.
  intros HK R. pose proof (bits_integer K HK) as HW. unfold representable in R.
  destruct (isInteger_cases K HK) as [[Sg Us]|[Sg Us]]; rewrite Sg in R.
  - rewrite <- (wrapS_as_reinterpret K x Sg). apply wrapS_small; [lia|exact R].
  - rewrite <- (wrapU_as_reinterpret K x Us). apply wrapU_small, R.
Qed.

Lemma load_fresh (t : reflect.rtype) (d : reflect.data) (h : heap) :
  load (h ++ [d]) (fresh t h) = Ok d.
Proof.
  unfold load, fresh. cbn [reflect.ptr]. rewrite lookup_app_r by lia.
  replace (length h - length h)%nat with 0%nat by lia. reflexivity.
Qed.

(** The result of an operator is an operand for the next one, and the
    operands of the call are operands still. *)
Lemma operand_result (t : types.type) (rt : reflect.rtype) (d : reflect.data) (h : heap) :
  isTyped t = true ->
  operand (h ++ [d]) {| Value := ofReflect (fresh rt h); Typ := t |}
    (fresh rt h) (reflect.Kind_ rt) d.
Proof. intros Ht. repeat split; [exact Ht|apply load_fresh]. Qed.

Lemma operand_app (h : heap) (o : Object) (v : reflect.Value) (K : reflect.Kind)
    (d z : reflect.data) :
  operand h o v K d -> operand (h ++ [z]) o v K d.
Proof. intros (H1 & H2 & H3 & H4). repeat split; auto using load_app. Qed.

(** X2. On integers of one kind, [Subtract] undoes [Add]: the difference of
    the sum and of the right operand is the left operand, whatever the sum
    wrapped to. The second call reads the result of the first in the heap;
    the operands read the same after both calls. *)
Theorem subtract_undoes_add (cmul cdiv : Z -> complex -> complex -> complex)
    (env : environ) (left right : Object) (lv rv : reflect.Value)
    (rt : reflect.rtype) (K : reflect.Kind) (a b : Z) (h : heap) :
  isInteger K = true ->
  operand h left lv K (reflect.DInt a) ->
  operand h right rv K (reflect.DInt b) ->
  representable K a ->
  typeMap (interp env) (Typ left) = Some rt -> reflect.Kind_ rt = K ->
  exists sum h1 difference h2 dv,
    doBinaryOp cmul cdiv env left right token.ADD h = Ok (sum, h1) /\
    doBinaryOp cmul cdiv env sum right token.SUB h1 = Ok (difference, h2) /\
    Typ difference = Typ left /\
    Value difference = ofReflect dv /\
    load h2 dv = Ok (reflect.DInt a) /\
    load h2 lv = Ok (reflect.DInt a) /\
    load h2 rv = Ok (reflect.DInt b).
Proof.
  intros HK Ol Or Ra Hrt Krt.
  pose proof (bits_integer K HK) as HW.
  pose proof Ol as (Hl & Hlv & Klv & La). pose proof Or as (Hr & Hrv & Krv & Lb).
  set (s := reinterpret K ((a + b) mod 2 ^ reflect.bits K)).
  pose proof (doBinaryOp_modular cmul cdiv env left right lv rv rt K K
                token.ADD Z.add a b h eq_refl HK HK eq_refl Ol Or Hrt Krt) as E1.
  fold s in E1.
  assert (Os : operand (h ++ [reflect.DInt s])
                 {| Value := ofReflect (fresh rt h); Typ := Typ left |}
                 (fresh rt h) K (reflect.DInt s)).
  { rewrite <- Krt. now apply operand_result. }
  pose proof (doBinaryOp_modular cmul cdiv env _ right _ rv rt K K
                token.SUB Z.sub s b _ eq_refl HK HK eq_refl Os
                (operand_app _ _ _ _ _ _ Or) Hrt Krt) as E2.
  assert (V : reinterpret K ((s - b) mod 2 ^ reflect.bits K) = a).
  { transitivity (reinterpret K (a mod 2 ^ reflect.bits K));
      [|exact (reinterpret_small K a HK Ra)].
    f_equal. rewrite Zminus_mod. unfold s. rewrite reinterpret_mod by exact HK.
    rewrite <- Zminus_mod. f_equal. lia. }
  rewrite V in E2.
  eexists _, _, _, _, _.
  split; [exact E1|]. split; [exact E2|].
  split; [reflexivity|]. split; [reflexivity|].
  split; [apply load_fresh|].
  split; now do 2 apply load_app.
Qed.

Lemma bitOperation_spec (op : token.Token) (g : bool -> bool -> bool) :
  bitOperation op = Some g ->
  exists f, integerOperation op = Some f /\
    forall a b n, 0 <= n -> Z.testbit (f a b) n = g (Z.testbit a n) (Z.testbit b n).
Proof.
  destruct op; cbn; intros [= <-]; eexists; (split; [reflexivity|]); intros.
  - now apply Z.land_spec.
  - now apply Z.lor_spec.
  - now apply Z.lxor_spec.
  - now apply Z.ldiff_spec.
Qed.

(** X3. [And], [Or], [Xor] and [AndNot] work bit by bit: each of the [W]
    bits of the result is the and, the or, the exclusive or, or the and-not
    of the bits of the operands at the same place, for signed kinds (in two's
    complement) as for unsigned ones; the result is representable. *)
Theorem bitwise_operators_bits (cmul cdiv : Z -> complex -> complex -> complex)
    (env : environ) (left right : Object) (lv rv : reflect.Value)
    (rt : reflect.rtype) (K : reflect.Kind) (op : token.Token)
    (g : bool -> bool -> bool) (a b : Z) (h : heap) :
  bitOperation op = Some g ->
  isInteger K = true ->
  operand h left lv K (reflect.DInt a) ->
  operand h right rv K (reflect.DInt b) ->
  typeMap (interp env) (Typ left) = Some rt -> reflect.Kind_ rt = K ->
  exists r,
    doBinaryOp cmul cdiv env left right op h
    = Ok ({| Value := ofReflect (fresh rt h); Typ := Typ left |},
          h ++ [reflect.DInt r]) /\
    representable K r /\
    forall i, 0 <= i < reflect.bits K -> bit K r i = g (bit K a i) (bit K b i).
Proof.
  intros Hg HK Ol Or Hrt Krt.
  destruct (bitOperation_spec op g Hg) as (f & Hf & Hbits).
  eexists. split; [|split].
  - exact (doBinaryOp_modular cmul cdiv env left right lv rv rt K K op f a b h
             Hf HK HK eq_refl Ol Or Hrt Krt).
  - now apply reinterpret_representable.
  - intros i Hi. unfold bit. rewrite reinterpret_mod by exact HK.
    rewrite !Z.mod_pow2_bits_low by lia. apply Hbits. lia.
Qed.

(** ** Division *)

(** The case of an integer kind on representable operands: the operation
    receives the values themselves. *)
Lemma integerCases_representable (opZ : Z -> Z -> result Z)
    (K : reflect.Kind) (lv rv : reflect.Value) (rt : reflect.rtype)
    (a b c : Z) (z : reflect.data) (h : heap) :
  isInteger K = true -> reflect.kind lv = K -> reflect.kind rv = K ->
  load h lv = Ok (reflect.DInt a) -> load h rv = Ok (reflect.DInt b) ->
  representable K a -> representable K b ->
  opZ a b = Ok c -> reflect.Kind_ rt = K ->
  exists case,
    integerCases opZ K = Some case /\
    case lv rv (fresh rt h) (h ++ [z])
    = Ok (h ++ [reflect.DInt (reinterpret K (c mod 2 ^ reflect.bits K))]).
Proof.
  intros HK Klv Krv La Lb Ra Rb Hop Krt.
  pose proof (bits_integer K HK) as HW. unfold representable in Ra, Rb.
  destruct (isInteger_cases K HK) as [[Sg Us]|[Sg Us]]; rewrite Sg in Ra, Rb.
  - eexists. split; [apply integerCases_signed, Sg|].
    rewrite (signedCase_run _ _ lv rv rt a b) by congruence.
    rewrite !wrapS_small by (lia || assumption). rewrite Hop. cbn [bind].
    rewrite Krt. do 5 f_equal.
    rewrite (wrapS_wrapS (reflect.bits K) 64) by lia.
    rewrite (wrapS_small _ (wrapS _ _)) by (lia || (apply wrapS_range; lia)).
    apply wrapS_as_reinterpret, Sg.
  - eexists. split; [apply integerCases_unsigned, Us|].
    rewrite (unsignedCase_run _ _ lv rv rt a b) by congruence.
    rewrite !wrapU_small by assumption. rewrite Hop. cbn [bind].
    rewrite Krt. do 5 f_equal.
    rewrite (wrapU_wrapU (reflect.bits K) 64) by lia.
    rewrite (wrapU_small _ (wrapU _ _)) by (apply wrapU_range; lia).
    apply wrapU_as_reinterpret, Us.
Qed.

(** The quotient of two [w]-bit signed numbers is one, but for the least
    number divided by [-1]. *)
Lemma quot_bound (P a b : Z) :
  0 < P -> - P <= a < P -> b <> 0 ->
  - P <= Z.quot a b < P \/ (a = - P /\ b = -1 /\ Z.quot a b = P).
Proof.
  intros HP Ha Hb.
  pose proof (Z.quot_rem' a b) as E.
  pose proof (Z.rem_bound_abs a b Hb) as B.
  pose proof (Z.rem_sign_mul a b Hb) as S.
  set (q := Z.quot a b) in *. set (r := Z.rem a b) in *. clearbody q r.
  destruct (Z.abs_spec r) as [[? Er]|[? Er]]; rewrite Er in B;
    destruct (Z.abs_spec b) as [[? Eb]|[? Eb]]; rewrite Eb in B; nia.
Qed.

Lemma quot_rem_unsigned (M a b : Z) :
  0 <= a < M -> 0 < b -> 0 <= Z.quot a b < M /\ 0 <= Z.rem a b < b.
Proof.
  intros Ha Hb. rewrite Z.quot_div_nonneg, Z.rem_mod_nonneg by lia.
  pose proof (Z.mod_pos_bound a b Hb).
  pose proof (Z.div_mod a b). 
  assert (0 <= a / b) by (apply Z.div_pos; lia).
  split; [|assumption]. split; [assumption|]. nia.
Qed.

Lemma rem_bound (P a b : Z) :
  - P <= b < P -> b <> 0 -> - P <= Z.rem a b < P.
Proof.
  intros Hb Nb. pose proof (Z.rem_bound_abs a b Nb). lia.
Qed.

(** X4. [Quotient] and [Remainder] on representable integers of one kind,
    the divisor not zero: the quotient is truncated toward zero and the
    remainder has the sign of the dividend ([Z.quot] and [Z.rem]); the one
    quotient that is not representable, of the least signed number by [-1],
    wraps to the dividend and does not fault; the divisor times the quotient
    plus the remainder is the dividend. *)
Theorem quotient_and_remainder (cdiv : Z -> complex -> complex -> complex)
    (env : environ) (left right : Object) (lv rv : reflect.Value)
    (rt : reflect.rtype) (K : reflect.Kind) (a b : Z) (h : heap) :
  isInteger K = true ->
  operand h left lv K (reflect.DInt a) ->
  operand h right rv K (reflect.DInt b) ->
  representable K a -> representable K b -> b <> 0 ->
  typeMap (interp env) (Typ left) = Some rt -> reflect.Kind_ rt = K ->
  exists q,
    operatorQuotient cdiv env left right h
    = Ok ({| Value := ofReflect (fresh rt h); Typ := Typ left |},
          h ++ [reflect.DInt q]) /\
    operatorRemainder env left right h
    = Ok ({| Value := ofReflect (fresh rt h); Typ := Typ left |},
          h ++ [reflect.DInt (Z.rem a b)]) /\
    (q = Z.quot a b \/
     (reflect.isSigned K = true /\ a = - 2 ^ (reflect.bits K - 1) /\ b = -1 /\ q = a)) /\
    reinterpret K ((b * q + Z.rem a b) mod 2 ^ reflect.bits K) = a.
Proof.
  intros HK (Hl & Hlv & Klv & La) (Hr & Hrv & Krv & Lb) Ra Rb Nb Hrt Krt.
  pose proof (bits_integer K HK) as HW.
  assert (Eq : quoZ a b = Ok (Z.quot a b)).
  { unfold quoZ. destruct (Z.eqb_spec b 0); [contradiction|reflexivity]. }
  assert (Er : remZ a b = Ok (Z.rem a b)).
  { unfold remZ. destruct (Z.eqb_spec b 0); [contradiction|reflexivity]. }
  assert (Rr : representable K (Z.rem a b)).
  { unfold representable in *.
    destruct (isInteger_cases K HK) as [[Sg Us]|[Sg Us]]; rewrite Sg in *.
    - now apply rem_bound.
    - destruct Ra, Rb. destruct (quot_rem_unsigned (2 ^ reflect.bits K) a b); unfold inU; lia. }
  exists (reinterpret K (Z.quot a b mod 2 ^ reflect.bits K)).
  split; [|split; [|split]].
  - unfold operatorQuotient.
    rewrite (binaryOperator_typed _ _ _ env left right lv rv rt h Hl Hr Hlv Hrv Hrt).
    rewrite Klv, (operatorQuotient_integer cdiv K HK).
    destruct (integerCases_representable quoZ K lv rv rt a b _
                (reflect.zero (reflect.Kind_ rt)) h HK Klv Krv La Lb Ra Rb Eq Krt)
      as (case & -> & ->). reflexivity.
  - unfold operatorRemainder.
    rewrite (binaryOperator_typed _ _ _ env left right lv rv rt h Hl Hr Hlv Hrv Hrt).
    rewrite Klv.
    destruct (integerCases_representable remZ K lv rv rt a b _
                (reflect.zero (reflect.Kind_ rt)) h HK Klv Krv La Lb Ra Rb Er Krt)
      as (case & -> & ->).
    now rewrite (reinterpret_small K _ HK Rr).
  - unfold representable in Ra, Rb.
    destruct (isInteger_cases K HK) as [[Sg Us]|[Sg Us]]; rewrite Sg in Ra, Rb.
    + pose proof (half_pos (reflect.bits K) (proj1 HW)) as HP.
      destruct (quot_bound (2 ^ (reflect.bits K - 1)) a b HP Ra Nb) as [B|(Ea & Eb & Eq')].
      * left. apply reinterpret_small; [exact HK|]. unfold representable. now rewrite Sg.
      * right. repeat split; try assumption.
        rewrite Eq', <- (wrapS_as_reinterpret K _ Sg), Ea.
        rewrite (wrapS_congr _ _ (- 2 ^ (reflect.bits K - 1))).
        -- apply wrapS_small; [lia|]. unfold inS. lia.
        -- rewrite (pow2_half (reflect.bits K)) by lia.
           rewrite <- (Z.mod_add (- 2 ^ (reflect.bits K - 1)) 1) by lia.
           f_equal. lia.
    + left. apply reinterpret_small; [exact HK|]. unfold representable. rewrite Sg.
      destruct Ra, Rb. destruct (quot_rem_unsigned (2 ^ reflect.bits K) a b); unfold inU; lia.
  - transitivity (reinterpret K (a mod 2 ^ reflect.bits K));
      [|exact (reinterpret_small K a HK Ra)].
    f_equal. rewrite Zplus_mod, Zmult_mod, reinterpret_mod by exact HK.
    rewrite <- Zmult_mod, <- Zplus_mod. f_equal. symmetry. apply Z.quot_rem'.
Qed.

(** ** The value of a shift to the left *)

Lemma shlZ_mod (w x a n : Z) :
  0 < w -> 0 <= n -> x mod 2 ^ w = a mod 2 ^ w ->
  shlZ w x n mod 2 ^ w = (a * 2 ^ n) mod 2 ^ w.
Proof.
  intros Hw Hn E. unfold shlZ. destruct (Z.leb_spec w n) as [L|L].
  - replace n with (n - w + w) by lia. rewrite Z.pow_add_r by lia.
    rewrite Z.mul_assoc, Z.mod_mul by (apply Z.pow_nonzero; lia). apply Zmod_0_l.
  - rewrite Z.shiftl_mul_pow2 by exact Hn.
    now rewrite Zmult_mod, E, <- Zmult_mod.
Qed.

Lemma shiftLeft_cases (K : reflect.Kind) :
  isInteger K = true -> K <> reflect.Uint64 ->
  match K with
  | reflect.Int => Some (signedShift intSize shlZ)
  | reflect.Int8 => Some (signedShift 8 shlZ)
  | reflect.Int16 => Some (signedShift 16 shlZ)
  | reflect.Int32 => Some (signedShift 32 shlZ)
  | reflect.Int64 => Some (signedShift 64 shlZ)
  | reflect.Uint => Some (unsignedShift intSize shlZ)
  | reflect.Uint8 => Some (unsignedShift 8 shlZ)
  | reflect.Uint16 => Some (unsignedShift 16 shlZ)
  | reflect.Uint32 => Some (unsignedShift 32 shlZ)
  | reflect.Uintptr => Some (unsignedShift intSize shlZ)
  | _ => None
  end
  = Some (if reflect.isSigned K then signedShift (reflect.bits K) shlZ
          else unsignedShift (reflect.bits K) shlZ).
Proof. destruct K; cbn; intros; try discriminate; try contradiction; reflexivity. Qed.

(** [ShiftLeft] as a multiplication. *)
Lemma operatorShiftLeft_value (env : environ) (left right : Object)
    (lv : reflect.Value) (rt : reflect.rtype) (K : reflect.Kind)
    (a n : Z) (h : heap) :
  isInteger K = true -> K <> reflect.Uint64 ->
  operand h left lv K (reflect.DInt a) ->
  shiftCount right h = Ok n -> 0 <= n ->
  typeMap (interp env) (Typ left) = Some rt -> reflect.Kind_ rt = K ->
  operatorShiftLeft env left right h
  = Ok ({| Value := ofReflect (fresh rt h); Typ := Typ left |},
        h ++ [reflect.DInt (reinterpret K ((a * 2 ^ n) mod 2 ^ reflect.bits K))])
  /\ (reflect.bits K <= n ->
      reinterpret K ((a * 2 ^ n) mod 2 ^ reflect.bits K) = 0).
Proof.
  intros HK NK (Hl & Hlv & Klv & La) Hc Hn Hrt Krt.
  pose proof (bits_integer K HK) as HW.
  split.
  - unfold operatorShiftLeft.
    rewrite (shiftOperator_typed _ _ env left right lv rt n h Hl Hlv Hc Hrt).
    rewrite Klv, (shiftLeft_cases K HK NK).
    destruct (isInteger_cases K HK) as [[Sg Us]|[Sg Us]]; rewrite Sg.
    + rewrite (signedShift_run _ _ lv rt a n) by congruence. cbn [bind].
      rewrite Krt. do 5 f_equal.
      rewrite (wrapS_wrapS (reflect.bits K) 64) by lia.
      rewrite (wrapS_small _ (wrapS _ _)) by (lia || (apply wrapS_range; lia)).
      rewrite <- (wrapS_as_reinterpret K _ Sg). apply wrapS_congr.
      apply shlZ_mod; [lia|lia|]. apply wrapS_mod. lia.
    + rewrite (unsignedShift_run _ _ lv rt a n) by congruence. cbn [bind].
      rewrite Krt. do 5 f_equal.
      rewrite (wrapU_wrapU (reflect.bits K) 64) by lia.
      rewrite (wrapU_small _ (wrapU _ _)) by (apply wrapU_range; lia).
      rewrite <- (wrapU_as_reinterpret K _ Us). unfold wrapU at 1.
      apply shlZ_mod; [lia|lia|]. apply Zmod_mod.
  - intros L.
    rewrite <- (shlZ_mod (reflect.bits K) a a n) by (lia || reflexivity).
    unfold shlZ. destruct (Z.leb_spec (reflect.bits K) n); [|lia].
    rewrite Zmod_0_l. apply (reinterpret_small K 0 HK).
    pose proof (half_pos (reflect.bits K) (proj1 HW)).
    unfold representable, inS, inU. destruct (reflect.isSigned K); lia.
Qed.

(** X5. [ShiftLeft] of an integer of a kind other than [Uint64] by the
    count [n] is the multiplication by [2^n] modulo [2^W], read in the
    signedness of the kind; a count of [W] or more gives zero. *)
Theorem shift_left_value (env : environ) (left right : Object)
    (lv : reflect.Value) (rt : reflect.rtype) (K : reflect.Kind)
    (a n : Z) (h : heap) :
  isInteger K = true -> K <> reflect.Uint64 ->
  operand h left lv K (reflect.DInt a) ->
  shiftCount right h = Ok n -> 0 <= n ->
  typeMap (interp env) (Typ left) = Some rt -> reflect.Kind_ rt = K ->
  operatorShiftLeft env left right h
  = Ok ({| Value := ofReflect (fresh rt h); Typ := Typ left |},
        h ++ [reflect.DInt (reinterpret K ((a * 2 ^ n) mod 2 ^ reflect.bits K))])
  /\ (reflect.bits K <= n ->
      reinterpret K ((a * 2 ^ n) mod 2 ^ reflect.bits K) = 0).
Proof. exact (operatorShiftLeft_value env left right lv rt K a n h). Qed.

Lemma shiftCount_negative_constant (z : Z) (h : heap) :
  - 2 ^ 63 <= z < 0 -> shiftCount (untypedConstant z) h = Ok (2 ^ 64 + z).
Proof.
  intros Hz. unfold shiftCount, untypedConstant. cbn [Value toExact bind].
  unfold exact_Uint64Val, fitsInt64.
  replace (- 2 ^ 63 <=? z) with true by (symmetry; apply Z.leb_le; lia).
  replace (z <? 2 ^ 63) with true by (symmetry; apply Z.ltb_lt; lia).
  cbn [andb bind fst]. unfold Value_Uint. cbn [reflect.kind reflect.typ reflect.ValueOf
    reflect.uint64Type reflect.Kind_ reflect.isUnsigned load reflect.ptr bind].
  f_equal. unfold wrapU.
  rewrite <- (Z.mod_add z 1) by lia. rewrite Z.mod_small by lia. lia.
Qed.

(** X6. A negative constant as the count of a shift is not refused: the
    constant [z], negative and in the range of [int64], is read as the
    count [2^64 + z]. So [ShiftLeft] by it gives zero (on a left operand of
    a kind other than [Uint64], which its switch has no case for), and
    [ShiftRight] by it gives [-1] for a negative operand and zero
    otherwise. *)
Theorem shift_by_negative_constant (env : environ) (left : Object)
    (lv : reflect.Value) (rt : reflect.rtype) (K : reflect.Kind)
    (a z : Z) (h : heap) :
  isInteger K = true ->
  operand h left lv K (reflect.DInt a) -> representable K a ->
  - 2 ^ 63 <= z < 0 ->
  typeMap (interp env) (Typ left) = Some rt -> reflect.Kind_ rt = K ->
  shiftCount (untypedConstant z) h = Ok (2 ^ 64 + z)
  /\ (K <> reflect.Uint64 ->
      operatorShiftLeft env left (untypedConstant z) h
      = Ok ({| Value := ofReflect (fresh rt h); Typ := Typ left |},
            h ++ [reflect.DInt 0]))
  /\ operatorShiftRight env left (untypedConstant z) h
     = Ok ({| Value := ofReflect (fresh rt h); Typ := Typ left |},
           h ++ [reflect.DInt (if a <? 0 then -1 else 0)]).
Proof.
  intros HK Ol Ra Hz Hrt Krt.
  pose proof (bits_integer K HK) as HW.
  pose proof (shiftCount_negative_constant z h Hz) as Hc.
  assert (Hn : 0 <= 2 ^ 64 + z) by lia.
  assert (HL : reflect.bits K <= 2 ^ 64 + z) by lia.
  split; [exact Hc|split].
  - intros NK.
    destruct (operatorShiftLeft_value env left (untypedConstant z) lv rt K a _ h
                HK NK Ol Hc Hn Hrt Krt) as [E Z0].
    rewrite E, (Z0 HL). reflexivity.
  - destruct Ol as (Hl & Hlv & Klv & La).
    destruct (operatorShiftRight_value env left (untypedConstant z) lv rt K a _ h
                HK Hl Hlv Klv La Ra Hc Hn Hrt Krt) as [E _].
    rewrite E. do 5 f_equal. unfold representable in Ra.
    destruct (isInteger_cases K HK) as [[Sg Us]|[Sg Us]]; rewrite Sg in Ra.
    + rewrite <- (shrZ_signed (reflect.bits K)) by (lia || assumption).
      unfold shrZ. destruct (Z.leb_spec (reflect.bits K) (2 ^ 64 + z)); [reflexivity|lia].
    + rewrite <- (shrZ_unsigned (reflect.bits K)) by (lia || assumption).
      unfold shrZ. destruct (Z.leb_spec (reflect.bits K) (2 ^ 64 + z)); [reflexivity|lia].
Qed.

(** ** Floats *)

Lemma Value_Float_load (h : heap) (v : reflect.Value) (x : float) :
  isFloat (reflect.kind v) = true ->
  load h v = Ok (reflect.DFloat x) -> Value_Float h v = Ok x.
Proof.
  intros Hk Hl. unfold Value_Float.
  destruct (reflect.kind v); try discriminate Hk; now rewrite Hl.
Qed.

Lemma Value_SetFloat_fresh (t : reflect.rtype) (x : float) (z : reflect.data) (h : heap) :
  isFloat (reflect.Kind_ t) = true ->
  Value_SetFloat (fresh t h) x (h ++ [z])
  = Ok (h ++ [reflect.DFloat (if reflect.Kind_eqb (reflect.Kind_ t) reflect.Float32
                              then float32 x else x)]).
Proof.
  intros Hk. unfold Value_SetFloat, reflect.kind, fresh. cbn [reflect.ptr reflect.typ].
  destruct (reflect.Kind_ t); try discriminate Hk; apply (store_fresh _ t).
Qed.

(** X7. [Quotient] on floats never faults: it returns the IEEE quotient
    for whatever operands. When the divisor is a zero, of either sign, the
    result is an infinity or a NaN. *)
Theorem float_division_by_zero (cdiv : Z -> complex -> complex -> complex)
    (env : environ) (left right : Object) (lv rv : reflect.Value)
    (rt : reflect.rtype) (K : reflect.Kind) (a b : float) (h : heap) :
  isFloat K = true ->
  operand h left lv K (reflect.DFloat a) ->
  operand h right rv K (reflect.DFloat b) ->
  typeMap (interp env) (Typ left) = Some rt -> reflect.Kind_ rt = K ->
  exists r,
    operatorQuotient cdiv env left right h
    = Ok ({| Value := ofReflect (fresh rt h); Typ := Typ left |},
          h ++ [reflect.DFloat r]) /\
    (forall s, b = S754_zero s -> r = NaN \/ exists s', r = S754_infinity s').
Proof.
  intros HK (Hl & Hlv & Klv & La) (Hr & Hrv & Krv & Lb) Hrt Krt.
  unfold operatorQuotient.
  rewrite (binaryOperator_typed _ _ _ env left right lv rv rt h Hl Hr Hlv Hrv Hrt).
  rewrite Klv.
  assert (Fl : isFloat (reflect.kind lv) = true) by congruence.
  assert (Fr : isFloat (reflect.kind rv) = true) by congruence.
  assert (Ft : isFloat (reflect.Kind_ rt) = true) by congruence.
  destruct K; try discriminate HK; cbn [orElse integerCases floatingCases];
    unfold floatCase;
    rewrite (Value_Float_load _ _ a Fl (load_app _ _ _ _ La)),
      (Value_Float_load _ _ b Fr (load_app _ _ _ _ Lb)); cbn [bind];
    rewrite (Value_SetFloat_fresh rt _ _ h Ft), Krt; cbn [reflect.Kind_eqb bind];
    eexists; (split; [reflexivity|]); intros s ->; unfold float64.
  - cbn [float32]. unfold div32.
    destruct (float32 a) as [sa|sa| |sa ma ea]; cbn; eauto.
  - unfold div64. destruct a as [sa|sa| |sa ma ea]; cbn; eauto.
Qed.

(** ** The registry *)

(** X8. When the registry has no storage type for the type of the left
    operand, each of the eleven arithmetic and bitwise operators ends in
    [log.Fatal], with a message that starts with the name of its function.
    It does so once the operands are normalized and the count of a shift is
    read, and before it looks at the kind or at the value of an operand: a
    zero divisor or an unsupported kind is not reported then. *)
Theorem registry_miss_is_fatal (cmul cdiv : Z -> complex -> complex -> complex)
    (env : environ) (left right : Object) (lv rv : reflect.Value)
    (op : token.Token) (h : heap) :
  arithmeticOrBitwise op = true ->
  isTyped (Typ left) = true -> Value left = ofReflect lv ->
  isTyped (Typ right) = true -> Value right = ofReflect rv ->
  (op = token.SHL \/ op = token.SHR -> exists n, shiftCount right h = Ok n) ->
  typeMap (interp env) (Typ left) = None ->
  doBinaryOp cmul cdiv env left right op h
  = Err (Fatal (functionName op ++ ": Couldn't get reflect.Type from types.Type")).
Proof.
  intros Hop Hl Hlv Hr Hrv Hc Hrt.
  assert (B : forall fname operation cases,
             binaryOperator fname operation cases env left right h
             = Err (Fatal (fname ++ ": Couldn't get reflect.Type from types.Type"))).
  { intros. unfold binaryOperator.
    rewrite (getTypedObject_typed _ Hl), (getTypedObject_typed _ Hr). cbn [bind].
    rewrite Hlv, Hrv. cbn [toReflect bind]. unfold getReflectType. now rewrite Hrt. }
  assert (S : (exists n, shiftCount right h = Ok n) -> forall fname cases,
             shiftOperator fname cases env left right h
             = Err (Fatal (fname ++ ": Couldn't get reflect.Type from types.Type"))).
  { intros [n Hn] fname cases. unfold shiftOperator.
    rewrite (getTypedObject_typed _ Hl). cbn [bind].
    rewrite Hlv. cbn [toReflect bind]. rewrite Hn. cbn [bind].
    unfold getReflectType. now rewrite Hrt. }
  destruct op; try discriminate Hop; cbn [doBinaryOp functionName];
    try apply B; apply S; apply Hc; auto.
Qed.

(** ** The normalizer on constants *)

Lemma isTyped_false (t : types.type) :
  isTyped t = false ->
  exists k, types.Underlying t = types.Basic k /\ types.isUntyped k = true.
Proof.
  unfold isTyped. destruct (types.Underlying t) as [k| | | | | |]; try discriminate.
  intros H. exists k. split; [reflexivity|]. now destruct (types.isUntyped k).
Qed.

Lemma representable_wrapS (K : reflect.Kind) (z : Z) :
  reflect.isSigned K = true -> representable K (wrapS (reflect.bits K) z).
Proof.
  intros Sg. unfold representable. rewrite Sg. apply wrapS_range.
  apply bits_integer. unfold isInteger. now rewrite Sg.
Qed.

(** X11. The result of the normalizer on an untyped constant satisfies the
    Object invariant: its type is a typed basic type, its value is a
    [reflect.Value] of that type's storage type and holds a datum of its
    kind (an integer in the range of the kind). Normalizing it again
    returns it unchanged. *)
Theorem normalizer_result (obj obj' : Object) :
  isTyped (Typ obj) = false ->
  getTypedObject obj = Ok obj' ->
  basicInvariant obj' /\ isTyped (Typ obj') = true /\ getTypedObject obj' = Ok obj'.
Proof.
  intros Hu H.
  assert (I : basicInvariant obj').
  { destruct (isTyped_false _ Hu) as (k & Ek & Uk).
    unfold getTypedObject in H. rewrite Hu, Ek in H. cbn [toBasic bind] in H.
    destruct (toExact (Value obj)) as [ev|]; cbn [bind] in H; [|discriminate H].
    destruct k; try discriminate Uk; bind_inv H; try discriminate H;
      injection H as <-; eexists _, _, _;
      (split; [reflexivity|]); (split; [reflexivity|]);
      (split; [reflexivity|]); (split; [reflexivity|]); cbn.
    - reflexivity.
    - split; [reflexivity|]. apply (representable_wrapS reflect.Int). reflexivity.
    - split; [reflexivity|]. apply (representable_wrapS reflect.Int32). reflexivity.
    - reflexivity.
    - now right.
    - reflexivity. }
  split; [exact I|].
  assert (T : isTyped (Typ obj') = true).
  { destruct I as (k & rt & d & Et & Uk & _). rewrite Et. unfold isTyped. cbn.
    now rewrite Uk. }
  split; [exact T|]. now apply getTypedObject_typed.
Qed.

(** X12. A constant whose value is unknown normalizes, without a fault, to
    the zero value of the default type of its kind: [false], [0], [0.0],
    [0+0i], the rune 0, the empty string. *)
Theorem unknown_constant_is_zero (obj : Object) (k k' : types.BasicKind)
    (rt : reflect.rtype) :
  defaultKind k = Some k' -> basicRtype k' = Some rt ->
  Typ obj = types.Typ k -> Value obj = ofExact exact.Unknown ->
  getTypedObject obj
  = Ok {| Value := ofReflect (reflect.ValueOf rt (reflect.zero (reflect.Kind_ rt)));
          Typ := types.Typ k' |}.
Proof.
  intros Hd Hrt Ht Hv. unfold getTypedObject. rewrite Ht, Hv.
  destruct k; try discriminate Hd; injection Hd as <-; injection Hrt as <-;
    reflexivity.
Qed.

(** ** More on comparisons *)

Section MoreComparisons.

Variable AssignableTo : types.type -> types.type -> bool.
Variable Convert : heap -> reflect.Value -> reflect.rtype -> result reflect.Value.

Lemma ordered_typed zcmp fcmp scmp (left right : Object) (lv rv : reflect.Value)
    (K K' : reflect.Kind) (dl dr : reflect.data) (h : heap) :
  operand h left lv K dl -> operand h right rv K' dr ->
  ordered zcmp fcmp scmp left right h
  = match K with
    | reflect.Int | reflect.Int8 | reflect.Int16 | reflect.Int32 | reflect.Int64 =>
        a <- Value_Int h lv ;; b <- Value_Int h rv ;; Ok (zcmp a b)
    | reflect.Uint | reflect.Uint8 | reflect.Uint16 | reflect.Uint32
    | reflect.Uint64 | reflect.Uintptr =>
        a <- Value_Uint h lv ;; b <- Value_Uint h rv ;; Ok (zcmp a b)
    | reflect.Float32 | reflect.Float64 =>
        a <- Value_Float h lv ;; b <- Value_Float h rv ;; Ok (fcmp a b)
    | reflect.String =>
        a <- Value_String h lv ;; b <- Value_String h rv ;; Ok (scmp a b)
    | _ => Err (TypeError "ordered comparison" (Typ left) (Typ right))
    end.
Proof.
  intros (Hl & Hlv & Klv & La) (Hr & Hrv & Krv & Lb). unfold ordered.
  rewrite (getTypedObject_typed _ Hl), (getTypedObject_typed _ Hr). cbn [bind].
  rewrite Hlv, Hrv. cbn [toReflect bind]. now rewrite Klv.
Qed.

Lemma ordered_integers zcmp fcmp scmp (left right : Object) (lv rv : reflect.Value)
    (K K' : reflect.Kind) (a b : Z) (h : heap) :
  isInteger K = true -> isInteger K' = true ->
  reflect.isSigned K' = reflect.isSigned K ->
  operand h left lv K (reflect.DInt a) -> operand h right rv K' (reflect.DInt b) ->
  ordered zcmp fcmp scmp left right h = Ok (zcmp a b).
Proof.
  intros HK HK' Sg Ol Or.
  rewrite (ordered_typed _ _ _ left right lv rv K K' _ _ h Ol Or).
  destruct Ol as (Hl & Hlv & Klv & La), Or as (Hr & Hrv & Krv & Lb).
  destruct (isInteger_cases K HK) as [[S U]|[S U]].
  - assert (E : Value_Int h lv = Ok a) by (apply Value_Int_load; congruence).
    assert (E' : Value_Int h rv = Ok b) by (apply Value_Int_load; congruence).
    destruct K; try discriminate S; now rewrite E, E'.
  - assert (U' : reflect.isUnsigned K' = true).
    { unfold isInteger in HK'. rewrite Sg, S in HK'. exact HK'. }
    assert (E : Value_Uint h lv = Ok a) by (apply Value_Uint_load; congruence).
    assert (E' : Value_Uint h rv = Ok b) by (apply Value_Uint_load; congruence).
    destruct K; try discriminate U; now rewrite E, E'.
Qed.

(** The ordered comparisons on integers. *)
Lemma comparisonValue_integers (left right : Object) (lv rv : reflect.Value)
    (K K' : reflect.Kind) (a b : Z) (h : heap) :
  isInteger K = true -> isInteger K' = true ->
  reflect.isSigned K' = reflect.isSigned K ->
  operand h left lv K (reflect.DInt a) -> operand h right rv K' (reflect.DInt b) ->
  comparisonValue AssignableTo Convert token.LSS left right h = Ok (a <? b)
  /\ comparisonValue AssignableTo Convert token.GTR left right h = Ok (b <? a)
  /\ comparisonValue AssignableTo Convert token.LEQ left right h = Ok (negb (b <? a))
  /\ comparisonValue AssignableTo Convert token.GEQ left right h = Ok (negb (a <? b))
  /\ comparisonValue AssignableTo Convert token.GTR left right h
     = comparisonValue AssignableTo Convert token.LSS right left h.
Proof.
  intros HK HK' Sg Ol Or. cbn [comparisonValue].
  rewrite !(ordered_integers _ _ _ left right lv rv K K' a b h HK HK' Sg Ol Or).
  rewrite (ordered_integers _ _ _ right left rv lv K' K b a h HK' HK (eq_sym Sg) Or Ol).
  rewrite Z.gtb_ltb, Z.geb_leb, (Z.leb_antisym b a), (Z.leb_antisym a b).
  repeat split; reflexivity.
Qed.

(** X13. The four ordered comparisons on integers compare the values the
    operands hold, in full: the right operand is not converted to the width
    of the left one. [Greater] is [Less] of the operands exchanged,
    [LessEqual] is the negation of [Greater] and [GreaterEqual] the
    negation of [Less]. *)
Theorem ordered_comparisons_integers (left right : Object) (lv rv : reflect.Value)
    (K K' : reflect.Kind) (a b : Z) (h : heap) :
  isInteger K = true -> isInteger K' = true ->
  reflect.isSigned K' = reflect.isSigned K ->
  operand h left lv K (reflect.DInt a) -> operand h right rv K' (reflect.DInt b) ->
  comparisonValue AssignableTo Convert token.LSS left right h = Ok (a <? b)
  /\ comparisonValue AssignableTo Convert token.GTR left right h = Ok (b <? a)
  /\ comparisonValue AssignableTo Convert token.LEQ left right h = Ok (negb (b <? a))
  /\ comparisonValue AssignableTo Convert token.GEQ left right h = Ok (negb (a <? b))
  /\ comparisonValue AssignableTo Convert token.GTR left right h
     = comparisonValue AssignableTo Convert token.LSS right left h.
Proof. exact (comparisonValue_integers left right lv rv K K' a b h). Qed.

(** X14. A NaN is unordered: when an operand of an ordered comparison on
    floats is a NaN, [Less], [Greater], [LessEqual] and [GreaterEqual] are
    all false. *)
Theorem ordered_comparisons_nan (left right : Object) (lv rv : reflect.Value)
    (K K' : reflect.Kind) (a b : float) (op : token.Token) (h : heap) :
  isFloat K = true -> isFloat K' = true ->
  operand h left lv K (reflect.DFloat a) -> operand h right rv K' (reflect.DFloat b) ->
  isNaN a || isNaN b = true ->
  comparison op = true -> op <> token.EQL ->
  comparisonValue AssignableTo Convert op left right h = Ok false.
Proof.
  intros HK HK' Ol Or N Hop Ne.
  assert (E : forall zcmp fcmp scmp,
             ordered zcmp fcmp scmp left right h = Ok (fcmp a b)).
  { intros. rewrite (ordered_typed _ _ _ left right lv rv K K' _ _ h Ol Or).
    destruct Ol as (Hl & Hlv & Klv & La), Or as (Hr & Hrv & Krv & Lb).
    assert (Ea : Value_Float h lv = Ok a) by (apply Value_Float_load; congruence).
    assert (Eb : Value_Float h rv = Ok b) by (apply Value_Float_load; congruence).
    destruct K; try discriminate HK; now rewrite Ea, Eb. }
  assert (C : SFcompare a b = None /\ SFcompare b a = None).
  { destruct a, b; try discriminate N; split; reflexivity. }
  destruct C as [C1 C2].
  destruct op; try discriminate Hop; try contradiction; cbn [comparisonValue];
    rewrite E; unfold SFltb, SFleb; now rewrite ?C1, ?C2.
Qed.

Lemma compare_cont_Eq_antisym (m m' : positive) :
  Pos.compare_cont Eq m' m = CompOpp (Pos.compare_cont Eq m m').
Proof. symmetry. apply (Pos.compare_cont_antisym m m' Eq). Qed.

Lemma SFeqb_sym (x y : float) : SFeqb x y = SFeqb y x.
Proof.
  unfold SFeqb.
  destruct x as [[]|[]| |[] m e], y as [[]|[]| |[] m' e']; cbn; try reflexivity;
    rewrite (Z.compare_antisym e e'), (compare_cont_Eq_antisym m m');
    destruct (e ?= e'), (Pos.compare_cont Eq m m'); reflexivity.
Qed.

Lemma data_eqb_sym (x y : reflect.data) : data_eqb x y = data_eqb y x.
Proof.
  destruct x as [b|z|f|c|s|[p|]], y as [b'|z'|f'|c'|s'|[p'|]]; cbn; try reflexivity.
  - now destruct b, b'.
  - apply Z.eqb_sym.
  - apply SFeqb_sym.
  - now rewrite (SFeqb_sym (fst c)), (SFeqb_sym (snd c)).
  - apply String.eqb_sym.
  - apply Z.eqb_sym.
Qed.

Lemma BasicKind_eqb_sym (a b : types.BasicKind) :
  types.BasicKind_eqb a b = types.BasicKind_eqb b a.
Proof. destruct a, b; reflexivity. Qed.

Lemma Identical_sym (x y : types.type) : types.Identical x y = types.Identical y x.
Proof.
  revert y. induction x; destruct y; cbn; try reflexivity;
    rewrite ?IHx, ?IHx1, ?IHx2; auto using BasicKind_eqb_sym, String.eqb_sym.
Qed.

Lemma Kind_eqb_eq (a b : reflect.Kind) : reflect.Kind_eqb a b = true -> a = b.
Proof. destruct a, b; cbn; intros; try discriminate; reflexivity. Qed.

Lemma Kind_eqb_sym (a b : reflect.Kind) : reflect.Kind_eqb a b = reflect.Kind_eqb b a.
Proof. destruct a, b; reflexivity. Qed.

Lemma interface_eq_sym (x y : reflect.rtype * reflect.data) :
  interface_eq x y = interface_eq y x.
Proof.
  unfold interface_eq, reflect.rtype_eqb.
  rewrite (String.eqb_sym (reflect.String_ (fst y))), (Kind_eqb_sym (reflect.Kind_ (fst y))).
  destruct (String.eqb _ _); cbn [andb negb]; [|reflexivity].
  destruct (reflect.Kind_eqb _ _) eqn:E; cbn [negb]; [|reflexivity].
  apply Kind_eqb_eq in E. rewrite E, (data_eqb_sym (snd x)). reflexivity.
Qed.

Lemma load_fault (h : heap) (v : reflect.Value) (f : fault) :
  load h v = Err f -> f = RuntimeError InvalidAddress.
Proof.
  unfold load. destruct (reflect.ptr v); [discriminate|].
  destruct (h !! a); [discriminate|]. now intros [= <-].
Qed.

(** X15. [Equal] is symmetric: on two operands, each the untyped nil or a
    typed value, whose types are identical when both are typed, [equal] is
    the same, or the fault is the same, when the operands are exchanged. *)
Theorem equal_symmetric (left right : Object) (h : heap) :
  nilOrTyped left -> nilOrTyped right ->
  (isTyped (Typ left) = true -> isTyped (Typ right) = true ->
   types.Identical (Typ left) (Typ right) = true) ->
  equalValue AssignableTo Convert left right h
  = equalValue AssignableTo Convert right left h.
Proof.
  intros [Nl|(Tl & lv & Hlv)] [Nr|(Tr & rv & Hrv)] Hid; unfold equalValue.
  - now rewrite !(equalOperand_nil _ Nl), !(equalOperand_nil _ Nr).
  - now rewrite !(equalOperand_nil _ Nl), !(equalOperand_typed _ rv Tr Hrv).
  - now rewrite !(equalOperand_nil _ Nr), !(equalOperand_typed _ lv Tl Hlv).
  - rewrite !(equalOperand_typed _ lv Tl Hlv), !(equalOperand_typed _ rv Tr Hrv).
    cbn [bind]. rewrite (Identical_sym (Typ right)), (Hid Tl Tr).
    unfold Value_Interface.
    destruct (load h lv) as [dl|fl] eqn:El, (load h rv) as [dr|fr] eqn:Er; cbn [bind].
    + apply interface_eq_sym.
    + reflexivity.
    + reflexivity.
    + now rewrite (load_fault _ _ _ El), (load_fault _ _ _ Er).
Qed.

(** X16. On two integers of one type, [Equal] is the equality of the values
    they hold, and it agrees with the order: of [Less], [Equal] and
    [Greater], exactly one is true. *)
Theorem equal_agrees_with_order (left right : Object) (lv rv : reflect.Value)
    (K : reflect.Kind) (a b : Z) (h : heap) :
  isInteger K = true ->
  operand h left lv K (reflect.DInt a) -> operand h right rv K (reflect.DInt b) ->
  types.Identical (Typ left) (Typ right) = true ->
  reflect.typ lv = reflect.typ rv ->
  comparisonValue AssignableTo Convert token.EQL left right h = Ok (a =? b)
  /\ exists lt eq gt,
       comparisonValue AssignableTo Convert token.LSS left right h = Ok lt /\
       comparisonValue AssignableTo Convert token.EQL left right h = Ok eq /\
       comparisonValue AssignableTo Convert token.GTR left right h = Ok gt /\
       ((lt = true /\ eq = false /\ gt = false) \/
        (lt = false /\ eq = true /\ gt = false) \/
        (lt = false /\ eq = false /\ gt = true)).
Proof.
  intros HK Ol Or Hid Ht.
  destruct (comparisonValue_integers left right lv rv K K a b h
              HK HK eq_refl Ol Or) as (L & G & _).
  assert (E : comparisonValue AssignableTo Convert token.EQL left right h = Ok (a =? b)).
  { destruct Ol as (Hl & Hlv & Klv & La), Or as (Hr & Hrv & Krv & Lb).
    cbn [comparisonValue]. unfold equalValue.
    rewrite (equalOperand_typed _ lv Hl Hlv), (equalOperand_typed _ rv Hr Hrv).
    cbn [bind]. rewrite Hid. unfold Value_Interface. rewrite La, Lb. cbn [bind].
    unfold interface_eq. cbn [fst snd]. rewrite Ht, rtype_eqb_refl. cbn [negb].
    unfold reflect.kind in Krv. rewrite Krv.
    replace (reflect.isComparable K) with true
      by (destruct K; try discriminate HK; reflexivity).
    reflexivity. }
  split; [exact E|].
  exists (a <? b), (a =? b), (b <? a). repeat split; try assumption.
  destruct (Z.ltb_spec a b), (Z.eqb_spec a b), (Z.ltb_spec b a); auto; lia.
Qed.

(** X17. A comparison whose result type is a named type builds its result
    after it has compared. When the registry has no storage type for the
    named type, it ends in [log.Fatal] with the name of its function; when
    the storage type is not of kind [Bool], it ends in the panic of
    [SetBool]. *)
Theorem comparison_named_type_faults (env : environ) (left right : Object)
    (op : token.Token) (typ : types.type) (b : bool) (h : heap) :
  comparisonValue AssignableTo Convert op left right h = Ok b ->
  types.isNamed typ = true ->
  (typeMap (interp env) typ = None ->
   doBinaryComparisonOp AssignableTo Convert env left right op typ h
   = Err (Fatal (functionName op ++ ": Couldn't get reflect.Type from types.Type")))
  /\ (forall rt, typeMap (interp env) typ = Some rt ->
        reflect.Kind_ rt <> reflect.Bool ->
        doBinaryComparisonOp AssignableTo Convert env left right op typ h
        = Err (ValueError "reflect.Value.SetBool" (reflect.Kind_ rt))).
Proof.
  intros Hb Hn.
  assert (E : exists alloc,
             (alloc = getSettableZeroVal \/ alloc = New_Elem) /\
             doBinaryComparisonOp AssignableTo Convert env left right op typ h
             = boolObject (functionName op) alloc env typ b h).
  { destruct op; try discriminate Hb; cbn [comparisonValue] in Hb;
      cbn [doBinaryComparisonOp functionName];
      unfold operatorLess, operatorGreater, operatorLessEqual,
        operatorGreaterEqual, operatorEqual; rewrite Hb; cbn [bind]; eauto. }
  destruct E as (alloc & Ha & ->). unfold boolObject, getReflectType. rewrite Hn.
  split.
  - now intros ->.
  - intros rt -> Hk.
    assert (A : alloc rt h = (fresh rt h, h ++ [reflect.zero (reflect.Kind_ rt)]))
      by (destruct Ha; subst alloc; reflexivity).
    rewrite A. unfold Value_SetBool, reflect.kind, fresh. cbn [reflect.ptr reflect.typ].
    destruct (reflect.Kind_ rt); try reflexivity. now destruct Hk.
Qed.

End MoreComparisons.

(** ** The faults of the arithmetic and bitwise operators *)

Ltac fault_cases H :=
  repeat match type of H with
    | bind ?e _ = Err _ =>
        let E := fresh "E" in destruct e eqn:E; cbn [bind] in H
    | (if ?c then _ else _) = Err _ => destruct c
    | match ?x with _ => _ end = Err _ => destruct x
    | Ok _ = Err _ => discriminate H
    end.

Lemma load_below h v f : load h v = Err f -> raisedBelow f = true.
Proof. intros H. now rewrite (load_fault _ _ _ H). Qed.

Lemma store_below m v d h f : store m v d h = Err f -> raisedBelow f = true.
Proof. unfold store. intros H. fault_cases H; now injection H as <-. Qed.

Lemma getters_below h v f :
  Value_Int h v = Err f \/ Value_Uint h v = Err f \/ Value_Float h v = Err f \/
  Value_Complex h v = Err f \/ Value_String h v = Err f ->
  raisedBelow f = true.
Proof.
  unfold Value_Int, Value_Uint, Value_Float, Value_Complex, Value_String.
  intros H. repeat destruct H as [H|H];
    fault_cases H; injection H as <-;
    first [reflexivity | eauto using load_below].
Qed.

Lemma setters_below v h f :
  (exists x, Value_SetInt v x h = Err f) \/ (exists x, Value_SetUint v x h = Err f) \/
  (exists x, Value_SetFloat v x h = Err f) \/ (exists x, Value_SetComplex v x h = Err f) \/
  (exists x, Value_SetString v x h = Err f) ->
  raisedBelow f = true.
Proof.
  unfold Value_SetInt, Value_SetUint, Value_SetFloat, Value_SetComplex, Value_SetString.
  intros H. repeat destruct H as [H|H]; destruct H as [x H];
    fault_cases H; try (injection H as <-);
    first [reflexivity | eauto using store_below].
Qed.

Lemma integerOp_below (op : Z -> Z -> result Z) :
  op = addZ \/ op = subZ \/ op = mulZ \/ op = quoZ \/ op = remZ \/
  op = andZ \/ op = orZ \/ op = xorZ \/ op = andNotZ ->
  forall x y f, op x y = Err f -> raisedBelow f = true.
Proof.
  intros H x y f E. repeat destruct H as [H|H]; subst op;
    unfold addZ, subZ, mulZ, quoZ, remZ, andZ, orZ, xorZ, andNotZ in E;
    fault_cases E; now injection E as <-.
Qed.

Lemma signedCase_below w op :
  (forall x y f, op x y = Err f -> raisedBelow f = true) -> faultsBelow (signedCase w op).
Proof.
  intros Hop lv rv nv h f H. unfold signedCase in H. fault_cases H;
    try (injection H as <-); eauto 8 using getters_below, setters_below.
Qed.

Lemma unsignedCase_below w op :
  (forall x y f, op x y = Err f -> raisedBelow f = true) -> faultsBelow (unsignedCase w op).
Proof.
  intros Hop lv rv nv h f H. unfold unsignedCase in H. fault_cases H;
    try (injection H as <-); eauto 8 using getters_below, setters_below.
Qed.

Lemma floatCase_below T op : faultsBelow (floatCase T op).
Proof.
  intros lv rv nv h f H. unfold floatCase in H. fault_cases H;
    try (injection H as <-); eauto 8 using getters_below, setters_below.
Qed.

Lemma complexCase_below T op : faultsBelow (complexCase T op).
Proof.
  intros lv rv nv h f H. unfold complexCase in H. fault_cases H;
    try (injection H as <-); eauto 8 using getters_below, setters_below.
Qed.

Lemma stringCase_below : faultsBelow stringCase.
Proof.
  intros lv rv nv h f H. unfold stringCase in H. fault_cases H;
    try (injection H as <-); eauto 8 using getters_below, setters_below.
Qed.

Lemma signedShift_below w op : shiftFaultsBelow (signedShift w op).
Proof.
  intros lv amt nv h f H. unfold signedShift in H. fault_cases H;
    try (injection H as <-); eauto 8 using getters_below, setters_below.
Qed.

Lemma unsignedShift_below w op : shiftFaultsBelow (unsignedShift w op).
Proof.
  intros lv amt nv h f H. unfold unsignedShift in H. fault_cases H;
    try (injection H as <-); eauto 8 using getters_below, setters_below.
Qed.

Lemma integerCases_below op k c :
  op = addZ \/ op = subZ \/ op = mulZ \/ op = quoZ \/ op = remZ \/
  op = andZ \/ op = orZ \/ op = xorZ \/ op = andNotZ ->
  integerCases op k = Some c -> faultsBelow c.
Proof.
  intros Hop. pose proof (integerOp_below op Hop) as B.
  destruct k; cbn; intros [= <-];
    auto using signedCase_below, unsignedCase_below.
Qed.

Lemma floatingCases_below f32 f64 c64 c128 k c :
  floatingCases f32 f64 c64 c128 k = Some c -> faultsBelow c.
Proof.
  destruct k; cbn; intros [= <-]; auto using floatCase_below, complexCase_below.
Qed.

Lemma orElse_below (x y : option kindCase) c :
  (forall c, x = Some c -> faultsBelow c) -> (forall c, y = Some c -> faultsBelow c) ->
  orElse x y = Some c -> faultsBelow c.
Proof. destruct x; cbn; auto. Qed.

Lemma toBasic_below (t : types.type) (f : fault) :
  toBasic t = Err f -> raisedBelow f = true.
Proof. unfold toBasic. intros H. fault_cases H; now injection H as <-. Qed.

Lemma toExact_below (x : iface) (f : fault) :
  toExact x = Err f -> raisedBelow f = true.
Proof. unfold toExact. intros H. fault_cases H; now injection H as <-. Qed.

Lemma toReflect_below (x : iface) (f : fault) :
  toReflect x = Err f -> raisedBelow f = true.
Proof. unfold toReflect. intros H. fault_cases H; now injection H as <-. Qed.

Lemma exact_below (x : exact.Value) (f : fault) :
  exact_BoolVal x = Err f \/ exact_StringVal x = Err f \/
  exact_Int64Val x = Err f \/ exact_Uint64Val x = Err f \/
  exact_Float64Val x = Err f \/
  exact_Real x = Err f \/ exact_Imag x = Err f ->
  raisedBelow f = true.
Proof.
  unfold exact_BoolVal, exact_StringVal, exact_Int64Val, exact_Uint64Val,
    exact_Float64Val, exact_Real, exact_Imag.
  intros H. repeat destruct H as [H|H]; fault_cases H; now injection H as <-.
Qed.

Lemma getTypedObject_faults (o : Object) (f : fault) :
  getTypedObject o = Err f ->
  raisedBelow f = true \/ f = Fatal "getTypedObject: Got untyped nil".
Proof.
  unfold getTypedObject. intros H.
  fault_cases H; injection H as <-; auto;
    left; first [ solve [eauto using toBasic_below, toExact_below]
                | solve [eapply exact_below; eauto 8] ].
Qed.

Lemma shiftCount_below (right : Object) (h : heap) (f : fault) :
  shiftCount right h = Err f -> raisedBelow f = true.
Proof.
  unfold shiftCount. intros H.
  destruct (Value right) as [rv|c|]; cbn [toExact bind] in H.
  - eapply getters_below; eauto.
  - destruct (exact_Uint64Val c) as [v64|fe] eqn:E; cbn [bind] in H.
    + eapply getters_below; eauto.
    + injection H as <-. eapply exact_below; eauto 8.
  - now injection H as <-.
Qed.

(** The faults of an operator built on [binaryOperator]. *)
Lemma binaryOperator_faults fname operation cases env left right h f :
  (forall k c, cases k = Some c -> faultsBelow c) ->
  binaryOperator fname operation cases env left right h = Err f ->
  raisedBelow f = true
  \/ f = Fatal "getTypedObject: Got untyped nil"
  \/ f = Fatal (fname ++ ": Couldn't get reflect.Type from types.Type")
  \/ exists left' right' lv,
       getTypedObject left = Ok left' /\ getTypedObject right = Ok right' /\
       Value left' = ofReflect lv /\ cases (reflect.kind lv) = None /\
       f = TypeError operation (Typ left') (Typ right').
Proof.
  intros Hc H. unfold binaryOperator in H.
  destruct (getTypedObject left) as [l|fl] eqn:El; cbn [bind] in H;
    [|injection H as <-; destruct (getTypedObject_faults _ _ El); auto].
  destruct (getTypedObject right) as [r|fr] eqn:Er; cbn [bind] in H;
    [|injection H as <-; destruct (getTypedObject_faults _ _ Er); auto].
  destruct (Value l) as [lv| |] eqn:Vl; cbn [toReflect bind] in H;
    try (injection H as <-; now left).
  destruct (Value r) as [rv| |] eqn:Vr; cbn [toReflect bind] in H;
    try (injection H as <-; now left).
  unfold getReflectType in H. destruct (typeMap _ _) as [rt|];
    [|injection H as <-; auto].
  cbn [getSettableZeroVal New_Elem] in H.
  destruct (cases (reflect.kind lv)) as [c|] eqn:Ec.
  - destruct (c lv rv _ _) as [h'|fc] eqn:Ecase; cbn [bind] in H; [discriminate H|].
    injection H as <-. left. exact (Hc _ _ Ec _ _ _ _ _ Ecase).
  - injection H as <-. right. right. right. exists l, r, lv. auto.
Qed.

Lemma shiftOperator_faults fname cases env left right h f :
  (forall k c, cases k = Some c -> shiftFaultsBelow c) ->
  shiftOperator fname cases env left right h = Err f ->
  raisedBelow f = true
  \/ f = Fatal "getTypedObject: Got untyped nil"
  \/ f = Fatal (fname ++ ": Couldn't get reflect.Type from types.Type")
  \/ exists left' lv,
       getTypedObject left = Ok left' /\
       Value left' = ofReflect lv /\ cases (reflect.kind lv) = None /\
       f = TypeError "shift" (Typ left') (Typ right).
Proof.
  intros Hc H. unfold shiftOperator in H.
  destruct (getTypedObject left) as [l|fl] eqn:El; cbn [bind] in H;
    [|injection H as <-; destruct (getTypedObject_faults _ _ El); auto].
  destruct (Value l) as [lv| |] eqn:Vl; cbn [toReflect bind] in H;
    try (injection H as <-; now left).
  destruct (shiftCount right h) as [amt|fa] eqn:Ea; cbn [bind] in H;
    [|injection H as <-; left; exact (shiftCount_below _ _ _ Ea)].
  unfold getReflectType in H. destruct (typeMap _ _) as [rt|];
    [|injection H as <-; auto].
  cbn [getSettableZeroVal New_Elem] in H.
  destruct (cases (reflect.kind lv)) as [c|] eqn:Ec.
  - destruct (c lv amt _ _) as [h'|fc] eqn:Ecase; cbn [bind] in H; [discriminate H|].
    injection H as <-. left. exact (Hc _ _ Ec _ _ _ _ _ Ecase).
  - injection H as <-. right. right. right. exists l, lv. auto.
Qed.

(** The faults of each of the eleven operators. *)
Lemma doBinaryOp_faults (cmul cdiv : Z -> complex -> complex -> complex)
    (env : environ) (left right : Object) (op : token.Token) (h : heap) (f : fault) :
  arithmeticOrBitwise op = true ->
  doBinaryOp cmul cdiv env left right op h = Err f ->
  raisedBelow f = true
  \/ f = Fatal "getTypedObject: Got untyped nil"
  \/ f = Fatal (functionName op ++ ": Couldn't get reflect.Type from types.Type")
  \/ exists left' lv t,
       getTypedObject left = Ok left' /\ Value left' = ofReflect lv /\
       accepts op (reflect.kind lv) = false /\
       f = TypeError (operationName op) (Typ left') t.
Proof.
  intros Hop H.
  assert (I : forall o : Z -> Z -> result Z,
             o = addZ \/ o = subZ \/ o = mulZ \/ o = quoZ \/ o = remZ \/
             o = andZ \/ o = orZ \/ o = xorZ \/ o = andNotZ ->
             forall k c, integerCases o k = Some c -> faultsBelow c)
    by (intros o Ho k c; now apply integerCases_below).
  destruct op; try discriminate Hop; cbn [doBinaryOp functionName operationName] in *;
    unfold operatorAdd, operatorSubtract, operatorMultiply, operatorQuotient,
      operatorRemainder, operatorAnd, operatorOr, operatorXor, operatorAndNot,
      operatorShiftLeft, operatorShiftRight in H;
    [ apply binaryOperator_faults in H ..
    | apply shiftOperator_faults in H
    | apply shiftOperator_faults in H
    | apply binaryOperator_faults in H ];
    try (destruct H as [H|[H|[H|H]]]; [auto|auto|auto|];
         first [ destruct H as (l & r & lv & H1 & H2 & H3 & H4 & H5);
                 right; right; right; exists l, lv, (Typ r)
               | destruct H as (l & lv & H1 & H3 & H4 & H5);
                 right; right; right; exists l, lv, (Typ right) ];
         repeat split; try assumption;
         destruct (reflect.kind lv); try discriminate H4; reflexivity).
  - intros k c. destruct k; cbn; intros [= <-];
      first [ apply signedCase_below, (integerOp_below addZ); auto 10
            | apply unsignedCase_below, (integerOp_below addZ); auto 10
            | apply floatCase_below | apply complexCase_below
            | apply stringCase_below ].
  - intros k c. apply orElse_below; [apply I; auto 10|apply floatingCases_below].
  - intros k c. apply orElse_below; [apply I; auto 10|apply floatingCases_below].
  - intros k c. apply orElse_below; [apply I; auto 10|apply floatingCases_below].
  - apply I; auto 10.
  - apply I; auto 10.
  - apply I; auto 10.
  - apply I; auto 10.
  - intros k c. destruct k; cbn; intros [= <-];
      auto using signedShift_below, unsignedShift_below.
  - intros k c. destruct k; cbn; intros [= <-];
      auto using signedShift_below, unsignedShift_below.
  - apply I; auto 10.
Qed.

(** X9. The faults of the eleven arithmetic and bitwise operators. A call
    that does not return ends in a panic of reflect, of go/exact or of the
    run time, in the [log.Fatal] of the normalizer on an untyped nil, in the
    [log.Fatal] of the operator itself when the registry has no storage
    type, or in the operator's panic "Type error: Invalid operands to ..."
    and this last one only when the switch has no case for the kind of the
    left operand. Conversely, on typed operands with a storage type, a left
    operand of a kind without a case ends in that panic: [Bool] and the
    reference kinds for every operator, [String] for all but [Add], floats
    and complex numbers for [Remainder], the bitwise operators and the
    shifts. *)
Theorem faults_of_operators (cmul cdiv : Z -> complex -> complex -> complex)
    (env : environ) (left right : Object) (op : token.Token) (h : heap) :
  arithmeticOrBitwise op = true ->
  (forall f, doBinaryOp cmul cdiv env left right op h = Err f ->
     raisedBelow f = true
     \/ f = Fatal "getTypedObject: Got untyped nil"
     \/ f = Fatal (functionName op ++ ": Couldn't get reflect.Type from types.Type")
     \/ exists left' lv t,
          getTypedObject left = Ok left' /\ Value left' = ofReflect lv /\
          accepts op (reflect.kind lv) = false /\
          f = TypeError (operationName op) (Typ left') t)
  /\ (forall lv rv rt,
        isTyped (Typ left) = true -> Value left = ofReflect lv ->
        isTyped (Typ right) = true -> Value right = ofReflect rv ->
        (op = token.SHL \/ op = token.SHR -> exists n, shiftCount right h = Ok n) ->
        typeMap (interp env) (Typ left) = Some rt ->
        accepts op (reflect.kind lv) = false ->
        doBinaryOp cmul cdiv env left right op h
        = Err (TypeError (operationName op) (Typ left) (Typ right))).
Proof.
  intros Hop. split; [intros f; now apply doBinaryOp_faults|].
  intros lv rv rt Hl Hlv Hr Hrv Hc Hrt Ha.
  destruct op; try discriminate Hop; cbn [doBinaryOp operationName];
    unfold operatorAdd, operatorSubtract, operatorMultiply, operatorQuotient,
      operatorRemainder, operatorAnd, operatorOr, operatorXor, operatorAndNot,
      operatorShiftLeft, operatorShiftRight;
    try (rewrite (binaryOperator_typed _ _ _ env left right lv rv rt h Hl Hr Hlv Hrv Hrt);
         destruct (reflect.kind lv); try discriminate Ha; reflexivity);
    (destruct Hc as [n Hn]; [auto|]);
    rewrite (shiftOperator_typed _ _ env left right lv rt n h Hl Hlv Hn Hrt);
    destruct (reflect.kind lv); try discriminate Ha; reflexivity.
Qed.

(** X10. The two dispatches. A token that is not one of the eleven
    arithmetic and bitwise operators makes [doBinaryOp] end in
    [log.Fatalf], whatever the operands, and one of the eleven never does;
    a token that is not one of the five comparisons, such as [NEQ], makes
    [doBinaryComparisonOp] end in [log.Fatalf]. No token is dispatched by
    both. *)
Theorem dispatch_defaults (cmul cdiv : Z -> complex -> complex -> complex)
    (AssignableTo : types.type -> types.type -> bool)
    (Convert : heap -> reflect.Value -> reflect.rtype -> result reflect.Value)
    (env : environ) (left right : Object) (op : token.Token)
    (typ : types.type) (h : heap) :
  (arithmeticOrBitwise op = false ->
   doBinaryOp cmul cdiv env left right op h
   = Err (Fatalf "Binary operator %v not implemented yet" op))
  /\ (arithmeticOrBitwise op = true ->
      forall msg op', doBinaryOp cmul cdiv env left right op h <> Err (Fatalf msg op'))
  /\ (comparison op = false ->
      doBinaryComparisonOp AssignableTo Convert env left right op typ h
      = Err (Fatalf "Binary comparison operator %v not implemented yet" op))
  /\ comparison token.NEQ = false
  /\ arithmeticOrBitwise op && comparison op = false.
Proof.
  split; [|split; [|split; [|split]]].
  - intros H. destruct op; try discriminate H; reflexivity.
  - intros H msg op' E.
    destruct (doBinaryOp_faults cmul cdiv env left right op h _ H E)
      as [B|[B|[B|(l & lv & t & _ & _ & _ & B)]]]; discriminate B.
  - intros H. destruct op; try discriminate H; reflexivity.
  - reflexivity.
  - now destruct op.
Qed.

(** ** The map of the assignment operators *)

(** X19. The map [assignOps] sends each of the eleven assignment tokens to
    one of the eleven operators that [doBinaryOp] implements, so that the
    operator of an assignment never meets the default of the dispatch; two
    assignment tokens have different operators, and every operator is the
    operator of an assignment token. *)
Theorem assignOps_operators (cmul cdiv : Z -> complex -> complex -> complex)
    (env : environ) (left right : Object) (h : heap) :
  (forall k, exists op,
      mapLookup assignOps k = Some op /\ arithmeticOrBitwise op = true /\
      forall msg op', doBinaryOp cmul cdiv env left right op h <> Err (Fatalf msg op'))
  /\ (forall k k', mapLookup assignOps k = mapLookup assignOps k' -> k = k')
  /\ (forall op, arithmeticOrBitwise op = true ->
        exists k, mapLookup assignOps k = Some op)
  /\ length assignOps = 11%nat.
Proof.
  split; [|split; [|split]].
  - intros k.
    assert (E : exists op, mapLookup assignOps k = Some op /\ arithmeticOrBitwise op = true)
      by (destruct k; eexists; split; reflexivity).
    destruct E as (op & E & A). exists op. split; [exact E|split; [exact A|]].
    intros msg op' F.
    destruct (doBinaryOp_faults cmul cdiv env left right op h _ A F)
      as [B|[B|[B|(l & lv & t & _ & _ & _ & B)]]]; discriminate B.
  - intros k k'. destruct k, k'; cbn; intros H; try discriminate H; reflexivity.
  - intros op H. destruct op; try discriminate H.
    + now exists ADD_ASSIGN.
    + now exists SUB_ASSIGN.
    + now exists MUL_ASSIGN.
    + now exists QUO_ASSIGN.
    + now exists REM_ASSIGN.
    + now exists AND_ASSIGN.
    + now exists OR_ASSIGN.
    + now exists XOR_ASSIGN.
    + now exists SHL_ASSIGN.
    + now exists SHR_ASSIGN.
    + now exists AND_NOT_ASSIGN.
  - reflexivity.
Qed.

(** ** Strings, and operands of two kinds *)

Lemma Value_SetString_fresh (t : reflect.rtype) (x : string) (z : reflect.data) (h : heap) :
  reflect.Kind_ t = reflect.String ->
  Value_SetString (fresh t h) x (h ++ [z]) = Ok (h ++ [reflect.DString x]).
Proof.
  intros Hk. unfold Value_SetString, reflect.kind, fresh. cbn [reflect.ptr reflect.typ].
  rewrite Hk. apply (store_fresh _ t).
Qed.

(** X18. [Add] on strings concatenates. The right operand is read with
    [String], which does not panic on a value that is not a string: for a
    right operand of another kind, whatever it holds, [Add] returns the left
    string followed by ["<T Value>"], [T] being the storage type of the
    right operand. *)
Theorem add_concatenates (env : environ) (left right : Object)
    (lv rv : reflect.Value) (rt : reflect.rtype) (s : string) (h : heap) :
  operand h left lv reflect.String (reflect.DString s) ->
  isTyped (Typ right) = true -> Value right = ofReflect rv ->
  typeMap (interp env) (Typ left) = Some rt ->
  reflect.Kind_ rt = reflect.String ->
  (forall t, reflect.kind rv = reflect.String ->
     load h rv = Ok (reflect.DString t) ->
     operatorAdd env left right h
     = Ok ({| Value := ofReflect (fresh rt h); Typ := Typ left |},
           h ++ [reflect.DString (s ++ t)%string]))
  /\ (reflect.kind rv <> reflect.String ->
      operatorAdd env left right h
      = Ok ({| Value := ofReflect (fresh rt h); Typ := Typ left |},
            h ++ [reflect.DString
                    (s ++ "<" ++ reflect.String_ (reflect.typ rv) ++ " Value>")%string])).
Proof.
  intros (Hl & Hlv & Klv & La) Hr Hrv Hrt Krt.
  assert (E : operatorAdd env left right h
              = (h' <- stringCase lv rv (fresh rt h)
                         (h ++ [reflect.zero (reflect.Kind_ rt)]) ;;
                 Ok ({| Value := ofReflect (fresh rt h); Typ := Typ left |}, h'))).
  { unfold operatorAdd.
    rewrite (binaryOperator_typed _ _ _ env left right lv rv rt h Hl Hr Hlv Hrv Hrt).
    now rewrite Klv. }
  rewrite E. unfold stringCase.
  assert (Sl : Value_String (h ++ [reflect.zero (reflect.Kind_ rt)]) lv = Ok s).
  { unfold Value_String. rewrite Klv, (load_app _ _ _ _ La). reflexivity. }
  rewrite Sl. cbn [bind]. split.
  - intros t Krv Lb. unfold Value_String at 1. rewrite Krv, (load_app _ _ _ _ Lb).
    cbn [bind]. now rewrite (Value_SetString_fresh rt _ _ h Krt).
  - intros Krv. unfold Value_String at 1.
    destruct (reflect.kind rv); try (now destruct Krv);
      cbn [bind]; now rewrite (Value_SetString_fresh rt _ _ h Krt).
Qed.

(** X20. The operands of an operator on integers are read with one
    accessor, chosen by the kind of the left operand: [Int] for a signed
    kind, [Uint] for an unsigned one. On a right operand of the other
    signedness the accessor panics; the operator makes no conversion between
    signed and unsigned operands. *)
Theorem mixed_signedness_panics (cmul cdiv : Z -> complex -> complex -> complex)
    (env : environ) (left right : Object) (lv rv : reflect.Value)
    (rt : reflect.rtype) (K : reflect.Kind) (op : token.Token)
    (opZ : Z -> Z -> result Z) (a : Z) (h : heap) :
  machineOperation op = Some opZ ->
  isInteger K = true ->
  operand h left lv K (reflect.DInt a) ->
  isTyped (Typ right) = true -> Value right = ofReflect rv ->
  isInteger (reflect.kind rv) = true ->
  reflect.isSigned (reflect.kind rv) <> reflect.isSigned K ->
  typeMap (interp env) (Typ left) = Some rt ->
  doBinaryOp cmul cdiv env left right op h
  = Err (ValueError (if reflect.isSigned K then "reflect.Value.Int"
                     else "reflect.Value.Uint") (reflect.kind rv)).
Proof.
  intros Hop HK (Hl & Hlv & Klv & La) Hr Hrv HK' Sg Hrt.
  assert (IK : isInteger (reflect.kind lv) = true) by now rewrite Klv.
  rewrite (doBinaryOp_integer cmul cdiv env left right lv rv rt op opZ h
             Hl Hr Hlv Hrv Hrt IK)
    by (destruct op; try discriminate Hop; now injection Hop as <-).
  rewrite Klv.
  destruct (isInteger_cases K HK) as [[S U]|[S U]]; rewrite S.
  - rewrite (integerCases_signed _ K S). unfold signedCase.
    rewrite (Value_Int_load _ _ a) by (congruence || now apply load_app).
    cbn [bind]. unfold Value_Int.
    destruct (reflect.isSigned (reflect.kind rv)); [now destruct Sg|reflexivity].
  - rewrite (integerCases_unsigned _ K U). unfold unsignedCase.
    rewrite (Value_Uint_load _ _ a) by (congruence || now apply load_app).
    cbn [bind]. unfold Value_Uint.
    assert (U' : reflect.isUnsigned (reflect.kind rv) = false).
    { destruct (reflect.kind rv); cbn in *; try reflexivity; try discriminate HK';
        now destruct Sg. }
    now rewrite U'.
Qed.

(** ** The further properties at concrete operands *)

Lemma integer_operators_modular_witness :
  doBinaryOp sampleMul sampleDiv stdEnv (Uint8 200) (Uint8 3) token.MUL []
  = Ok ({| Value := ofReflect (fresh uint8Type []); Typ := types.Typ types.Uint8 |},
        [] ++ [reflect.DInt (reinterpret reflect.Uint8 ((200 * 3) mod 2 ^ 8))]).
Proof.
  assert (Ol : operand [] (Uint8 200) (reflect.ValueOf uint8Type (reflect.DInt 200))
                 reflect.Uint8 (reflect.DInt 200)) by (repeat split).
  assert (Or : operand [] (Uint8 3) (reflect.ValueOf uint8Type (reflect.DInt 3))
                 reflect.Uint8 (reflect.DInt 3)) by (repeat split).
  exact (integer_operators_modular sampleMul sampleDiv stdEnv _ _ _ _ uint8Type
           reflect.Uint8 reflect.Uint8 token.MUL Z.mul 200 3 []
           eq_refl eq_refl eq_refl eq_refl Ol Or eq_refl eq_refl).
Defined.

Lemma subtract_undoes_add_witness :
  exists sum h1 difference h2 dv,
    doBinaryOp sampleMul sampleDiv stdEnv (Int8 120) (Int8 10) token.ADD [] = Ok (sum, h1) /\
    doBinaryOp sampleMul sampleDiv stdEnv sum (Int8 10) token.SUB h1 = Ok (difference, h2) /\
    Value difference = ofReflect dv /\
    load h2 dv = Ok (reflect.DInt 120).
Proof.
  assert (Ol : operand [] (Int8 120) (reflect.ValueOf int8Type (reflect.DInt 120))
                 reflect.Int8 (reflect.DInt 120)) by (repeat split).
  assert (Or : operand [] (Int8 10) (reflect.ValueOf int8Type (reflect.DInt 10))
                 reflect.Int8 (reflect.DInt 10)) by (repeat split).
  assert (R : representable reflect.Int8 120) by (cbv; split; [discriminate|reflexivity]).
  destruct (subtract_undoes_add sampleMul sampleDiv stdEnv _ _ _ _ int8Type
              reflect.Int8 120 10 [] eq_refl Ol Or R eq_refl eq_refl)
    as (sum & h1 & d & h2 & dv & H1 & H2 & _ & H4 & H5 & _).
  exists sum, h1, d, h2, dv. auto.
Defined.

Lemma bitwise_operators_bits_witness :
  exists r,
    doBinaryOp sampleMul sampleDiv stdEnv (Int8 (-4)) (Int8 6) token.AND_NOT []
    = Ok ({| Value := ofReflect (fresh int8Type []); Typ := types.Typ types.Int8 |},
          [] ++ [reflect.DInt r]) /\
    representable reflect.Int8 r.
Proof.
  assert (Ol : operand [] (Int8 (-4)) (reflect.ValueOf int8Type (reflect.DInt (-4)))
                 reflect.Int8 (reflect.DInt (-4))) by (repeat split).
  assert (Or : operand [] (Int8 6) (reflect.ValueOf int8Type (reflect.DInt 6))
                 reflect.Int8 (reflect.DInt 6)) by (repeat split).
  destruct (bitwise_operators_bits sampleMul sampleDiv stdEnv _ _ _ _ int8Type
              reflect.Int8 token.AND_NOT _ (-4) 6 [] eq_refl eq_refl Ol Or eq_refl eq_refl)
    as (r & H1 & H2 & _).
  exists r. auto.
Defined.

Lemma quotient_and_remainder_witness :
  exists q,
    operatorQuotient sampleDiv stdEnv (Int8 (-128)) (Int8 (-1)) []
    = Ok ({| Value := ofReflect (fresh int8Type []); Typ := types.Typ types.Int8 |},
          [] ++ [reflect.DInt q]) /\
    operatorRemainder stdEnv (Int8 (-128)) (Int8 (-1)) []
    = Ok ({| Value := ofReflect (fresh int8Type []); Typ := types.Typ types.Int8 |},
          [] ++ [reflect.DInt (Z.rem (-128) (-1))]).
Proof.
  assert (Ol : operand [] (Int8 (-128)) (reflect.ValueOf int8Type (reflect.DInt (-128)))
                 reflect.Int8 (reflect.DInt (-128))) by (repeat split).
  assert (Or : operand [] (Int8 (-1)) (reflect.ValueOf int8Type (reflect.DInt (-1)))
                 reflect.Int8 (reflect.DInt (-1))) by (repeat split).
  assert (Ra : representable reflect.Int8 (-128)) by (cbv; split; [discriminate|reflexivity]).
  assert (Rb : representable reflect.Int8 (-1)) by (cbv; split; [discriminate|reflexivity]).
  assert (N : -1 <> 0) by discriminate.
  destruct (quotient_and_remainder sampleDiv stdEnv _ _ _ _ int8Type reflect.Int8
              (-128) (-1) [] eq_refl Ol Or Ra Rb N eq_refl eq_refl)
    as (q & H1 & H2 & _).
  exists q. auto.
Defined.

Lemma shift_left_value_witness :
  operatorShiftLeft stdEnv (Int8 3) (Uint 6) []
  = Ok ({| Value := ofReflect (fresh int8Type []); Typ := types.Typ types.Int8 |},
        [] ++ [reflect.DInt (reinterpret reflect.Int8 ((3 * 2 ^ 6) mod 2 ^ 8))]).
Proof.
  assert (Ol : operand [] (Int8 3) (reflect.ValueOf int8Type (reflect.DInt 3))
                 reflect.Int8 (reflect.DInt 3)) by (repeat split).
  assert (NK : reflect.Int8 <> reflect.Uint64) by discriminate.
  assert (N : 0 <= 6) by discriminate.
  exact (proj1 (shift_left_value stdEnv _ (Uint 6) _ int8Type reflect.Int8 3 6 []
                  eq_refl NK Ol eq_refl N eq_refl eq_refl)).
Defined.

Lemma shift_by_negative_constant_witness :
  operatorShiftRight stdEnv (Int8 (-3)) (untypedConstant (-1)) []
  = Ok ({| Value := ofReflect (fresh int8Type []); Typ := types.Typ types.Int8 |},
        [] ++ [reflect.DInt (if -3 <? 0 then -1 else 0)]).
Proof.
  assert (Ol : operand [] (Int8 (-3)) (reflect.ValueOf int8Type (reflect.DInt (-3)))
                 reflect.Int8 (reflect.DInt (-3))) by (repeat split).
  assert (R : representable reflect.Int8 (-3)) by (cbv; split; [discriminate|reflexivity]).
  assert (Z1 : - 2 ^ 63 <= -1 < 0) by (split; [discriminate|reflexivity]).
  exact (proj2 (proj2 (shift_by_negative_constant stdEnv _ _ int8Type reflect.Int8
                         (-3) (-1) [] eq_refl Ol R Z1 eq_refl eq_refl))).
Defined.

Lemma float_division_by_zero_witness :
  exists r,
    operatorQuotient sampleDiv stdEnv (Float64 (S754_finite false 1 0))
      (Float64 (S754_zero true)) []
    = Ok ({| Value := ofReflect (fresh reflect.float64Type []);
             Typ := types.Typ types.Float64 |},
          [] ++ [reflect.DFloat r]).
Proof.
  assert (Ol : operand [] (Float64 (S754_finite false 1 0))
                 (reflect.ValueOf reflect.float64Type (reflect.DFloat (S754_finite false 1 0)))
                 reflect.Float64 (reflect.DFloat (S754_finite false 1 0))) by (repeat split).
  assert (Or : operand [] (Float64 (S754_zero true))
                 (reflect.ValueOf reflect.float64Type (reflect.DFloat (S754_zero true)))
                 reflect.Float64 (reflect.DFloat (S754_zero true))) by (repeat split).
  destruct (float_division_by_zero sampleDiv stdEnv _ _ _ _ reflect.float64Type
              reflect.Float64 _ _ [] eq_refl Ol Or eq_refl eq_refl) as (r & H & _).
  exists r. exact H.
Defined.

Lemma registry_miss_is_fatal_witness :
  doBinaryOp sampleMul sampleDiv stdEnv (unregistered 1) (Int 0) token.QUO []
  = Err (Fatal (functionName token.QUO ++ ": Couldn't get reflect.Type from types.Type")).
Proof.
  apply (registry_miss_is_fatal sampleMul sampleDiv stdEnv (unregistered 1) (Int 0)
           (reflect.ValueOf reflect.intType (reflect.DInt 1))
           (reflect.ValueOf reflect.intType (reflect.DInt 0)) token.QUO []);
    try reflexivity.
  intros [H|H]; discriminate H.
Defined.

Lemma faults_of_operators_witness :
  doBinaryOp sampleMul sampleDiv stdEnv (Bool true) (Bool false) token.AND []
  = Err (TypeError (operationName token.AND) (types.Typ types.Bool) (types.Typ types.Bool)).
Proof.
  apply (proj2 (faults_of_operators sampleMul sampleDiv stdEnv (Bool true) (Bool false)
                  token.AND [] eq_refl)
           (reflect.ValueOf reflect.boolType (reflect.DBool true))
           (reflect.ValueOf reflect.boolType (reflect.DBool false))
           reflect.boolType); try reflexivity.
  intros [H|H]; discriminate H.
Defined.

Lemma dispatch_defaults_witness :
  doBinaryOp sampleMul sampleDiv stdEnv (Int 1) (Int 2) token.NEQ []
  = Err (Fatalf "Binary operator %v not implemented yet" token.NEQ)
  /\ doBinaryComparisonOp sampleAssignableTo sampleConvert stdEnv (Int 1) (Int 2)
       token.NEQ (types.Typ types.Bool) []
     = Err (Fatalf "Binary comparison operator %v not implemented yet" token.NEQ).
Proof.
  pose proof (dispatch_defaults sampleMul sampleDiv sampleAssignableTo sampleConvert
                stdEnv (Int 1) (Int 2) token.NEQ (types.Typ types.Bool) []) as H.
  split; [exact (proj1 H eq_refl)|exact (proj1 (proj2 (proj2 H)) eq_refl)].
Defined.

Lemma normalizer_result_witness :
  basicInvariant (Int 7) /\ getTypedObject (Int 7) = Ok (Int 7).
Proof.
  destruct (normalizer_result (untypedConstant 7) (Int 7) eq_refl eq_refl)
    as (H1 & _ & H3).
  split; assumption.
Defined.

Lemma unknown_constant_is_zero_witness :
  getTypedObject {| Value := ofExact exact.Unknown; Typ := types.Typ types.UntypedFloat |}
  = Ok (Float64 (S754_zero false)).
Proof.
  exact (unknown_constant_is_zero
           {| Value := ofExact exact.Unknown; Typ := types.Typ types.UntypedFloat |}
           types.UntypedFloat types.Float64 reflect.float64Type
           eq_refl eq_refl eq_refl eq_refl).
Defined.

Lemma ordered_comparisons_integers_witness :
  comparisonValue sampleAssignableTo sampleConvert token.LSS (Int8 (-1)) (Int 300) []
  = Ok (-1 <? 300).
Proof.
  assert (Ol : operand [] (Int8 (-1)) (reflect.ValueOf int8Type (reflect.DInt (-1)))
                 reflect.Int8 (reflect.DInt (-1))) by (repeat split).
  assert (Or : operand [] (Int 300) (reflect.ValueOf reflect.intType (reflect.DInt 300))
                 reflect.Int (reflect.DInt 300)) by (repeat split).
  exact (proj1 (ordered_comparisons_integers sampleAssignableTo sampleConvert _ _ _ _
                  reflect.Int8 reflect.Int (-1) 300 [] eq_refl eq_refl eq_refl Ol Or)).
Defined.

Lemma ordered_comparisons_nan_witness :
  comparisonValue sampleAssignableTo sampleConvert token.GEQ
    (Float64 NaN) (Float64 (S754_zero false)) [] = Ok false.
Proof.
  assert (Ol : operand [] (Float64 NaN)
                 (reflect.ValueOf reflect.float64Type (reflect.DFloat NaN))
                 reflect.Float64 (reflect.DFloat NaN)) by (repeat split).
  assert (Or : operand [] (Float64 (S754_zero false))
                 (reflect.ValueOf reflect.float64Type (reflect.DFloat (S754_zero false)))
                 reflect.Float64 (reflect.DFloat (S754_zero false))) by (repeat split).
  assert (N : token.GEQ <> token.EQL) by discriminate.
  exact (ordered_comparisons_nan sampleAssignableTo sampleConvert _ _ _ _
           reflect.Float64 reflect.Float64 _ _ token.GEQ []
           eq_refl eq_refl Ol Or eq_refl eq_refl N).
Defined.

Lemma equal_symmetric_witness :
  equalValue sampleAssignableTo sampleConvert (Pointer (Some 5)) untypedNil []
  = equalValue sampleAssignableTo sampleConvert untypedNil (Pointer (Some 5)) [].
Proof.
  apply equal_symmetric.
  - right. split; [reflexivity|]. eexists. reflexivity.
  - left. reflexivity.
  - intros _ H. discriminate H.
Defined.

Lemma equal_agrees_with_order_witness :
  comparisonValue sampleAssignableTo sampleConvert token.EQL (Int8 5) (Int8 7) []
  = Ok (5 =? 7).
Proof.
  assert (Ol : operand [] (Int8 5) (reflect.ValueOf int8Type (reflect.DInt 5))
                 reflect.Int8 (reflect.DInt 5)) by (repeat split).
  assert (Or : operand [] (Int8 7) (reflect.ValueOf int8Type (reflect.DInt 7))
                 reflect.Int8 (reflect.DInt 7)) by (repeat split).
  exact (proj1 (equal_agrees_with_order sampleAssignableTo sampleConvert _ _ _ _
                  reflect.Int8 5 7 [] eq_refl Ol Or eq_refl eq_refl)).
Defined.

Lemma comparison_named_type_faults_witness :
  doBinaryComparisonOp sampleAssignableTo sampleConvert stdEnv (Int8 1) (Int8 2)
    token.LSS Unstored []
  = Err (Fatal (functionName token.LSS ++ ": Couldn't get reflect.Type from types.Type"))
  /\ doBinaryComparisonOp sampleAssignableTo sampleConvert stdEnv (Int8 1) (Int8 2)
       token.LSS Celsius []
     = Err (ValueError "reflect.Value.SetBool" reflect.Int).
Proof.
  split.
  - exact (proj1 (comparison_named_type_faults sampleAssignableTo sampleConvert stdEnv
                    (Int8 1) (Int8 2) token.LSS Unstored true [] eq_refl eq_refl) eq_refl).
  - assert (N : reflect.Int <> reflect.Bool) by discriminate.
    exact (proj2 (comparison_named_type_faults sampleAssignableTo sampleConvert stdEnv
                    (Int8 1) (Int8 2) token.LSS Celsius true [] eq_refl eq_refl)
             {| reflect.String_ := "Celsius"; reflect.Kind_ := reflect.Int |} eq_refl N).
Defined.

Lemma add_concatenates_witness :
  operatorAdd stdEnv (Str "n=") (Int 5) []
  = Ok ({| Value := ofReflect (fresh reflect.stringType []); Typ := types.Typ types.String |},
        [] ++ [reflect.DString ("n=" ++ "<" ++ "int" ++ " Value>")%string]).
Proof.
  assert (Ol : operand [] (Str "n=")
                 (reflect.ValueOf reflect.stringType (reflect.DString "n="))
                 reflect.String (reflect.DString "n=")) by (repeat split).
  assert (N : reflect.kind (reflect.ValueOf reflect.intType (reflect.DInt 5))
              <> reflect.String) by discriminate.
  exact (proj2 (add_concatenates stdEnv _ (Int 5) _ _ reflect.stringType "n=" []
                  Ol eq_refl eq_refl eq_refl eq_refl) N).
Defined.

Lemma assignOps_operators_witness :
  exists k, mapLookup assignOps k = Some token.AND_NOT.
Proof.
  exact (proj1 (proj2 (proj2 (assignOps_operators sampleMul sampleDiv stdEnv
                                 (Int 1) (Int 2) [])))
           token.AND_NOT eq_refl).
Defined.

Lemma mixed_signedness_panics_witness :
  doBinaryOp sampleMul sampleDiv stdEnv (Int8 1) (Uint8 2) token.ADD []
  = Err (ValueError "reflect.Value.Int" reflect.Uint8).
Proof.
  assert (Ol : operand [] (Int8 1) (reflect.ValueOf int8Type (reflect.DInt 1))
                 reflect.Int8 (reflect.DInt 1)) by (repeat split).
  assert (N : reflect.isSigned (reflect.kind (reflect.ValueOf uint8Type (reflect.DInt 2)))
              <> reflect.isSigned reflect.Int8) by discriminate.
  exact (mixed_signedness_panics sampleMul sampleDiv stdEnv _ (Uint8 2) _
           (reflect.ValueOf uint8Type (reflect.DInt 2)) int8Type reflect.Int8
           token.ADD addZ 1 [] eq_refl eq_refl Ol eq_refl eq_refl eq_refl N eq_refl).
Defined.

(** ** Operands that are constants *)

Lemma getTypedObject_idempotent (o o' : Object) :
  getTypedObject o = Ok o' -> getTypedObject o' = Ok o'.
Proof.
  intros H. destruct (getTypedObject_inv _ _ H) as [->|T]; [exact H|].
  now apply getTypedObject_typed.
Qed.

Lemma binaryOperator_normalizes fname operation cases env left right left' right' h :
  getTypedObject left = Ok left' -> getTypedObject right = Ok right' ->
  binaryOperator fname operation cases env left right h
  = binaryOperator fname operation cases env left' right' h.
Proof.
  intros Hl Hr. unfold binaryOperator.
  now rewrite Hl, Hr, (getTypedObject_idempotent _ _ Hl), (getTypedObject_idempotent _ _ Hr).
Qed.

Lemma shiftOperator_normalizes fname cases env left right left' h :
  getTypedObject left = Ok left' ->
  shiftOperator fname cases env left right h
  = shiftOperator fname cases env left' right h.
Proof.
  intros Hl. unfold shiftOperator.
  now rewrite Hl, (getTypedObject_idempotent _ _ Hl).
Qed.

(** The operators see their operands through the normalizer. *)
Lemma doBinaryOp_normalizes (cmul cdiv : Z -> complex -> complex -> complex)
    (env : environ) (left right left' right' : Object) (op : token.Token) (h : heap) :
  getTypedObject left = Ok left' -> getTypedObject right = Ok right' ->
  doBinaryOp cmul cdiv env left right op h
  = doBinaryOp cmul cdiv env left'
      (match op with token.SHL | token.SHR => right | _ => right' end) op h.
Proof.
  intros Hl Hr.
  destruct op; cbn [doBinaryOp]; try reflexivity;
    unfold operatorAdd, operatorSubtract, operatorMultiply, operatorQuotient,
      operatorRemainder, operatorAnd, operatorOr, operatorXor, operatorAndNot,
      operatorShiftLeft, operatorShiftRight;
    first [ now apply binaryOperator_normalizes
          | now apply shiftOperator_normalizes ].
Qed.

(** X21. An operator gives the same result, or the same fault, on its
    operands and on their normal forms: the nine arithmetic and bitwise
    operators normalize both operands, the two shifts the left one only,
    whose count is read from the right operand as it is. *)
Theorem operators_normalize_operands (cmul cdiv : Z -> complex -> complex -> complex)
    (env : environ) (left right left' right' : Object) (op : token.Token) (h : heap) :
  getTypedObject left = Ok left' -> getTypedObject right = Ok right' ->
  doBinaryOp cmul cdiv env left right op h
  = doBinaryOp cmul cdiv env left'
      (match op with token.SHL | token.SHR => right | _ => right' end) op h.
Proof. exact (doBinaryOp_normalizes cmul cdiv env left right left' right' op h). Qed.

Lemma getTypedObject_constant (z : Z) :
  getTypedObject (untypedConstant z) = Ok (Int (wrapS 64 z)).
Proof.
  unfold getTypedObject, untypedConstant.
  cbn [Typ Value isTyped types.Typ types.Underlying types.isUntyped negb toBasic
       toExact bind].
  destruct (exact_Int64Val_truncates z) as [e ->]. cbn [bind fst].
  unfold Int, intSize. now rewrite wrapS_wrapS by lia.
Qed.

(** X22. An untyped integer constant as the right operand becomes an [Int]
    whatever the left operand is. With a left operand of a signed kind [K]
    an operator that respects the residues computes on the constant modulo
    [2^W]; with a left operand of an unsigned kind the operator panics in
    [Uint], the constant being signed. *)
Theorem constant_right_operand (cmul cdiv : Z -> complex -> complex -> complex)
    (env : environ) (left : Object) (lv : reflect.Value) (rt : reflect.rtype)
    (K : reflect.Kind) (op : token.Token) (f : Z -> Z -> Z) (a z : Z) (h : heap) :
  integerOperation op = Some f ->
  isInteger K = true ->
  operand h left lv K (reflect.DInt a) ->
  typeMap (interp env) (Typ left) = Some rt -> reflect.Kind_ rt = K ->
  (reflect.isSigned K = true ->
   doBinaryOp cmul cdiv env left (untypedConstant z) op h
   = Ok ({| Value := ofReflect (fresh rt h); Typ := Typ left |},
         h ++ [reflect.DInt (reinterpret K (f a z mod 2 ^ reflect.bits K))]))
  /\ (reflect.isSigned K = false ->
      doBinaryOp cmul cdiv env left (untypedConstant z) op h
      = Err (ValueError "reflect.Value.Uint" reflect.Int)).
Proof.
  intros Hop HK Ol Hrt Krt.
  pose proof (bits_integer K HK) as HW.
  pose proof Ol as (Hl & Hlv & Klv & La).
  assert (N : doBinaryOp cmul cdiv env left (untypedConstant z) op h
              = doBinaryOp cmul cdiv env left (Int (wrapS 64 z)) op h).
  { rewrite (doBinaryOp_normalizes cmul cdiv env left (untypedConstant z) left
               (Int (wrapS 64 z)) op h (getTypedObject_typed _ Hl)
               (getTypedObject_constant z)).
    destruct op; try discriminate Hop; reflexivity. }
  rewrite N.
  assert (Or : operand h (Int (wrapS 64 z))
                 (reflect.ValueOf reflect.intType (reflect.DInt (wrapS 64 z)))
                 reflect.Int (reflect.DInt (wrapS 64 z))) by (repeat split).
  split; intros Sg.
  - rewrite (doBinaryOp_modular cmul cdiv env left _ lv _ rt K reflect.Int op f a
               (wrapS 64 z) h Hop HK eq_refl (eq_sym Sg) Ol Or Hrt Krt).
    do 5 f_equal.
    destruct (isInteger_cases K HK) as [[S U]|[S U]]; [|congruence].
    rewrite <- !(wrapS_as_reinterpret K _ S). apply wrapS_congr.
    apply (integerOperation_respectsMod op f Hop); [lia|reflexivity|].
    rewrite <- (Z.mod_mod_divide (wrapS 64 z) (2 ^ 64) (2 ^ reflect.bits K)).
    + rewrite wrapS_mod by lia. apply Z.mod_mod_divide.
      exists (2 ^ (64 - reflect.bits K)). rewrite <- Z.pow_add_r by lia. f_equal. lia.
    + exists (2 ^ (64 - reflect.bits K)). rewrite <- Z.pow_add_r by lia. f_equal. lia.
  - assert (M : exists opZ, machineOperation op = Some opZ)
      by (destruct op; try discriminate Hop; eexists; reflexivity).
    destruct M as [opZ M].
    assert (IK : isInteger (reflect.kind lv) = true) by now rewrite Klv.
    rewrite (doBinaryOp_integer cmul cdiv env left (Int (wrapS 64 z)) lv
               (reflect.ValueOf reflect.intType (reflect.DInt (wrapS 64 z)))
               rt op opZ h Hl eq_refl Hlv eq_refl Hrt IK)
      by (destruct op; try discriminate M; now injection M as <-).
    rewrite Klv.
    destruct (isInteger_cases K HK) as [[S U]|[S U]]; [congruence|].
    rewrite (integerCases_unsigned _ K U). unfold unsignedCase.
    rewrite (Value_Uint_load _ _ a) by (congruence || now apply load_app).
    reflexivity.
Qed.

Lemma operators_normalize_operands_witness :
  doBinaryOp sampleMul sampleDiv stdEnv (untypedConstant 6) (untypedConstant 7) token.MUL []
  = doBinaryOp sampleMul sampleDiv stdEnv (Int 6) (Int 7) token.MUL [].
Proof.
  exact (operators_normalize_operands sampleMul sampleDiv stdEnv
           (untypedConstant 6) (untypedConstant 7) (Int 6) (Int 7) token.MUL []
           eq_refl eq_refl).
Defined.

Lemma constant_right_operand_witness :
  doBinaryOp sampleMul sampleDiv stdEnv (Int8 100) (untypedConstant 300) token.ADD []
  = Ok ({| Value := ofReflect (fresh int8Type []); Typ := types.Typ types.Int8 |},
        [] ++ [reflect.DInt (reinterpret reflect.Int8 ((100 + 300) mod 2 ^ 8))])
  /\ doBinaryOp sampleMul sampleDiv stdEnv (Uint8 100) (untypedConstant 300) token.ADD []
     = Err (ValueError "reflect.Value.Uint" reflect.Int).
Proof.
  assert (Ol : operand [] (Int8 100) (reflect.ValueOf int8Type (reflect.DInt 100))
                 reflect.Int8 (reflect.DInt 100)) by (repeat split).
  assert (Ou : operand [] (Uint8 100) (reflect.ValueOf uint8Type (reflect.DInt 100))
                 reflect.Uint8 (reflect.DInt 100)) by (repeat split).
  split.
  - exact (proj1 (constant_right_operand sampleMul sampleDiv stdEnv _ _ int8Type
                    reflect.Int8 token.ADD Z.add 100 300 []
                    eq_refl eq_refl Ol eq_refl eq_refl) eq_refl).
  - exact (proj2 (constant_right_operand sampleMul sampleDiv stdEnv _ _ uint8Type
                    reflect.Uint8 token.ADD Z.add 100 300 []
                    eq_refl eq_refl Ou eq_refl eq_refl) eq_refl).
Defined.
